(** * Water-surface profiles upstream of a weir: the numerical engine

    A shallow embedding of the gradually-varied-flow notebooks:

    - [weir_flow_interactive.ipynb]          (module [Interactive]),
    - [weir_gvf_corrected_upstream.ipynb]    (module [CorrectedUpstream]),
    - the trapezoidal notebook with CSV export, of which
      [weir_gvf_final_corrected] is a copy   (module [Trapezoidal]),
    - the smooth-backwater notebook          (module [SmoothBackwater]).

    The notebooks compute with Python/NumPy floating-point numbers.  The
    embedding is written once over an interface [PyNum] of the arithmetic the
    code uses (so the control structure of every function is exactly the one
    of the source), and is then read in exact real arithmetic ([R_PyNum]) for
    the statements that depend on the values computed, and in binary64
    ([Float_PyNum]) where rounding decides.  The operations of [PyNum] are
    total; the exceptions of Python's arithmetic are followed in the module
    [Checked], which evaluates the forward integrators in binary64 with
    them.  [scipy]'s [fsolve] is an external solver and is a parameter of
    every function that calls it.  A [while] loop takes fuel and returns
    [None] when the fuel runs out; plotting, printing and the CSV export are
    left out. *)

From Stdlib Require Import Reals Lra Lia List Sorted Bool Arith QArith Qreals.
From Stdlib Require Floats.
Import ListNotations.

(** ** The arithmetic of the notebooks *)

Declare Scope num_scope.
Delimit Scope num_scope with num.

Class PyNum (F : Type) : Type := {
  fadd : F -> F -> F;
  fsub : F -> F -> F;
  fmul : F -> F -> F;
  fdiv : F -> F -> F;
  fsqrt : F -> F;            (* np.sqrt *)
  fabs : F -> F;             (* abs *)
  fpow : F -> F -> F;        (* x ** y with a non-integer exponent *)
  flt : F -> F -> bool;      (* x < y : False when either side is NaN *)
  fle : F -> F -> bool;      (* x <= y *)
  fisnan : F -> bool;        (* np.isnan *)
  flit : Q -> F              (* a decimal literal of the source *)
}.

Infix "+" := fadd : num_scope.
Infix "-" := fsub : num_scope.
Infix "*" := fmul : num_scope.
Infix "/" := fdiv : num_scope.
Infix "<?" := flt : num_scope.
Infix "<=?" := fle : num_scope.
Notation "x >? y" := (flt y x) (only parsing) : num_scope.

(** [x ** 2] and [x ** 3]: integer powers are products. *)
Definition sqr {F} `{PyNum F} (x : F) : F := (x * x)%num.
Definition cube {F} `{PyNum F} (x : F) : F := (x * x * x)%num.

(** ** Python's [while] with [break]

    A loop body either falls through to the next test of the condition or
    leaves the loop by its [k]-th [break] statement.  The loop reports how it
    was left next to the final state; the notebooks' functions keep only the
    state. *)

Inductive flow (S : Type) : Type :=
| Continue (s : S)
| Break (k : nat) (s : S).
Arguments Continue {S} s.
Arguments Break {S} k s.

Inductive loop_exit : Type :=
| LoopCond              (* the [while] condition became false *)
| BreakAt (k : nat).    (* the [k]-th [break] of the body was taken *)

(** The variables a run through the body leaves behind. *)
Definition flow_state {S : Type} (f : flow S) : S :=
  match f with
  | Continue s => s
  | Break _ s => s
  end.

Fixpoint while {S : Type} (fuel : nat) (cond : S -> bool)
  (body : S -> flow S) (s : S) : option (loop_exit * S) :=
  match fuel with
  | O => None
  | Datatypes.S fuel' =>
      if cond s then
        match body s with
        | Continue s' => while fuel' cond body s'
        | Break k s' => Some (BreakAt k, s')
        end
      else Some (LoopCond, s)
  end.


(** ** Rectangular channel: the three functions shared by the rectangular
    notebooks (each notebook repeats them verbatim). *)

Module Rectangular.
Section Defs.
Context {F : Type} `{PyNum F}.
Local Open Scope num_scope.

Definition g : F := flit (981 # 100).

(** [(Q**2 / (g * b**2))**(1/3)] *)
Definition compute_critical_depth (Q b : F) : F :=
  fpow (sqr Q / (g * sqr b)) (flit 1 / flit 3).

(** [A = b*y; R = y; (n**2 * Q**2) / (A**2 * R**(4/3))] *)
Definition Sf (y Q b n : F) : F :=
  let A := b * y in
  let R := y in
  (sqr n * sqr Q) / (sqr A * fpow R (flit 4 / flit 3)).

(** [Q / (b * y * np.sqrt(g * y))] *)
Definition Fr (Q b y : F) : F :=
  Q / (b * y * fsqrt (g * y)).
End Defs.
End Rectangular.

(** The local variables of an integration loop: the position [x], the depth
    [y] and the two lists the samples are appended to. *)
Record vars (F : Type) : Type := mk_vars {
  x : F;
  y : F;
  x_vals : list F;
  y_vals : list F
}.
Arguments mk_vars {F}.
Arguments x {F}.
Arguments y {F}.
Arguments x_vals {F}.
Arguments y_vals {F}.

(** The test the guarded loops make on a new depth before appending it:
    [not (y <= 0 or np.isnan(y))]. *)
Definition depth_ok {F : Type} `{PyNum F} (v : F) : Prop :=
  (v <=? flit 0)%num || fisnan v = false.

(** Python's [l[0]] and [l[-1]]: [None] stands for the [IndexError] of an
    empty list. *)
Definition py_first {A : Type} (l : list A) : option A := nth_error l 0.

Definition py_last {A : Type} (l : list A) : option A :=
  nth_error l (length l - 1).

(** Each element of [l] after the first is [f] of the one before it. *)
Definition chained {A : Type} (f : A -> A) (l : list A) : Prop :=
  forall (i : nat) (a b : A),
    nth_error l i = Some a -> nth_error l (S i) = Some b -> b = f a.

(** ** [weir_flow_interactive.ipynb] *)

Module Interactive.

Inductive regime : Type := Subcritical | Supercritical | Critical.

(** The two options of the weir-type dropdown. *)
Inductive weir : Type := broad_crested | sharp_crested.

Record report (F : Type) : Type := mk_report {
  r_x_vals : list F;
  r_y_vals : list F;
  r_y_crit : F;
  r_y_normal : F;
  r_flow_type : regime;
  r_Q_weir : F
}.
Arguments mk_report {F}.
Arguments r_x_vals {F}.
Arguments r_y_vals {F}.
Arguments r_y_crit {F}.
Arguments r_y_normal {F}.
Arguments r_flow_type {F}.
Arguments r_Q_weir {F}.

Section Defs.
Context {F : Type} `{PyNum F}.
Variable fsolve : (F -> F) -> F -> F.
Local Open Scope num_scope.
Import Rectangular.

(** [func = lambda y: (1/n) * b * y**(5/3) * np.sqrt(S0) - Q] *)
Definition func (Q b n S0 : F) (y : F) : F :=
  (flit 1 / n) * b * fpow y (flit 5 / flit 3) * fsqrt S0 - Q.

Definition compute_normal_depth (Q b n S0 : F) : F :=
  let y_guess :=
    fpow (sqr Q / (g * sqr b)) (flit 1 / flit 3) * flit (15 # 10) in
  fsolve (func Q b n S0) y_guess.

Definition flow_classification (y y_crit : F) : regime :=
  if y >? y_crit then Subcritical
  else if y <? y_crit then Supercritical
  else Critical.

(** The loop of [plot_profile]: [while x < L: ...]. *)
Definition cond (L : F) (s : vars F) : bool := x s <? L.

Definition body (Q b n S0 dx : F) (s : vars F) : flow (vars F) :=
  let fr := Fr Q b (y s) in
  let denom := flit 1 - sqr fr in
  if fabs denom <? flit (1 # 1000000) then Break 1 s else
  let dy_dx := (S0 - Sf (y s) Q b n) / denom in
  let y' := y s + dy_dx * dx in
  let x' := x s + dx in
  Continue (mk_vars x' y' (x_vals s ++ [x']) (y_vals s ++ [y'])).

(** The loop of [plot_profile] from its initial variables, with the way
    it was left. *)
Definition loop (fuel : nat) (Q b n S0 L dx y_start : F)
  : option (loop_exit * vars F) :=
  while fuel (cond L) (body Q b n S0 dx)
    (mk_vars (flit 0) y_start [flit 0] [y_start]).

(** [plot_profile]: what it plots and prints. *)
Definition plot_profile (fuel : nat) (Q b n S0 L dx : F) (weir_type : weir)
  (weir_height C_b C_d : F) : option (report F) :=
  let y_crit := compute_critical_depth Q b in
  let y_normal := compute_normal_depth Q b n S0 in
  let y_start := y_crit * flit (105 # 100) in
  match loop fuel Q b n S0 L dx y_start with
  | None => None
  | Some (_, s) =>
      let Q_weir :=
        match weir_type with
        | broad_crested => C_b * b * fpow y_crit (flit (15 # 10))
        | sharp_crested =>
            (flit 2 / flit 3) * C_d * b * fsqrt (flit 2 * g)
            * fpow y_crit (flit (15 # 10))
        end in
      Some (mk_report (x_vals s) (y_vals s) y_crit y_normal
              (flow_classification y_start y_crit) Q_weir)
  end.

(** The depth after one step of the loop of [plot_profile]:
    [dy_dx = (S0 - Sf(y, Q, b, n)) / denom; y += dy_dx * dx]. *)
Definition next_depth (Q b n S0 dx y : F) : F :=
  y + (S0 - Sf y Q b n) / (flit 1 - sqr (Fr Q b y)) * dx.
End Defs.
End Interactive.

(** ** [weir_gvf_corrected_upstream.ipynb] *)

Module CorrectedUpstream.
Section Defs.
Context {F : Type} `{PyNum F}.
Local Open Scope num_scope.
Import Rectangular.

Definition cond (L : F) (s : vars F * list F) : bool := x (fst s) <? L.

(** [if abs(denom) < 1e-6: denom = 1e-6] *)
Definition guard_denom (denom : F) : F :=
  if fabs denom <? flit (1 # 1000000) then flit (1 # 1000000) else denom.

Definition body (Q b n S0 dx : F) (s : vars F * list F)
  : flow (vars F * list F) :=
  let '(v, fr_vals) := s in
  let fr := Fr Q b (y v) in
  let denom := flit 1 - sqr fr in
  let denom := guard_denom denom in
  let dydx := (S0 - Sf (y v) Q b n) / denom in
  let y' := y v + dydx * dx in
  let x' := x v + dx in
  if (y' <=? flit 0) || fisnan y' then
    Break 1 (mk_vars x' y' (x_vals v) (y_vals v), fr_vals)
  else Continue (mk_vars x' y' (x_vals v ++ [x']) (y_vals v ++ [y']),
                 fr_vals ++ [fr]).

Definition loop (fuel : nat) (Q b n S0 dx L y_start : F)
  : option (loop_exit * (vars F * list F)) :=
  while fuel (cond L) (body Q b n S0 dx)
    (mk_vars (flit 0) y_start [flit 0] [y_start], []).

(** Returns [x_vals, y_vals, y_crit, fr_vals]. *)
Definition compute_backwater_from_weir (fuel : nat) (Q b n S0 dx L : F)
  : option (list F * list F * F * list F) :=
  let y_crit := compute_critical_depth Q b in
  let y_start := y_crit * flit (101 # 100) in
  match loop fuel Q b n S0 dx L y_start with
  | None => None
  | Some (_, (v, fr_vals)) => Some (x_vals v, y_vals v, y_crit, fr_vals)
  end.

(** The depth after one step of the loop of [compute_backwater_from_weir]. *)
Definition next_depth (Q b n S0 dx y : F) : F :=
  y + (S0 - Sf y Q b n) / guard_denom (flit 1 - sqr (Fr Q b y)) * dx.

(** [plot_backwater_profile]: the curve it plots and the two depths it
    prints, [y_crit] and [y_vals[-1]]. *)
Definition plot_backwater_profile (fuel : nat) (Q b n S0 dx L : F)
  : option (list F * list F * F * option F) :=
  match compute_backwater_from_weir fuel Q b n S0 dx L with
  | None => None
  | Some (x_vals, y_vals, y_crit, _) =>
      Some (x_vals, y_vals, y_crit, py_last y_vals)
  end.
End Defs.
End CorrectedUpstream.

(** ** The trapezoidal notebook (with CSV export) *)

Module Trapezoidal.
Section Defs.
Context {F : Type} `{PyNum F}.
Variable fsolve : (F -> F) -> F -> F.
Local Open Scope num_scope.

Definition g : F := flit (981 # 100).

Definition area (b z y : F) : F := b * y + z * sqr y.

Definition perimeter (b z y : F) : F :=
  b + flit 2 * y * fpow (flit 1 + sqr z) (flit (5 # 10)).

Definition top_width (b z y : F) : F := b + flit 2 * z * y.

Definition hydraulic_radius (b z y : F) : F :=
  let A := area b z y in
  let P := perimeter b z y in
  A / P.

(** The residual [func] of [compute_critical_depth]. *)
Definition func (Q b z : F) (y : F) : F :=
  let A := area b z y in
  let T := top_width b z y in
  sqr Q * T - g * cube A.

Definition compute_critical_depth (Q b z : F) : F :=
  fsolve (func Q b z) (flit 1).

Definition Sf (Q b z y n : F) : F :=
  let A := area b z y in
  let R := hydraulic_radius b z y in
  (sqr n * sqr Q) / (sqr A * fpow R (flit 4 / flit 3)).

Definition Fr (Q b z y : F) : F :=
  let A := area b z y in
  let T := top_width b z y in
  Q / (A * fsqrt (g * A / T)).

Definition cond (L : F) (s : vars F) : bool := x s <? L.

Definition body (Q b z n S0 dx : F) (s : vars F) : flow (vars F) :=
  let fr := Fr Q b z (y s) in
  let denom := flit 1 - sqr fr in
  if fabs denom <? flit (1 # 1000000) then Break 1 s else
  let dydx := (S0 - Sf Q b z (y s) n) / denom in
  let y' := y s + dydx * dx in
  let x' := x s + dx in
  if (y' <=? flit 0) || fisnan y' then
    Break 2 (mk_vars x' y' (x_vals s) (y_vals s))
  else Continue (mk_vars x' y' (x_vals s ++ [x']) (y_vals s ++ [y'])).

Definition loop (fuel : nat) (Q b z n S0 dx L y_start : F)
  : option (loop_exit * vars F) :=
  while fuel (cond L) (body Q b z n S0 dx)
    (mk_vars (flit 0) y_start [flit 0] [y_start]).

(** Returns [x_vals, y_vals, y_crit] (and the path of the CSV file the two
    lists are written to, which is a constant). *)
Definition compute_gvf_profile (fuel : nat) (Q b z n S0 dx L : F)
  : option (list F * list F * F) :=
  let y_crit := compute_critical_depth Q b z in
  let y_start := y_crit * flit (101 # 100) in
  match loop fuel Q b z n S0 dx L y_start with
  | None => None
  | Some (_, s) => Some (x_vals s, y_vals s, y_crit)
  end.

(** The depth after one step of the loop of [compute_gvf_profile]. *)
Definition next_depth (Q b z n S0 dx y : F) : F :=
  y + (S0 - Sf Q b z y n) / (flit 1 - sqr (Fr Q b z y)) * dx.

(** [plot_gvf]: the curve it plots and the two depths it prints, [y_crit]
    and [y_vals[-1]]. *)
Definition plot_gvf (fuel : nat) (Q b z n S0 dx L : F)
  : option (list F * list F * F * option F) :=
  match compute_gvf_profile fuel Q b z n S0 dx L with
  | None => None
  | Some (x_vals, y_vals, y_crit) =>
      Some (x_vals, y_vals, y_crit, py_last y_vals)
  end.
End Defs.
End Trapezoidal.

(** ** The smooth-backwater notebook (backward integration) *)

Module SmoothBackwater.
Section Defs.
Context {F : Type} `{PyNum F}.
Variable fsolve : (F -> F) -> F -> F.
Local Open Scope num_scope.
Import Rectangular.

Definition manning_eq (Q b n S0 : F) (y : F) : F :=
  if y <=? flit 0 then flit (1000000 # 1) else
  let A := b * y in
  let R := y in
  (flit 1 / n) * A * fpow R (flit 2 / flit 3) * fsqrt S0 - Q.

Definition compute_normal_depth (Q b n S0 : F) : F :=
  let y_crit := compute_critical_depth Q b in
  let y_guess := y_crit * flit (15 # 10) in
  fsolve (manning_eq Q b n S0) y_guess.

(** [while y > y_stop and x > -1000: ...] *)
Definition cond (y_stop : F) (s : vars F) : bool :=
  (y s >? y_stop) && (x s >? flit (-1000 # 1)).

Definition body (Q b n S0 dx : F) (s : vars F) : flow (vars F) :=
  let fr := Fr Q b (y s) in
  let denom := flit 1 - sqr fr in
  if fabs denom <? flit (1 # 1000000) then Break 1 s else
  let dydx := (S0 - Sf (y s) Q b n) / denom in
  let y' := y s - dydx * dx in
  let x' := x s - dx in
  if (y' <=? flit 0) || fisnan y' then
    Break 2 (mk_vars x' y' (x_vals s) (y_vals s))
  else Continue (mk_vars x' y' (x_vals s ++ [x']) (y_vals s ++ [y'])).

(** The loop of [compute_gvf_backwater], with the way it was left. *)
Definition loop (fuel : nat) (Q b n S0 y_end y_stop dx : F)
  : option (loop_exit * vars F) :=
  while fuel (cond y_stop) (body Q b n S0 dx)
    (mk_vars (flit 0) y_end [flit 0] [y_end]).

(** Returns [x_vals[::-1], y_vals[::-1]]. *)
Definition compute_gvf_backwater (fuel : nat) (Q b n S0 y_end y_stop dx : F)
  : option (list F * list F) :=
  match loop fuel Q b n S0 y_end y_stop dx with
  | None => None
  | Some (_, s) => Some (rev (x_vals s), rev (y_vals s))
  end.

(** [plot_smooth_backwater]: the curve it plots and the two depths it
    prints.  [L] is a slider of the user interface. *)
Definition plot_smooth_backwater (fuel : nat) (Q b n S0 dx L : F)
  : option (list F * list F * F * F) :=
  let y_crit := compute_critical_depth Q b in
  let y_normal := compute_normal_depth Q b n S0 in
  match compute_gvf_backwater fuel Q b n S0 y_normal y_crit dx with
  | None => None
  | Some (x_vals, y_vals) => Some (x_vals, y_vals, y_crit, y_normal)
  end.

(** The depth after one step of the loop of [compute_gvf_backwater]:
    [y -= dydx * dx]. *)
Definition next_depth (Q b n S0 dx y : F) : F :=
  y - (S0 - Sf y Q b n) / (flit 1 - sqr (Fr Q b y)) * dx.

End Defs.
End SmoothBackwater.

(** ** Exact real arithmetic *)

Definition R_ltb (x y : R) : bool := if Rlt_dec x y then true else false.
Definition R_leb (x y : R) : bool := if Rle_dec x y then true else false.

(** [x ** y] on the reals: [0 ** y = 0] for the positive exponents of the
    code; a negative base has no real power (NumPy gives NaN), and no
    statement below depends on the value chosen there.  The same holds for
    the values Rocq gives to a division by zero and to the square root of a
    negative number: the runs that are evaluated below stay on positive
    depths, and the other statements are about positions, lengths and the
    way a loop is left. *)
Definition R_pow (x y : R) : R :=
  if Rlt_dec 0 x then Rpower x y else 0%R.

#[export] Instance R_PyNum : PyNum R := {|
  fadd := Rplus;
  fsub := Rminus;
  fmul := Rmult;
  fdiv := Rdiv;
  fsqrt := sqrt;
  fabs := Rabs;
  fpow := R_pow;
  flt := R_ltb;
  fle := R_leb;
  fisnan := fun _ => false;
  flit := Q2R
|}.

(** ** IEEE binary64 arithmetic

    The numbers the notebooks really compute with.  [+], [-], [*], [/],
    [sqrt], [abs] and the comparisons are the primitive binary64 operations;
    a literal is the correctly rounded quotient of its numerator and
    denominator, which is the double Python reads it as; [**] with a
    non-integer exponent is the C library's [pow], a parameter. *)

Definition float_of_Z (z : Z) : PrimFloat.float :=
  match z with
  | Zneg p => PrimFloat.opp (PrimFloat.of_uint63 (Uint63.of_Z (Zpos p)))
  | _ => PrimFloat.of_uint63 (Uint63.of_Z z)
  end.

Definition float_lit (q : Q) : PrimFloat.float :=
  PrimFloat.div (float_of_Z (Qnum q)) (float_of_Z (Zpos (Qden q))).

Definition Float_PyNum
  (libm_pow : PrimFloat.float -> PrimFloat.float -> PrimFloat.float)
  : PyNum PrimFloat.float := {|
  fadd := PrimFloat.add;
  fsub := PrimFloat.sub;
  fmul := PrimFloat.mul;
  fdiv := PrimFloat.div;
  fsqrt := PrimFloat.sqrt;
  fabs := PrimFloat.abs;
  fpow := libm_pow;
  flt := PrimFloat.ltb;
  fle := PrimFloat.leb;
  fisnan := PrimFloat.is_nan;
  flit := float_lit
|}.

(** ** Python's arithmetic exceptions

    The interface [PyNum] has total operations.  Python's are not: dividing
    a [float] by zero raises [ZeroDivisionError], and [**] on [float]s
    raises [OverflowError] when the result overflows.  NumPy's [float64]
    does neither (it returns an infinity or a NaN, with a warning), and an
    operation with a [float64] operand is NumPy's and gives a [float64].
    The module [Checked] evaluates the forward integrators in binary64 with
    both kinds of number and with the exceptions; [x ** 2] is evaluated
    there as Python does, by [float_pow] and the C library.  Every argument
    of a call is a Python [float] (what a [FloatSlider] gives). *)

Module Checked.

Inductive exn : Type := ZeroDivisionError | OverflowError.

(** What evaluating an expression gives: a value, an exception, or a
    complex number (a negative [float] to a non-integer power), which is
    not followed further. *)
Inductive result (A : Type) : Type :=
| Ok (a : A)
| Raise (e : exn)
| ComplexValue.
Arguments Ok {A} a.
Arguments Raise {A} e.
Arguments ComplexValue {A}.

Definition bind {A B : Type} (r : result A) (k : A -> result B)
  : result B :=
  match r with
  | Ok a => k a
  | Raise e => Raise e
  | ComplexValue => ComplexValue
  end.

Notation "x <- r ;; k" := (bind r (fun x => k))
  (at level 61, r at next level, right associativity).

(** Python's [float] (an [int] counts as one here) and NumPy's
    [float64]. *)
Inductive kind : Type := PyFloat | NpFloat64.

Record num : Type := mk_num { kind_of : kind; val : PrimFloat.float }.

Definition py (f : PrimFloat.float) : num := mk_num PyFloat f.
Definition np (f : PrimFloat.float) : num := mk_num NpFloat64 f.

(** The kind of the result of a binary operation. *)
Definition join (k1 k2 : kind) : kind :=
  match k1, k2 with
  | PyFloat, PyFloat => PyFloat
  | _, _ => NpFloat64
  end.

Definition lit (q : Q) : num := py (float_lit q).

Definition add (a b : num) : num :=
  mk_num (join (kind_of a) (kind_of b)) (PrimFloat.add (val a) (val b)).
Definition sub (a b : num) : num :=
  mk_num (join (kind_of a) (kind_of b)) (PrimFloat.sub (val a) (val b)).
Definition mul (a b : num) : num :=
  mk_num (join (kind_of a) (kind_of b)) (PrimFloat.mul (val a) (val b)).

(** [a / b]: [float_div] raises when [b == 0.0]; NumPy divides. *)
Definition div (a b : num) : result num :=
  match join (kind_of a) (kind_of b) with
  | PyFloat =>
      if PrimFloat.eqb (val b) (float_lit 0) then Raise ZeroDivisionError
      else Ok (py (PrimFloat.div (val a) (val b)))
  | NpFloat64 => Ok (np (PrimFloat.div (val a) (val b)))
  end.

(** [np.sqrt] returns a [float64]. *)
Definition np_sqrt (a : num) : num := np (PrimFloat.sqrt (val a)).
Definition abs (a : num) : num :=
  mk_num (kind_of a) (PrimFloat.abs (val a)).
Definition ltb (a b : num) : bool := PrimFloat.ltb (val a) (val b).
Definition leb (a b : num) : bool := PrimFloat.leb (val a) (val b).
Definition isnan (a : num) : bool := PrimFloat.is_nan (val a).

(** [w] is an integer, [w] is an odd integer ([w != floor(w)] and
    [fmod(fabs(w), 2.0) == 1.0] in C), for a finite [w]: below [2**52] a
    double is an integer when adding and subtracting [2**52] gives it
    back, and from [2**52] on every double is one. *)
Definition two52 : PrimFloat.float := float_lit (4503599627370496 # 1).

Definition is_integer (w : PrimFloat.float) : bool :=
  let a := PrimFloat.abs w in
  if PrimFloat.ltb a two52
  then PrimFloat.eqb (PrimFloat.sub (PrimFloat.add a two52) two52) a
  else true.

Definition is_odd_integer (w : PrimFloat.float) : bool :=
  let a := PrimFloat.abs w in
  is_integer a && negb (is_integer (PrimFloat.div a (float_lit 2))).

Section Pow.
(** The C library's [pow]. *)
Variable libm_pow : PrimFloat.float -> PrimFloat.float -> PrimFloat.float.

(** The call of [pow] at the end of CPython's [float_pow]: a result that
    is infinite is a range error, which becomes [OverflowError]; a range
    error of a result that is zero is dropped there.  The C library is taken
    to report no other error for a positive finite base (so glibc does). *)
Definition libm_pow_checked (negate : bool) (iv iw : PrimFloat.float)
  : result PrimFloat.float :=
  if PrimFloat.eqb iv (float_lit 1)
  then Ok (if negate then float_lit (-1 # 1) else float_lit 1)
  else
    let ix := libm_pow iv iw in
    if PrimFloat.is_infinity ix then Raise OverflowError
    else Ok (if negate then PrimFloat.opp ix else ix).

(** CPython's [float_pow], case by case in its order. *)
Definition float_pow (iv iw : PrimFloat.float) : result PrimFloat.float :=
  if PrimFloat.eqb iw (float_lit 0) then Ok (float_lit 1)
  else if PrimFloat.is_nan iv then Ok iv
  else if PrimFloat.is_nan iw
  then Ok (if PrimFloat.eqb iv (float_lit 1) then float_lit 1 else iw)
  else if PrimFloat.is_infinity iw then
    let a := PrimFloat.abs iv in
    if PrimFloat.eqb a (float_lit 1) then Ok (float_lit 1)
    else if Bool.eqb (PrimFloat.ltb (float_lit 0) iw)
              (PrimFloat.ltb (float_lit 1) a)
    then Ok (PrimFloat.abs iw)
    else Ok (float_lit 0)
  else if PrimFloat.is_infinity iv then
    let odd := is_odd_integer iw in
    if PrimFloat.ltb (float_lit 0) iw
    then Ok (if odd then iv else PrimFloat.abs iv)
    else Ok (if odd && PrimFloat.ltb iv (float_lit 0)
             then PrimFloat.opp (float_lit 0) else float_lit 0)
  else if PrimFloat.eqb iv (float_lit 0) then
    if PrimFloat.ltb iw (float_lit 0) then Raise ZeroDivisionError
    else Ok (if is_odd_integer iw then iv else float_lit 0)
  else if PrimFloat.ltb iv (float_lit 0) then
    if is_integer iw
    then libm_pow_checked (is_odd_integer iw) (PrimFloat.opp iv) iw
    else ComplexValue
  else libm_pow_checked false iv iw.

(** [a ** w]: [float_pow] on two [float]s, the C library's [pow] when a
    [float64] is involved. *)
Definition pow (a w : num) : result num :=
  match join (kind_of a) (kind_of w) with
  | PyFloat => f <- float_pow (val a) (val w) ;; Ok (py f)
  | NpFloat64 => Ok (np (libm_pow (val a) (val w)))
  end.

Definition g : num := lit (981 # 100).

(** [(Q**2 / (g * b**2))**(1/3)] *)
Definition compute_critical_depth (Q b : num) : result num :=
  q2 <- pow Q (lit 2) ;;
  b2 <- pow b (lit 2) ;;
  r <- div q2 (mul g b2) ;;
  third <- div (lit 1) (lit 3) ;;
  pow r third.

(** [A = b*y; R = y; (n**2 * Q**2) / (A**2 * R**(4/3))] *)
Definition Sf (y Q b n : num) : result num :=
  let A := mul b y in
  let R := y in
  n2 <- pow n (lit 2) ;;
  q2 <- pow Q (lit 2) ;;
  a2 <- pow A (lit 2) ;;
  e <- div (lit 4) (lit 3) ;;
  r43 <- pow R e ;;
  div (mul n2 q2) (mul a2 r43).

(** [Q / (b * y * np.sqrt(g * y))] *)
Definition Fr (Q b y : num) : result num :=
  div Q (mul (mul b y) (np_sqrt (mul g y))).

(** Python's [while], the body of which may raise. *)
Fixpoint while {S : Type} (fuel : nat) (cond : S -> bool)
  (body : S -> result (flow S)) (s : S)
  : result (option (loop_exit * S)) :=
  match fuel with
  | O => Ok None
  | Datatypes.S fuel' =>
      if cond s then
        f <- body s ;;
        match f with
        | Continue s' => while fuel' cond body s'
        | Break k s' => Ok (Some (BreakAt k, s'))
        end
      else Ok (Some (LoopCond, s))
  end.

(** The loop of [plot_profile]. *)
Definition interactive_body (Q b n S0 dx : num) (s : vars num)
  : result (flow (vars num)) :=
  fr <- Fr Q b (y s) ;;
  f2 <- pow fr (lit 2) ;;
  let denom := sub (lit 1) f2 in
  if ltb (abs denom) (lit (1 # 1000000)) then Ok (Break 1 s) else
  sf <- Sf (y s) Q b n ;;
  dy_dx <- div (sub S0 sf) denom ;;
  let y' := add (y s) (mul dy_dx dx) in
  let x' := add (x s) dx in
  Ok (Continue (mk_vars x' y' (x_vals s ++ [x']) (y_vals s ++ [y']))).

(** [plot_profile] up to the end of its loop: the critical depth, the
    normal depth (the outcome [normal_depth] of the call of
    [compute_normal_depth], which runs the solver), the start and the
    loop. *)
Definition plot_profile_loop (normal_depth : result num) (fuel : nat)
  (Q b n S0 L dx : num) : result (option (loop_exit * vars num)) :=
  y_crit <- compute_critical_depth Q b ;;
  y_normal <- normal_depth ;;
  let y_start := mul y_crit (lit (105 # 100)) in
  while fuel (fun s => ltb (x s) L) (interactive_body Q b n S0 dx)
    (mk_vars (lit 0) y_start [lit 0] [y_start]).

(** [if abs(denom) < 1e-6: denom = 1e-6]: the new value is a [float]. *)
Definition guard_denom (denom : num) : num :=
  if ltb (abs denom) (lit (1 # 1000000)) then lit (1 # 1000000) else denom.

(** The loop of [compute_backwater_from_weir]. *)
Definition corrected_body (Q b n S0 dx : num) (s : vars num * list num)
  : result (flow (vars num * list num)) :=
  let '(v, fr_vals) := s in
  fr <- Fr Q b (y v) ;;
  f2 <- pow fr (lit 2) ;;
  let denom := sub (lit 1) f2 in
  let denom := guard_denom denom in
  sf <- Sf (y v) Q b n ;;
  dydx <- div (sub S0 sf) denom ;;
  let y' := add (y v) (mul dydx dx) in
  let x' := add (x v) dx in
  if leb y' (lit 0) || isnan y' then
    Ok (Break 1 (mk_vars x' y' (x_vals v) (y_vals v), fr_vals))
  else Ok (Continue (mk_vars x' y' (x_vals v ++ [x']) (y_vals v ++ [y']),
                     fr_vals ++ [fr])).

Definition compute_backwater_from_weir (fuel : nat) (Q b n S0 dx L : num)
  : result (option (list num * list num * num * list num)) :=
  y_crit <- compute_critical_depth Q b ;;
  let y_start := mul y_crit (lit (101 # 100)) in
  r <- while fuel (fun s => ltb (x (fst s)) L) (corrected_body Q b n S0 dx)
         (mk_vars (lit 0) y_start [lit 0] [y_start], []) ;;
  Ok (option_map
        (fun '(_, (v, fr_vals)) => (x_vals v, y_vals v, y_crit, fr_vals)) r).

(** The trapezoidal notebook: [area], [perimeter], [top_width],
    [hydraulic_radius], [Sf] and [Fr]. *)
Definition area (b z y : num) : result num :=
  y2 <- pow y (lit 2) ;;
  Ok (add (mul b y) (mul z y2)).

Definition perimeter (b z y : num) : result num :=
  z2 <- pow z (lit 2) ;;
  r <- pow (add (lit 1) z2) (lit (5 # 10)) ;;
  Ok (add b (mul (mul (lit 2) y) r)).

Definition top_width (b z y : num) : num :=
  add b (mul (mul (lit 2) z) y).

Definition hydraulic_radius (b z y : num) : result num :=
  A <- area b z y ;;
  P <- perimeter b z y ;;
  div A P.

Definition trapezoidal_Sf (Q b z y n : num) : result num :=
  A <- area b z y ;;
  R <- hydraulic_radius b z y ;;
  n2 <- pow n (lit 2) ;;
  q2 <- pow Q (lit 2) ;;
  a2 <- pow A (lit 2) ;;
  e <- div (lit 4) (lit 3) ;;
  r43 <- pow R e ;;
  div (mul n2 q2) (mul a2 r43).

Definition trapezoidal_Fr (Q b z y : num) : result num :=
  A <- area b z y ;;
  let T := top_width b z y in
  q <- div (mul g A) T ;;
  div Q (mul A (np_sqrt q)).

(** What the evaluation of the trapezoidal [Sf] needs of the parameters:
    [z**2], [(1 + z**2)**0.5], [n**2] and [Q**2] return. *)
Definition powers_return (Q z n : num) : Prop :=
  exists z2 r n2 q2,
    pow z (lit 2) = Ok z2
    /\ pow (add (lit 1) z2) (lit (5 # 10)) = Ok r
    /\ pow n (lit 2) = Ok n2
    /\ pow Q (lit 2) = Ok q2.

(** The loop of [compute_gvf_profile]. *)
Definition trapezoidal_body (Q b z n S0 dx : num) (s : vars num)
  : result (flow (vars num)) :=
  fr <- trapezoidal_Fr Q b z (y s) ;;
  f2 <- pow fr (lit 2) ;;
  let denom := sub (lit 1) f2 in
  if ltb (abs denom) (lit (1 # 1000000)) then Ok (Break 1 s) else
  sf <- trapezoidal_Sf Q b z (y s) n ;;
  dydx <- div (sub S0 sf) denom ;;
  let y' := add (y s) (mul dydx dx) in
  let x' := add (x s) dx in
  if leb y' (lit 0) || isnan y' then
    Ok (Break 2 (mk_vars x' y' (x_vals s) (y_vals s)))
  else Ok (Continue (mk_vars x' y' (x_vals s ++ [x']) (y_vals s ++ [y']))).

(** [compute_gvf_profile] up to the end of its loop.  The critical depth
    is the [float64] that the call of the solver, whose outcome is
    [critical_depth], returns. *)
Definition compute_gvf_profile_loop (critical_depth : result PrimFloat.float)
  (fuel : nat) (Q b z n S0 dx L : num)
  : result (option (loop_exit * vars num)) :=
  yc <- critical_depth ;;
  let y_crit := np yc in
  let y_start := mul y_crit (lit (101 # 100)) in
  while fuel (fun s => ltb (x s) L) (trapezoidal_body Q b z n S0 dx)
    (mk_vars (lit 0) y_start [lit 0] [y_start]).
End Pow.
End Checked.

(** The positions [0, step, 2*step, ..., m*step] of a march with a fixed
    step. *)
Definition grid (step : R) (m : nat) : list R :=
  map (fun k => (INR k * step)%R) (seq 0 (S m)).

(** Unfold the interface at the real instance. *)
Ltac to_R :=
  cbv [fadd fsub fmul fdiv fsqrt fabs fpow flt fle fisnan flit R_PyNum
       sqr cube Rectangular.g Trapezoidal.g] in *.

Ltac lits := cbv [Q2R Qnum Qden] in *; simpl IZR in *.

(** Case analysis of a loop body: one case per path through it. *)
Ltac body_cases H :=
  match type of H with
  | context [if ?c then _ else _] =>
      let E := fresh "E" in destruct c eqn:E; body_cases H
  | _ =>
      inversion H; clear H;
      repeat match goal with
        | Heq : _ = ?v |- _ =>
            is_var v;
            match type of v with
            | vars _ => subst v
            | (vars _ * _)%type => subst v
            end
        end
  end.

(** ** Facts of the comparisons *)

Lemma R_ltb_true (x y : R) : R_ltb x y = true <-> (x < y)%R.
Proof. unfold R_ltb. destruct (Rlt_dec x y); split; intros; try easy. Qed.

Lemma R_ltb_false (x y : R) : R_ltb x y = false <-> (y <= x)%R.
Proof.
  unfold R_ltb. destruct (Rlt_dec x y); split; intros; try easy; lra.
Qed.

Lemma R_leb_true (x y : R) : R_leb x y = true <-> (x <= y)%R.
Proof. unfold R_leb. destruct (Rle_dec x y); split; intros; try easy. Qed.

Lemma R_leb_false (x y : R) : R_leb x y = false <-> (y < x)%R.
Proof.
  unfold R_leb. destruct (Rle_dec x y); split; intros; try easy; lra.
Qed.

(** *** Cube roots and other powers *)

Lemma R_pow_pos (x y : R) : (0 < x)%R -> (0 < R_pow x y)%R.
Proof.
  intros Hx. unfold R_pow. destruct (Rlt_dec 0 x); [|lra].
  unfold Rpower. apply exp_pos.
Qed.

Lemma third_eq : (Q2R 1 / Q2R 3 = / 3)%R.
Proof. lits. lra. Qed.

(** The cube root of a cube. *)
Lemma R_pow_third_cube (a : R) :
  (0 < a)%R -> R_pow (a * a * a) (/ 3) = a.
Proof.
  intros Ha.
  assert (Hc : (0 < a * a * a)%R) by (repeat apply Rmult_lt_0_compat; lra).
  unfold R_pow. destruct (Rlt_dec 0 (a * a * a)); [|lra].
  replace (a * a * a)%R with (Rpower a 3).
  - rewrite Rpower_mult. replace (3 * / 3)%R with 1%R by lra.
    apply Rpower_1; lra.
  - replace 3%R with (INR 3) by (simpl; lra).
    rewrite Rpower_pow by lra. simpl. lra.
Qed.

Lemma R_pow_third_mono (u v : R) :
  (0 < u < v)%R -> (R_pow u (/ 3) < R_pow v (/ 3))%R.
Proof.
  intros [Hu Huv]. unfold R_pow.
  destruct (Rlt_dec 0 u); [|lra]. destruct (Rlt_dec 0 v); [|lra].
  apply Rlt_Rpower_l; lra.
Qed.

(** Bracketing a cube root between two rationals. *)
Lemma R_pow_third_between (lo hi v : R) :
  (0 < lo)%R -> (lo * lo * lo < v)%R -> (v < hi * hi * hi)%R -> (0 < hi)%R ->
  (lo < R_pow v (/ 3) < hi)%R.
Proof.
  intros Hlo Hl Hh Hhi.
  assert (Hc : (0 < lo * lo * lo)%R) by (repeat apply Rmult_lt_0_compat; lra).
  split.
  - rewrite <- (R_pow_third_cube lo Hlo) at 1.
    apply R_pow_third_mono; lra.
  - rewrite <- (R_pow_third_cube hi Hhi).
    apply R_pow_third_mono; lra.
Qed.

(** The closed form at [Q = 10], [b = 3], bracketed. *)
Lemma critical_depth_10_3_bounds :
  (1.0420 < Rectangular.compute_critical_depth (Q2R 10) (Q2R 3) < 1.0428)%R.
Proof.
  unfold Rectangular.compute_critical_depth. to_R.
  rewrite third_eq. lits.
  apply R_pow_third_between; lra.
Qed.

(** C9 (as the code computes it).  For [Q = 10], [b = 3] the closed form
    [(Q**2 / (g * b**2))**(1/3)] of the rectangular notebooks is within
    [0.001] of [1.0424]: the critical depth is about 1.042 m. *)
Theorem critical_depth_10_3 :
  (Rabs (Rectangular.compute_critical_depth (Q2R 10) (Q2R 3)
         - Q2R (10424 # 10000)) < Q2R (1 # 1000))%R.
Proof.
  pose proof critical_depth_10_3_bounds as Hb.
  lits. apply Rabs_def1; lra.
Qed.

(** C9 (as stated) fails: the computed depth is farther than [0.01] from
    [1.022]. *)
Lemma critical_depth_10_3_not_1022 :
  ~ (Rabs (Rectangular.compute_critical_depth (Q2R 10) (Q2R 3)
           - Q2R (1022 # 1000)) <= Q2R (1 # 100))%R.
Proof.
  intros Hc. pose proof critical_depth_10_3_bounds as Hb.
  unfold Rabs in Hc. lits.
  destruct (Rcase_abs _) in Hc; lra.
Qed.

(** ** Reasoning about [while] *)

Section WhileFacts.
Context {S : Type} (cond : S -> bool) (body : S -> flow S).

(** More fuel does not change a result. *)
Lemma while_fuel_mono (n m : nat) (s : S) (r : loop_exit * S) :
  while n cond body s = Some r -> (n <= m)%nat ->
  while m cond body s = Some r.
Proof.
  revert m s. induction n as [|n IH]; intros m s Hr Hle; [discriminate|].
  destruct m as [|m]; [lia|]. simpl in *.
  destruct (cond s); [|exact Hr].
  destruct (body s) as [s'|k s']; [|exact Hr].
  apply IH; [exact Hr|lia].
Qed.

Lemma while_deterministic (n m : nat) (s : S) (r r' : loop_exit * S) :
  while n cond body s = Some r -> while m cond body s = Some r' -> r = r'.
Proof.
  intros Hn Hm.
  apply while_fuel_mono with (m := Nat.max n m) in Hn; [|lia].
  apply while_fuel_mono with (m := Nat.max n m) in Hm; [|lia].
  congruence.
Qed.

(** The invariant rule: [I] holds whenever the condition is tested. *)
Lemma while_inv (I : S -> Prop) (P : loop_exit -> S -> Prop) :
  (forall s s', I s -> cond s = true -> body s = Continue s' -> I s') ->
  (forall s, I s -> cond s = false -> P LoopCond s) ->
  (forall s k s', I s -> cond s = true -> body s = Break k s' ->
                  P (BreakAt k) s') ->
  forall fuel s e s',
    I s -> while fuel cond body s = Some (e, s') -> P e s'.
Proof.
  intros Hstep Hexit Hbreak fuel.
  induction fuel as [|fuel IH]; intros s e s' Hs Hr; [discriminate|].
  simpl in Hr. destruct (cond s) eqn:Hc.
  - destruct (body s) as [s1|k s1] eqn:Hb.
    + eapply IH; [|exact Hr]. eapply Hstep; eauto.
    + inversion Hr; subst. eapply Hbreak; eauto.
  - inversion Hr; subst. apply Hexit; assumption.
Qed.

(** A loop that advances a real position by [dx > 0] each time round, and
    runs only while the position is below [L], goes round at most [N]
    times whenever [L <= pos + N * dx]. *)
Lemma while_bounded (pos : S -> R) (size : S -> nat) (dx L : R) :
  (0 < dx)%R ->
  (forall s, cond s = true -> (pos s < L)%R) ->
  (forall s s', cond s = true -> body s = Continue s' ->
                pos s' = (pos s + dx)%R /\ size s' = Datatypes.S (size s)) ->
  (forall s k s', cond s = true -> body s = Break k s' ->
                  size s' = size s) ->
  forall (N : nat) (s : S),
    (L <= pos s + INR N * dx)%R ->
    exists e s', while (Datatypes.S N) cond body s = Some (e, s')
                 /\ (size s' <= size s + N)%nat.
Proof.
  intros Hdx Hc Hcont Hbrk N.
  induction N as [|N IH]; intros s HL.
  - simpl. destruct (cond s) eqn:Hcs.
    + apply Hc in Hcs. simpl in HL. lra.
    + exists LoopCond, s. split; [reflexivity|lia].
  - cbn [while]. destruct (cond s) eqn:Hcs.
    + destruct (body s) as [s1|k s1] eqn:Hb.
      * destruct (Hcont s s1 Hcs Hb) as [Hp Hsz].
        destruct (IH s1) as (e & s' & Hw & Hle).
        { rewrite Hp. rewrite S_INR in HL. lra. }
        exists e, s'. split; [exact Hw|lia].
      * exists (BreakAt k), s1. split; [reflexivity|].
        rewrite (Hbrk s k s1 Hcs Hb). lia.
    + exists LoopCond, s. split; [reflexivity|lia].
Qed.
End WhileFacts.

(** Two bodies that agree pointwise run the same loop. *)
Lemma while_ext {S : Type} (cond : S -> bool) (body1 body2 : S -> flow S) :
  (forall s, body1 s = body2 s) ->
  forall fuel s, while fuel cond body1 s = while fuel cond body2 s.
Proof.
  intros Hb fuel. induction fuel as [|fuel IH]; intros s; [reflexivity|].
  simpl. rewrite Hb. destruct (cond s); [|reflexivity].
  destruct (body2 s); [apply IH|reflexivity].
Qed.

(** ** Facts of the real instance *)

Local Open Scope R_scope.

Lemma Q2R_zero : Q2R 0 = 0.
Proof. lits. lra. Qed.

Lemma Q2R_one : Q2R 1 = 1.
Proof. lits. lra. Qed.

Lemma R_ltb_lt (u v : R) : u < v -> R_ltb u v = true.
Proof. apply R_ltb_true. Qed.

Lemma R_ltb_ge (u v : R) : v <= u -> R_ltb u v = false.
Proof. apply R_ltb_false. Qed.

Lemma R_leb_le (u v : R) : u <= v -> R_leb u v = true.
Proof. apply R_leb_true. Qed.

Lemma R_leb_gt (u v : R) : v < u -> R_leb u v = false.
Proof. apply R_leb_false. Qed.

Lemma four_thirds_eq : Q2R 4 / Q2R 3 = 1 + / 3.
Proof. lits. lra. Qed.

Lemma R_pow_four_thirds (u : R) :
  0 < u -> R_pow u (1 + / 3) = u * R_pow u (/ 3).
Proof.
  intros Hu. unfold R_pow. destruct (Rlt_dec 0 u); [|lra].
  rewrite Rpower_plus, Rpower_1 by lra. reflexivity.
Qed.

Lemma R_pow_ge_1 (u a : R) : 1 <= u -> 0 <= a -> 1 <= R_pow u a.
Proof.
  intros Hu Ha. unfold R_pow. destruct (Rlt_dec 0 u); [|lra].
  rewrite <- (Rpower_O u) by lra. apply Rle_Rpower; lra.
Qed.

Lemma R_pow_lt_1 (u a : R) : 0 < u < 1 -> 0 < a -> R_pow u a < 1.
Proof.
  intros [Hu Hu1] Ha. unfold R_pow. destruct (Rlt_dec 0 u); [|lra].
  unfold Rpower. rewrite <- exp_0. apply exp_increasing.
  assert (Hl : ln u < 0) by (rewrite <- ln_1; apply ln_increasing; lra).
  nra.
Qed.

(** The square of the Froude number of the rectangular notebooks is
    [Q**2 / (g * b**2 * y**3)]. *)
Lemma Fr_sqr_R (Q b y : R) :
  0 < y -> b <> 0 ->
  sqr (Rectangular.Fr Q b y)
  = Q * Q / (981 * / 100 * (b * b) * (y * y * y)).
Proof.
  intros Hy Hb. unfold Rectangular.Fr. to_R. lits.
  assert (Hg : 0 < 981 * / 100 * y) by nra.
  pose proof (sqrt_lt_R0 _ Hg) as Hs.
  pose proof (sqrt_sqrt (981 * / 100 * y) (Rlt_le _ _ Hg)) as Hss.
  set (r := sqrt (981 * / 100 * y)) in *.
  assert (Hy3 : 0 < y * y * y) by (repeat apply Rmult_lt_0_compat; lra).
  replace (981 * / 100 * (b * b) * (y * y * y))
    with ((b * y * r) * (b * y * r)).
  - field. repeat split; lra.
  - replace (b * y * r * (b * y * r)) with (b * b * (y * y) * (r * r)) by ring.
    rewrite Hss. field.
Qed.

Lemma area_sq_pos (b y : R) : 0 < y -> b <> 0 -> 0 < b * y * (b * y).
Proof.
  intros Hy Hb. apply (Rsqr_pos_lt (b * y)).
  apply Rmult_integral_contrapositive. split; lra.
Qed.

(** The friction slope with the power written out. *)
Lemma Sf_R (y Q b n : R) :
  Rectangular.Sf y Q b n
  = n * n * (Q * Q) / (b * y * (b * y) * R_pow y (1 + / 3)).
Proof. unfold Rectangular.Sf. to_R. rewrite four_thirds_eq. reflexivity. Qed.

Lemma Sf_nonneg (y Q b n : R) :
  0 < y -> b <> 0 -> 0 <= Rectangular.Sf y Q b n.
Proof.
  intros Hy Hb. rewrite Sf_R.
  pose proof (R_pow_pos y (1 + / 3) Hy) as Hp.
  pose proof (area_sq_pos b y ltac:(lra) Hb) as H1.
  apply Rmult_le_pos; [nra|].
  apply Rlt_le, Rinv_0_lt_compat. nra.
Qed.

(** For a depth of at least one the friction slope is at most
    [n**2 * Q**2 / A**2]. *)
Lemma Sf_le_deep (y Q b n : R) :
  1 <= y -> b <> 0 ->
  Rectangular.Sf y Q b n <= n * n * (Q * Q) / (b * y * (b * y)).
Proof.
  intros Hy Hb. rewrite Sf_R.
  assert (Hp : 1 <= R_pow y (1 + / 3)) by (apply R_pow_ge_1; lra).
  pose proof (area_sq_pos b y ltac:(lra) Hb) as H1.
  unfold Rdiv. apply Rmult_le_compat_l; [nra|].
  apply Rinv_le_contravar; nra.
Qed.

(** For a depth below one it is at least that. *)
Lemma Sf_ge_shallow (y Q b n : R) :
  0 < y < 1 -> b <> 0 ->
  n * n * (Q * Q) / (b * y * (b * y)) <= Rectangular.Sf y Q b n.
Proof.
  intros Hy Hb. rewrite Sf_R.
  assert (Hp : R_pow y (1 + / 3) < 1) by (apply R_pow_lt_1; lra).
  pose proof (R_pow_pos y (1 + / 3) (proj1 Hy)) as Hp0.
  pose proof (area_sq_pos b y ltac:(lra) Hb) as H1.
  unfold Rdiv. apply Rmult_le_compat_l; [nra|].
  apply Rinv_le_contravar; nra.
Qed.

(** The guard of [compute_backwater_from_weir] on the reals. *)
Lemma guard_denom_R (d : R) :
  CorrectedUpstream.guard_denom d
  = if Rlt_dec (Rabs d) (/ 1000000) then / 1000000 else d.
Proof.
  unfold CorrectedUpstream.guard_denom. to_R. unfold R_ltb. lits.
  replace (1 * / 1000000) with (/ 1000000) by lra.
  destruct (Rlt_dec (Rabs d) (/ 1000000)); reflexivity.
Qed.

Lemma guard_denom_pos (d : R) : 0 < d -> 0 < CorrectedUpstream.guard_denom d.
Proof.
  intros Hd. rewrite guard_denom_R.
  destruct (Rlt_dec (Rabs d) (/ 1000000)); lra.
Qed.

(** One accepted step of [compute_backwater_from_weir] that reaches [L]. *)
Lemma corrected_upstream_one_step (Q b n S0 dx L y1 : R) :
  let y_crit := Rectangular.compute_critical_depth Q b in
  let y0 := y_crit * Q2R (101 # 100) in
  let fr0 := Rectangular.Fr Q b y0 in
  let d := CorrectedUpstream.guard_denom (Q2R 1 - sqr fr0) in
  0 < L <= dx ->
  y1 = y0 + (S0 - Rectangular.Sf y0 Q b n) / d * dx ->
  0 < y1 ->
  CorrectedUpstream.compute_backwater_from_weir 2 Q b n S0 dx L
  = Some ([0; dx], [y0; y1], y_crit, [fr0]).
Proof.
  intros y_crit y0 fr0 d HL Hy1 Hpos.
  unfold CorrectedUpstream.compute_backwater_from_weir, CorrectedUpstream.loop.
  fold y_crit.
  change (fmul y_crit (flit (101 # 100))) with y0.
  cbn [while].
  unfold CorrectedUpstream.cond at 1. cbn [fst x flt R_PyNum].
  change (@flit R R_PyNum 0%Q) with (Q2R 0). rewrite Q2R_zero.
  rewrite R_ltb_lt by lra.
  unfold CorrectedUpstream.body at 1. cbn [y x x_vals y_vals].
  fold fr0.
  change (@flit R R_PyNum 1%Q) with (Q2R 1).
  cbn [fadd fsub fmul fdiv fle fisnan R_PyNum].
  unfold d in Hy1. rewrite <- Hy1.
  change (@flit R R_PyNum 0%Q) with (Q2R 0). rewrite Q2R_zero.
  rewrite R_leb_gt by lra. cbn [orb].
  unfold CorrectedUpstream.cond. cbn [fst x flt R_PyNum].
  rewrite R_ltb_ge by lra.
  cbn [x_vals y_vals app]. repeat f_equal. lra.
Qed.

(** [Q = 3.5643], [b = 1]: the critical depth is exactly [1.09], for either
    sign of [Q]. *)
Lemma critical_depth_109 (Q : R) :
  Q * Q = Q2R (35643 # 10000) * Q2R (35643 # 10000) ->
  Rectangular.compute_critical_depth Q (Q2R 1) = Q2R (109 # 100).
Proof.
  intros HQ. unfold Rectangular.compute_critical_depth. to_R.
  rewrite third_eq, HQ. lits.
  replace (35643 * / 10000 * (35643 * / 10000)
           / (981 * / 100 * (1 * / 1 * (1 * / 1))))
    with (109 * / 100 * (109 * / 100) * (109 * / 100)) by lra.
  apply R_pow_third_cube. lra.
Qed.

(** *** A run of [compute_backwater_from_weir] with one accepted step

    [Q = ±3.5643], [b = 1], [n = ±0.03], [S0 = 0.01], [dx = 2], [L = 1]. *)
Lemma corrected_upstream_run (Q n : R) :
  Q * Q = Q2R (35643 # 10000) * Q2R (35643 # 10000) ->
  n * n = Q2R (3 # 100) * Q2R (3 # 100) ->
  exists y1 fr0,
    CorrectedUpstream.compute_backwater_from_weir 2 Q (Q2R 1) n
      (Q2R (1 # 100)) (Q2R 2) (Q2R 1)
    = Some ([0; Q2R 2], [Q2R (109 # 100) * Q2R (101 # 100); y1],
            Q2R (109 # 100), [fr0])
    /\ 0 < y1.
Proof.
  intros HQ Hn.
  pose proof (critical_depth_109 Q HQ) as Hc.
  set (y0 := Q2R (109 # 100) * Q2R (101 # 100)).
  assert (Hy0 : y0 = 11009 / 10000) by (unfold y0; lits; lra).
  set (fr0 := Rectangular.Fr Q (Q2R 1) y0).
  set (d := CorrectedUpstream.guard_denom (Q2R 1 - sqr fr0)).
  set (y1 := y0 + (Q2R (1 # 100) - Rectangular.Sf y0 Q (Q2R 1) n) / d * Q2R 2).
  assert (Hd : 0 < d).
  { apply guard_denom_pos. unfold fr0.
    rewrite Fr_sqr_R by (rewrite ?Q2R_one, ?Hy0; lra).
    rewrite HQ, Hy0. lits. lra. }
  assert (HS : Rectangular.Sf y0 Q (Q2R 1) n <= 95 / 10000).
  { eapply Rle_trans; [apply Sf_le_deep; rewrite ?Q2R_one, ?Hy0; lra|].
    rewrite HQ, Hn, Hy0. lits. lra. }
  assert (Hy1 : 0 < y1).
  { unfold y1. 
    assert (0 <= (Q2R (1 # 100) - Rectangular.Sf y0 Q (Q2R 1) n) / d * Q2R 2).
    { apply Rmult_le_pos; [|lits; lra].
      apply Rmult_le_pos; [lits; lra|]. apply Rlt_le, Rinv_0_lt_compat, Hd. }
    lra. }
  exists y1, fr0. split; [|exact Hy1].
  pose proof (corrected_upstream_one_step Q (Q2R 1) n (Q2R (1 # 100)) (Q2R 2)
                (Q2R 1) y1) as Hs.
  cbv zeta in Hs. rewrite Hc in Hs. apply Hs.
  - lits. lra.
  - reflexivity.
  - exact Hy1.
Qed.

(** ** Termination and length of the four loops *)

Lemma interactive_loop_bounded (Q b n S0 L dx y_start : R) (N : nat) :
  0 < dx -> L <= INR N * dx ->
  exists e s,
    Interactive.loop (S N) Q b n S0 L dx y_start = Some (e, s)
    /\ (length (x_vals s) <= S N)%nat.
Proof.
  intros Hdx HL. unfold Interactive.loop.
  destruct (while_bounded (Interactive.cond L) (Interactive.body Q b n S0 dx)
              (fun s => x s) (fun s => length (x_vals s)) dx L Hdx)
    with (N := N) (s := mk_vars (flit 0) y_start [flit 0] [y_start])
    as (e & s & Hw & Hlen).
  - intros s Hc. unfold Interactive.cond in Hc. to_R.
    apply R_ltb_true in Hc. exact Hc.
  - intros s s' _ Hb. unfold Interactive.body in Hb. body_cases Hb.
    cbn [x x_vals]. rewrite length_app. cbn [length]. to_R.
    split; [reflexivity|lia].
  - intros s k s' _ Hb. unfold Interactive.body in Hb. body_cases Hb.
    reflexivity.
  - cbn [x]. to_R. rewrite Q2R_zero. lra.
  - exists e, s. split; [exact Hw|]. cbn [x_vals length] in Hlen. lia.
Qed.

Lemma corrected_upstream_loop_bounded (Q b n S0 dx L y_start : R) (N : nat) :
  0 < dx -> L <= INR N * dx ->
  exists e s,
    CorrectedUpstream.loop (S N) Q b n S0 dx L y_start = Some (e, s)
    /\ (length (x_vals (fst s)) <= S N)%nat.
Proof.
  intros Hdx HL. unfold CorrectedUpstream.loop.
  destruct (while_bounded (CorrectedUpstream.cond L)
              (CorrectedUpstream.body Q b n S0 dx)
              (fun s => x (fst s)) (fun s => length (x_vals (fst s)))
              dx L Hdx)
    with (N := N)
         (s := (mk_vars (flit 0) y_start [flit 0] [y_start], @nil R))
    as (e & s & Hw & Hlen).
  - intros s Hc. unfold CorrectedUpstream.cond in Hc. to_R.
    apply R_ltb_true in Hc. exact Hc.
  - intros [v frs] s' _ Hb. unfold CorrectedUpstream.body in Hb.
    body_cases Hb.
    cbn [fst x x_vals]. rewrite length_app. cbn [length]. to_R.
    split; [reflexivity|lia].
  - intros [v frs] k s' _ Hb. unfold CorrectedUpstream.body in Hb.
    body_cases Hb. reflexivity.
  - cbn [fst x]. to_R. rewrite Q2R_zero. lra.
  - exists e, s. split; [exact Hw|]. cbn [fst x_vals length] in Hlen. lia.
Qed.

Lemma trapezoidal_loop_bounded (Q b z n S0 dx L y_start : R) (N : nat) :
  0 < dx -> L <= INR N * dx ->
  exists e s,
    Trapezoidal.loop (S N) Q b z n S0 dx L y_start = Some (e, s)
    /\ (length (x_vals s) <= S N)%nat.
Proof.
  intros Hdx HL. unfold Trapezoidal.loop.
  destruct (while_bounded (Trapezoidal.cond L)
              (Trapezoidal.body Q b z n S0 dx)
              (fun s => x s) (fun s => length (x_vals s)) dx L Hdx)
    with (N := N) (s := mk_vars (flit 0) y_start [flit 0] [y_start])
    as (e & s & Hw & Hlen).
  - intros s Hc. unfold Trapezoidal.cond in Hc. to_R.
    apply R_ltb_true in Hc. exact Hc.
  - intros s s' _ Hb. unfold Trapezoidal.body in Hb. body_cases Hb.
    cbn [x x_vals]. rewrite length_app. cbn [length]. to_R.
    split; [reflexivity|lia].
  - intros s k s' _ Hb. unfold Trapezoidal.body in Hb. body_cases Hb;
      reflexivity.
  - cbn [x]. to_R. rewrite Q2R_zero. lra.
  - exists e, s. split; [exact Hw|]. cbn [x_vals length] in Hlen. lia.
Qed.

(** The backward loop runs while [x > -1000] and lowers [x] by [dx]. *)
Lemma smooth_backwater_loop_bounded (Q b n S0 y_end y_stop dx : R) (M : nat) :
  0 < dx -> 1000 <= INR M * dx ->
  exists e s,
    SmoothBackwater.loop (S M) Q b n S0 y_end y_stop dx = Some (e, s)
    /\ (length (x_vals s) <= S M)%nat.
Proof.
  intros Hdx HL. unfold SmoothBackwater.loop.
  destruct (while_bounded (SmoothBackwater.cond y_stop)
              (SmoothBackwater.body Q b n S0 dx)
              (fun s => - x s) (fun s => length (x_vals s)) dx 1000 Hdx)
    with (N := M) (s := mk_vars (flit 0) y_end [flit 0] [y_end])
    as (e & s & Hw & Hlen).
  - intros s Hc. unfold SmoothBackwater.cond in Hc.
    apply andb_true_iff in Hc. destruct Hc as [_ Hc]. to_R.
    apply R_ltb_true in Hc. lits. lra.
  - intros s s' _ Hb. unfold SmoothBackwater.body in Hb. body_cases Hb.
    cbn [x x_vals]. rewrite length_app. cbn [length]. to_R.
    split; [lra|lia].
  - intros s k s' _ Hb. unfold SmoothBackwater.body in Hb. body_cases Hb;
      reflexivity.
  - cbn [x]. to_R. rewrite Q2R_zero. lra.
  - exists e, s. split; [exact Hw|]. cbn [x_vals length] in Hlen. lia.
Qed.

(** ** The positions of the samples *)

Lemma grid_snoc (step : R) (m : nat) :
  grid step (S m) = grid step m ++ [INR (S m) * step].
Proof. unfold grid. rewrite (seq_S (S m)), map_app. reflexivity. Qed.

Lemma grid_length (step : R) (m : nat) : length (grid step m) = S m.
Proof. unfold grid. rewrite length_map, length_seq. reflexivity. Qed.

Lemma grid_hd (step d : R) (m : nat) : hd d (grid step m) = 0.
Proof. unfold grid. cbn [seq map hd INR]. lra. Qed.

Lemma grid_last (step d : R) (m : nat) :
  last (grid step m) d = INR m * step.
Proof.
  destruct m as [|m]; [reflexivity|].
  rewrite grid_snoc. apply last_last.
Qed.

Lemma map_seq_increasing (f : nat -> R) :
  (forall i j, (i < j)%nat -> f i < f j) ->
  forall n a, StronglySorted Rlt (map f (seq a n)).
Proof.
  intros Hf n. induction n as [|n IH]; intros a; cbn [seq map].
  - constructor.
  - constructor; [apply IH|].
    apply Forall_forall. intros v Hv.
    apply in_map_iff in Hv. destruct Hv as (j & <- & Hj).
    apply in_seq in Hj. apply Hf. lia.
Qed.

Lemma rev_map_seq_decreasing (f : nat -> R) :
  (forall i j, (i < j)%nat -> f j < f i) ->
  forall n a, StronglySorted Rlt (rev (map f (seq a n))).
Proof.
  intros Hf n. induction n as [|n IH]; intros a.
  - constructor.
  - rewrite seq_S, map_app, rev_app_distr. cbn [map rev app].
    constructor; [apply IH|].
    apply Forall_forall. intros v Hv.
    apply in_rev in Hv.
    apply in_map_iff in Hv. destruct Hv as (j & <- & Hj).
    apply in_seq in Hj. apply Hf. lia.
Qed.

Lemma grid_sorted (dx : R) (m : nat) :
  0 < dx -> StronglySorted Rlt (grid dx m).
Proof.
  intros Hdx. apply map_seq_increasing. intros i j Hij.
  apply Rmult_lt_compat_r; [exact Hdx|]. apply lt_INR. exact Hij.
Qed.

Lemma rev_grid_sorted (dx : R) (m : nat) :
  0 < dx -> StronglySorted Rlt (rev (grid (- dx) m)).
Proof.
  intros Hdx. apply rev_map_seq_decreasing. intros i j Hij.
  apply lt_INR in Hij. nra.
Qed.

Lemma rev_grid_last (dx d : R) (m : nat) : last (rev (grid dx m)) d = 0.
Proof.
  unfold grid. cbn [seq map rev]. rewrite last_last. cbn [INR]. lra.
Qed.

Lemma rev_grid_hd (dx d : R) (m : nat) :
  hd d (rev (grid dx m)) = INR m * dx.
Proof.
  destruct m as [|m]; [reflexivity|].
  rewrite grid_snoc, rev_app_distr. reflexivity.
Qed.

(** ** The shape of what each loop leaves behind

    Every loop keeps [x_vals] on the grid of its step, keeps [y_vals] of the
    same length, and -- where the body tests the new depth -- appends only
    positive depths.  The loop was left by its condition exactly when the
    last sample no longer satisfies it. *)

Lemma grid_O (step : R) : grid step 0 = [0].
Proof. unfold grid. cbn [seq map INR]. f_equal. lra. Qed.

Lemma snoc_grid (step u : R) (m : nat) :
  u = INR m * step -> grid step m ++ [u + step] = grid step (S m).
Proof.
  intros ->. rewrite grid_snoc. f_equal. f_equal. rewrite S_INR. lra.
Qed.

Lemma trapezoidal_loop_shape (Q b z n S0 dx L y_start : R) (fuel : nat)
  (e : loop_exit) (s : vars R) :
  Trapezoidal.loop fuel Q b z n S0 dx L y_start = Some (e, s) ->
  exists m ys,
    x_vals s = grid dx m /\ y_vals s = y_start :: ys /\ length ys = m
    /\ Forall (fun v => 0 < v) ys
    /\ (e = LoopCond <-> L <= INR m * dx).
Proof.
  unfold Trapezoidal.loop.
  apply (while_inv (Trapezoidal.cond L) (Trapezoidal.body Q b z n S0 dx)
           (fun s => exists m ys,
              x s = INR m * dx /\ x_vals s = grid dx m
              /\ y_vals s = y_start :: ys /\ length ys = m
              /\ Forall (fun v => 0 < v) ys)
           (fun e s => exists m ys,
              x_vals s = grid dx m /\ y_vals s = y_start :: ys
              /\ length ys = m /\ Forall (fun v => 0 < v) ys
              /\ (e = LoopCond <-> L <= INR m * dx))).
  - intros s0 s1 (m & ys & Hx & Hxs & Hys & Hlen & Hpos) _ Hb.
    unfold Trapezoidal.body in Hb. body_cases Hb.
    apply orb_false_iff in E0. destruct E0 as [E0 _]. to_R.
    apply R_leb_false in E0. rewrite Q2R_zero in E0.
    exists (S m), (ys ++ [y s0 + (S0 - Trapezoidal.Sf Q b z (y s0) n)
                           / (Q2R 1 - Trapezoidal.Fr Q b z (y s0)
                                       * Trapezoidal.Fr Q b z (y s0)) * dx]).
    cbn [x y x_vals y_vals]. rewrite Hxs, Hys.
    repeat split.
    + rewrite Hx, S_INR. lra.
    + apply snoc_grid, Hx.
    + rewrite length_app. cbn [length]. lia.
    + apply Forall_app. split; [exact Hpos|].
      constructor; [exact E0|constructor].
  - intros s0 (m & ys & Hx & Hxs & Hys & Hlen & Hpos) Hc.
    unfold Trapezoidal.cond in Hc. to_R. apply R_ltb_false in Hc.
    exists m, ys. repeat split; try assumption. intros _. lra.
  - intros s0 k s1 (m & ys & Hx & Hxs & Hys & Hlen & Hpos) Hc Hb.
    unfold Trapezoidal.cond in Hc. to_R. apply R_ltb_true in Hc.
    unfold Trapezoidal.body in Hb. body_cases Hb; cbn [x_vals y_vals];
      exists m, ys; repeat split; try assumption;
      try discriminate; intros; lra.
  - exists 0%nat, []. cbn [x x_vals y_vals length INR]. to_R.
    rewrite Q2R_zero, grid_O. repeat split; try reflexivity; try lra.
    constructor.
Qed.

Lemma interactive_loop_shape (Q b n S0 L dx y_start : R) (fuel : nat)
  (e : loop_exit) (s : vars R) :
  Interactive.loop fuel Q b n S0 L dx y_start = Some (e, s) ->
  exists m ys,
    x_vals s = grid dx m /\ y_vals s = y_start :: ys /\ length ys = m
    /\ (e = LoopCond <-> L <= INR m * dx).
Proof.
  unfold Interactive.loop.
  apply (while_inv (Interactive.cond L) (Interactive.body Q b n S0 dx)
           (fun s => exists m ys,
              x s = INR m * dx /\ x_vals s = grid dx m
              /\ y_vals s = y_start :: ys /\ length ys = m)
           (fun e s => exists m ys,
              x_vals s = grid dx m /\ y_vals s = y_start :: ys
              /\ length ys = m /\ (e = LoopCond <-> L <= INR m * dx))).
  - intros s0 s1 (m & ys & Hx & Hxs & Hys & Hlen) _ Hb.
    unfold Interactive.body in Hb. body_cases Hb. to_R.
    exists (S m), (ys ++ [y s0 + (S0 - Rectangular.Sf (y s0) Q b n)
                           / (Q2R 1 - Rectangular.Fr Q b (y s0)
                                       * Rectangular.Fr Q b (y s0)) * dx]).
    cbn [x y x_vals y_vals]. rewrite Hxs, Hys.
    repeat split.
    + rewrite Hx, S_INR. lra.
    + apply snoc_grid, Hx.
    + rewrite length_app. cbn [length]. lia.
  - intros s0 (m & ys & Hx & Hxs & Hys & Hlen) Hc.
    unfold Interactive.cond in Hc. to_R. apply R_ltb_false in Hc.
    exists m, ys. repeat split; try assumption. intros _. lra.
  - intros s0 k s1 (m & ys & Hx & Hxs & Hys & Hlen) Hc Hb.
    unfold Interactive.cond in Hc. to_R. apply R_ltb_true in Hc.
    unfold Interactive.body in Hb. body_cases Hb; cbn [x_vals y_vals];
      exists m, ys; repeat split; try assumption;
      try discriminate; intros; lra.
  - exists 0%nat, []. cbn [x x_vals y_vals length INR]. to_R.
    rewrite Q2R_zero, grid_O. repeat split; try reflexivity; lra.
Qed.

Lemma corrected_upstream_loop_shape (Q b n S0 dx L y_start : R) (fuel : nat)
  (e : loop_exit) (v : vars R) (frs : list R) :
  CorrectedUpstream.loop fuel Q b n S0 dx L y_start = Some (e, (v, frs)) ->
  exists m ys,
    x_vals v = grid dx m /\ y_vals v = y_start :: ys /\ length ys = m
    /\ length frs = m
    /\ Forall (fun u => 0 < u) ys
    /\ (e = LoopCond <-> L <= INR m * dx).
Proof.
  unfold CorrectedUpstream.loop. intros Hw.
  apply (while_inv (CorrectedUpstream.cond L)
           (CorrectedUpstream.body Q b n S0 dx)
           (fun s => exists m ys,
              x (fst s) = INR m * dx /\ x_vals (fst s) = grid dx m
              /\ y_vals (fst s) = y_start :: ys /\ length ys = m
              /\ length (snd s) = m
              /\ Forall (fun u => 0 < u) ys)
           (fun e s => exists m ys,
              x_vals (fst s) = grid dx m /\ y_vals (fst s) = y_start :: ys
              /\ length ys = m /\ length (snd s) = m
              /\ Forall (fun u => 0 < u) ys
              /\ (e = LoopCond <-> L <= INR m * dx))) in Hw; [exact Hw|..].
  - intros [v0 f0] s1 (m & ys & Hx & Hxs & Hys & Hlen & Hfr & Hpos) _ Hb.
    unfold CorrectedUpstream.body in Hb. body_cases Hb.
    apply orb_false_iff in E. destruct E as [E _]. to_R.
    apply R_leb_false in E. rewrite Q2R_zero in E.
    cbn [fst snd x y x_vals y_vals] in *.
    exists (S m),
      (ys ++ [y v0 + (S0 - Rectangular.Sf (y v0) Q b n)
                     / CorrectedUpstream.guard_denom
                         (Q2R 1 - Rectangular.Fr Q b (y v0)
                                  * Rectangular.Fr Q b (y v0)) * dx]).
    rewrite Hxs, Hys.
    repeat split.
    + rewrite Hx, S_INR. lra.
    + apply snoc_grid, Hx.
    + rewrite length_app. cbn [length]. lia.
    + rewrite length_app. cbn [length]. lia.
    + apply Forall_app. split; [exact Hpos|].
      constructor; [exact E|constructor].
  - intros [v0 f0] (m & ys & Hx & Hxs & Hys & Hlen & Hfr & Hpos) Hc.
    unfold CorrectedUpstream.cond in Hc. to_R. apply R_ltb_false in Hc.
    cbn [fst snd] in *.
    exists m, ys. repeat split; try assumption. intros _. lra.
  - intros [v0 f0] k s1 (m & ys & Hx & Hxs & Hys & Hlen & Hfr & Hpos) Hc Hb.
    unfold CorrectedUpstream.cond in Hc. to_R. apply R_ltb_true in Hc.
    cbn [fst snd] in *.
    unfold CorrectedUpstream.body in Hb. body_cases Hb.
    cbn [fst snd x_vals y_vals].
    exists m, ys; repeat split; try assumption;
      try discriminate; intros; lra.
  - exists 0%nat, []. cbn [fst snd x x_vals y_vals length INR]. to_R.
    rewrite Q2R_zero, grid_O. repeat split; try reflexivity; try lra.
    constructor.
Qed.

(** The backward loop: the grid has step [- dx], and the loop was left by
    its condition exactly when the last sample is at or below the stopping
    depth or at or beyond [x = -1000]. *)
Lemma smooth_backwater_loop_shape (Q b n S0 y_end y_stop dx : R) (fuel : nat)
  (e : loop_exit) (s : vars R) :
  SmoothBackwater.loop fuel Q b n S0 y_end y_stop dx = Some (e, s) ->
  exists m ys,
    x_vals s = grid (- dx) m /\ y_vals s = y_end :: ys /\ length ys = m
    /\ Forall (fun v => 0 < v) ys
    /\ (e = LoopCond <->
        last (y_vals s) y_end <= y_stop \/ INR m * (- dx) <= - 1000).
Proof.
  unfold SmoothBackwater.loop.
  apply (while_inv (SmoothBackwater.cond y_stop)
           (SmoothBackwater.body Q b n S0 dx)
           (fun s => exists m ys,
              x s = INR m * (- dx) /\ x_vals s = grid (- dx) m
              /\ y_vals s = y_end :: ys /\ length ys = m
              /\ last (y_vals s) y_end = y s
              /\ Forall (fun v => 0 < v) ys)
           (fun e s => exists m ys,
              x_vals s = grid (- dx) m /\ y_vals s = y_end :: ys
              /\ length ys = m /\ Forall (fun v => 0 < v) ys
              /\ (e = LoopCond <->
                  last (y_vals s) y_end <= y_stop
                  \/ INR m * (- dx) <= - 1000))).
  - intros s0 s1 (m & ys & Hx & Hxs & Hys & Hlen & Hlast & Hpos) _ Hb.
    unfold SmoothBackwater.body in Hb. body_cases Hb.
    apply orb_false_iff in E0. destruct E0 as [E0 _]. to_R.
    apply R_leb_false in E0. rewrite Q2R_zero in E0.
    exists (S m), (ys ++ [y s0 - (S0 - Rectangular.Sf (y s0) Q b n)
                           / (Q2R 1 - Rectangular.Fr Q b (y s0)
                                       * Rectangular.Fr Q b (y s0)) * dx]).
    cbn [x y x_vals y_vals]. rewrite Hxs, Hys.
    repeat split.
    + rewrite Hx, S_INR. lra.
    + replace (INR m * - dx - dx) with (INR m * - dx + - dx) by lra.
      apply snoc_grid, Hx.
    + rewrite length_app. cbn [length]. lia.
    + apply last_last.
    + apply Forall_app. split; [exact Hpos|].
      constructor; [exact E0|constructor].
  - intros s0 (m & ys & Hx & Hxs & Hys & Hlen & Hlast & Hpos) Hc.
    unfold SmoothBackwater.cond in Hc. to_R.
    apply andb_false_iff in Hc. rewrite !R_ltb_false in Hc.
    exists m, ys. repeat split; try assumption. intros _.
    rewrite Hlast, <- Hx. lits. destruct Hc; [left|right]; lra.
  - intros s0 k s1 (m & ys & Hx & Hxs & Hys & Hlen & Hlast & Hpos) Hc Hb.
    unfold SmoothBackwater.cond in Hc. to_R.
    apply andb_true_iff in Hc. rewrite !R_ltb_true in Hc.
    destruct Hc as [Hc1 Hc2]. lits.
    unfold SmoothBackwater.body in Hb. body_cases Hb; cbn [x_vals y_vals];
      exists m, ys; repeat split; try assumption;
      try discriminate; rewrite Hlast, <- Hx; intros [H1|H1]; lra.
  - exists 0%nat, []. cbn [x y x_vals y_vals length last INR]. to_R.
    rewrite Q2R_zero, grid_O. repeat split; try reflexivity; try lra.
    constructor.
Qed.

(** ** C8: termination and length *)


(** ** Short runs of the backward loop *)

Lemma R_pow_one (a : R) : R_pow 1 a = 1.
Proof.
  unfold R_pow. destruct (Rlt_dec 0 1); [|lra].
  unfold Rpower. rewrite ln_1, Rmult_0_r. apply exp_0.
Qed.

(** The backward loop is not entered when [y_end <= y_stop]. *)
Lemma smooth_backwater_no_step (Q b n S0 y_end y_stop dx : R) :
  y_end <= y_stop ->
  SmoothBackwater.loop 1 Q b n S0 y_end y_stop dx
  = Some (LoopCond, mk_vars 0 y_end [0] [y_end]).
Proof.
  intros Hy. unfold SmoothBackwater.loop. cbn [while].
  unfold SmoothBackwater.cond. cbn [x y]. to_R.
  rewrite (R_ltb_ge y_stop y_end) by lra. cbn [andb].
  rewrite Q2R_zero. reflexivity.
Qed.

(** The first step of the backward loop, for a start that is not within
    [1e-6] of critical. *)
Lemma smooth_backwater_first_body (Q b n S0 y_end dx : R) :
  let d := 1 - sqr (Rectangular.Fr Q b y_end) in
  let y1 := y_end - (S0 - Rectangular.Sf y_end Q b n) / d * dx in
  / 1000000 <= Rabs d ->
  SmoothBackwater.body Q b n S0 dx (mk_vars 0 y_end [0] [y_end])
  = if R_leb y1 0 then Break 2 (mk_vars (0 - dx) y1 [0] [y_end])
    else Continue (mk_vars (0 - dx) y1 [0; 0 - dx] [y_end; y1]).
Proof.
  intros d y1 Hd. unfold SmoothBackwater.body. cbn [x y x_vals y_vals].
  to_R. rewrite Q2R_one, Q2R_zero. fold d.
  rewrite (R_ltb_ge (Rabs d)) by (lits; lra).
  fold y1. rewrite orb_false_r. reflexivity.
Qed.

(** One accepted backward step that reaches the stopping depth. *)
Lemma smooth_backwater_one_step (Q b n S0 y_end y_stop dx : R) :
  let d := 1 - sqr (Rectangular.Fr Q b y_end) in
  let y1 := y_end - (S0 - Rectangular.Sf y_end Q b n) / d * dx in
  y_stop < y_end -> / 1000000 <= Rabs d -> 0 < y1 <= y_stop ->
  SmoothBackwater.loop 2 Q b n S0 y_end y_stop dx
  = Some (LoopCond, mk_vars (0 - dx) y1 [0; 0 - dx] [y_end; y1]).
Proof.
  intros d y1 Hy Hd Hy1. unfold SmoothBackwater.loop.
  change (@flit R R_PyNum 0%Q) with (Q2R 0). rewrite Q2R_zero.
  cbn [while].
  unfold SmoothBackwater.cond at 1. cbn [x y]. to_R.
  rewrite (R_ltb_lt y_stop y_end) by lra.
  rewrite (R_ltb_lt (Q2R (-1000 # 1)) 0) by (lits; lra). cbn [andb].
  pose proof (smooth_backwater_first_body Q b n S0 y_end dx Hd) as Hb.
  cbv zeta in Hb. to_R. rewrite Hb. fold d. fold y1.
  rewrite (R_leb_gt y1 0) by lra.
  unfold SmoothBackwater.cond. cbn [x y]. to_R.
  rewrite (R_ltb_ge y_stop y1) by lra. reflexivity.
Qed.

(** A first backward step that drives the depth to zero or below. *)
Lemma smooth_backwater_depth_break (Q b n S0 y_end y_stop dx : R) :
  let d := 1 - sqr (Rectangular.Fr Q b y_end) in
  let y1 := y_end - (S0 - Rectangular.Sf y_end Q b n) / d * dx in
  y_stop < y_end -> / 1000000 <= Rabs d -> y1 <= 0 ->
  SmoothBackwater.loop 1 Q b n S0 y_end y_stop dx
  = Some (BreakAt 2, mk_vars (0 - dx) y1 [0] [y_end]).
Proof.
  intros d y1 Hy Hd Hy1. unfold SmoothBackwater.loop.
  change (@flit R R_PyNum 0%Q) with (Q2R 0). rewrite Q2R_zero.
  cbn [while].
  unfold SmoothBackwater.cond at 1. cbn [x y]. to_R.
  rewrite (R_ltb_lt y_stop y_end) by lra.
  rewrite (R_ltb_lt (Q2R (-1000 # 1)) 0) by (lits; lra). cbn [andb].
  pose proof (smooth_backwater_first_body Q b n S0 y_end dx Hd) as Hb.
  cbv zeta in Hb. to_R. rewrite Hb. fold d. fold y1.
  rewrite (R_leb_le y1 0) by lra. reflexivity.
Qed.

(** [Q = 1], [b = 1], [n = 0.03] at depth [1]: the Froude number squared is
    [100/981] and the friction slope is [0.0009]. *)
Lemma unit_channel_values :
  sqr (Rectangular.Fr 1 1 1) = 100 / 981
  /\ Rectangular.Sf 1 1 1 (3 / 100) = 9 / 10000.
Proof.
  split.
  - rewrite Fr_sqr_R by lra. lra.
  - rewrite Sf_R, R_pow_one. lra.
Qed.

Lemma hd_rev_last {A : Type} (l : list A) (d : A) : hd d (rev l) = last l d.
Proof.
  induction l as [|a l IH] using rev_ind; [reflexivity|].
  rewrite rev_app_distr, last_last. reflexivity.
Qed.

(** ** C3: the order of the samples *)

(** C3 (as the code behaves).  With [dx > 0] the returned [x] values are
    strictly increasing in every mode.  The forward integrators return the
    grid [0, dx, ..., m*dx], which starts at [x = 0]; the backward integrator
    returns its list reversed, [-m*dx, ..., -dx, 0], which ends at [x = 0]
    and starts at [-m*dx]. *)
Theorem profiles_have_increasing_x
  (fsolve : (R -> R) -> R -> R) (Q b z n S0 dx L y_end y_stop : R)
  (weir_type : Interactive.weir) (weir_height C_b C_d : R) (N M : nat) :
  0 < dx -> L <= INR N * dx -> 1000 <= INR M * dx ->
  (exists m xs ys yc,
     Trapezoidal.compute_gvf_profile fsolve (S N) Q b z n S0 dx L
     = Some (xs, ys, yc)
     /\ xs = grid dx m /\ length ys = length xs
     /\ StronglySorted Rlt xs /\ hd 1 xs = 0)
  /\ (exists m xs ys yc frs,
        CorrectedUpstream.compute_backwater_from_weir (S N) Q b n S0 dx L
        = Some (xs, ys, yc, frs)
        /\ xs = grid dx m /\ length ys = length xs
        /\ StronglySorted Rlt xs /\ hd 1 xs = 0)
  /\ (exists m rep,
        Interactive.plot_profile fsolve (S N) Q b n S0 L dx weir_type
          weir_height C_b C_d = Some rep
        /\ Interactive.r_x_vals rep = grid dx m
        /\ length (Interactive.r_y_vals rep)
           = length (Interactive.r_x_vals rep)
        /\ StronglySorted Rlt (Interactive.r_x_vals rep)
        /\ hd 1 (Interactive.r_x_vals rep) = 0)
  /\ (exists m xs ys,
        SmoothBackwater.compute_gvf_backwater (S M) Q b n S0 y_end y_stop dx
        = Some (xs, ys)
        /\ xs = rev (grid (- dx) m) /\ length ys = length xs
        /\ StronglySorted Rlt xs
        /\ last xs 1 = 0 /\ hd 1 xs = - (INR m * dx)).
Proof.
  intros Hdx HL HM. repeat apply conj.
  - unfold Trapezoidal.compute_gvf_profile.
    set (y_start := fmul _ _).
    destruct (trapezoidal_loop_bounded Q b z n S0 dx L y_start N Hdx HL)
      as (e & s & Hw & _).
    destruct (trapezoidal_loop_shape _ _ _ _ _ _ _ _ _ _ _ Hw)
      as (m & ys & Hxs & Hys & Hm & _).
    rewrite Hw, Hxs, Hys. exists m. eexists _, _, _.
    split; [reflexivity|]. split; [reflexivity|].
    rewrite grid_length. cbn [length]. split; [lia|].
    split; [apply grid_sorted, Hdx|apply grid_hd].
  - unfold CorrectedUpstream.compute_backwater_from_weir.
    set (y_start := fmul _ _).
    destruct (corrected_upstream_loop_bounded Q b n S0 dx L y_start N Hdx HL)
      as (e & [v frs] & Hw & _).
    destruct (corrected_upstream_loop_shape _ _ _ _ _ _ _ _ _ _ _ Hw)
      as (m & ys & Hxs & Hys & Hm & _).
    rewrite Hw, Hxs, Hys. exists m. eexists _, _, _, _.
    split; [reflexivity|]. split; [reflexivity|].
    rewrite grid_length. cbn [length]. split; [lia|].
    split; [apply grid_sorted, Hdx|apply grid_hd].
  - unfold Interactive.plot_profile.
    set (y_start := fmul _ _).
    destruct (interactive_loop_bounded Q b n S0 L dx y_start N Hdx HL)
      as (e & s & Hw & _).
    destruct (interactive_loop_shape _ _ _ _ _ _ _ _ _ _ Hw)
      as (m & ys & Hxs & Hys & Hm & _).
    rewrite Hw. exists m. eexists. split; [reflexivity|].
    cbn [Interactive.r_x_vals Interactive.r_y_vals]. rewrite Hxs, Hys.
    split; [reflexivity|].
    rewrite grid_length. cbn [length]. split; [lia|].
    split; [apply grid_sorted, Hdx|apply grid_hd].
  - unfold SmoothBackwater.compute_gvf_backwater.
    destruct (smooth_backwater_loop_bounded Q b n S0 y_end y_stop dx M Hdx HM)
      as (e & s & Hw & _).
    destruct (smooth_backwater_loop_shape _ _ _ _ _ _ _ _ _ _ Hw)
      as (m & ys & Hxs & Hys & Hm & _).
    rewrite Hw, Hxs, Hys. exists m. eexists _, _.
    split; [reflexivity|]. split; [reflexivity|].
    rewrite !length_rev, grid_length. cbn [length]. split; [lia|].
    split; [apply rev_grid_sorted, Hdx|].
    split; [apply rev_grid_last|]. rewrite rev_grid_hd. lra.
Qed.

Lemma profiles_have_increasing_x_witness :
  0 < 1000 /\ 1000 <= INR 1 * 1000
  /\ exists m xs ys,
       SmoothBackwater.compute_gvf_backwater 2 1 1 (3 / 100) (1 / 1000)
         2 1 1000 = Some (xs, ys)
       /\ xs = rev (grid (- 1000) m) /\ length ys = length xs
       /\ StronglySorted Rlt xs
       /\ last xs 1 = 0 /\ hd 1 xs = - (INR m * 1000).
Proof.
  assert (H1 : 0 < 1000) by lra.
  assert (H2 : 1000 <= INR 1 * 1000) by (cbn [INR]; lra).
  split; [exact H1|]. split; [exact H2|].
  exact (proj2 (proj2 (proj2
    (profiles_have_increasing_x (fun _ x0 => x0) 1 1 0 (3 / 100) (1 / 1000)
       1000 1000 2 1 Interactive.broad_crested 1 1 1 1 1 H1 H2 H2)))).
Defined.

(** C3 (as stated) fails for the backward mode: the returned profile starts
    at [x = -1], not at [x = 0]. *)
Lemma backwater_profile_starts_below_zero :
  exists y1,
    SmoothBackwater.compute_gvf_backwater 2 1 1 (3 / 100) (1 / 1000)
      1 (9999 / 10000) 1 = Some ([-1; 0], [y1; 1]).
Proof.
  destruct unit_channel_values as [Hfr HSf].
  pose proof (smooth_backwater_one_step 1 1 (3 / 100) (1 / 1000) 1
                (9999 / 10000) 1) as Hs.
  cbv zeta in Hs. rewrite Hfr, HSf in Hs.
  unfold SmoothBackwater.compute_gvf_backwater.
  rewrite Hs.
  - cbn [x_vals y_vals rev app]. eexists. repeat f_equal. lra.
  - lra.
  - rewrite Rabs_pos_eq; lra.
  - lra.
Qed.

(** ** C6: what is returned about the way a run ended *)

(** C6 (as the code behaves).  The integrators return the sample lists of
    the final loop state (with [y_crit], and [fr_vals] in one notebook) and
    nothing about how the loop was left.  Whether the loop ran to its
    condition can still be read off the result: the forward loops were left
    by the condition exactly when the last returned [x] has reached [L], the
    backward loop exactly when the first returned sample is at or below the
    stopping depth or at or beyond [x = -1000]. *)
Theorem profile_returned_without_reason
  (fsolve : (R -> R) -> R -> R) (Q b z n S0 dx L y_end y_stop : R)
  (N M : nat) :
  0 < dx -> L <= INR N * dx -> 1000 <= INR M * dx ->
  (exists e s,
     Trapezoidal.loop (S N) Q b z n S0 dx L
       (Trapezoidal.compute_critical_depth fsolve Q b z * Q2R (101 # 100))
     = Some (e, s)
     /\ Trapezoidal.compute_gvf_profile fsolve (S N) Q b z n S0 dx L
        = Some (x_vals s, y_vals s,
                Trapezoidal.compute_critical_depth fsolve Q b z)
     /\ (e = LoopCond <-> L <= last (x_vals s) 0))
  /\ (exists e v frs,
        CorrectedUpstream.loop (S N) Q b n S0 dx L
          (Rectangular.compute_critical_depth Q b * Q2R (101 # 100))
        = Some (e, (v, frs))
        /\ CorrectedUpstream.compute_backwater_from_weir (S N) Q b n S0 dx L
           = Some (x_vals v, y_vals v,
                   Rectangular.compute_critical_depth Q b, frs)
        /\ (e = LoopCond <-> L <= last (x_vals v) 0))
  /\ (exists e s xs ys,
        SmoothBackwater.loop (S M) Q b n S0 y_end y_stop dx = Some (e, s)
        /\ SmoothBackwater.compute_gvf_backwater (S M) Q b n S0 y_end y_stop dx
           = Some (xs, ys)
        /\ xs = rev (x_vals s) /\ ys = rev (y_vals s)
        /\ (e = LoopCond <-> hd y_end ys <= y_stop \/ hd 0 xs <= - 1000)).
Proof.
  intros Hdx HL HM. repeat apply conj.
  - unfold Trapezoidal.compute_gvf_profile.
    set (y_start := Trapezoidal.compute_critical_depth fsolve Q b z * _).
    destruct (trapezoidal_loop_bounded Q b z n S0 dx L y_start N Hdx HL)
      as (e & s & Hw & _).
    destruct (trapezoidal_loop_shape _ _ _ _ _ _ _ _ _ _ _ Hw)
      as (m & ys & Hxs & Hys & Hm & _ & He).
    exists e, s. split; [exact Hw|].
    change (fmul (Trapezoidal.compute_critical_depth fsolve Q b z)
              (flit (101 # 100))) with y_start.
    rewrite Hw. split; [reflexivity|].
    rewrite Hxs, grid_last. exact He.
  - unfold CorrectedUpstream.compute_backwater_from_weir.
    set (y_start := Rectangular.compute_critical_depth Q b * _).
    destruct (corrected_upstream_loop_bounded Q b n S0 dx L y_start N Hdx HL)
      as (e & [v frs] & Hw & _).
    destruct (corrected_upstream_loop_shape _ _ _ _ _ _ _ _ _ _ _ Hw)
      as (m & ys & Hxs & Hys & Hm & _ & _ & He).
    exists e, v, frs. split; [exact Hw|].
    change (fmul (Rectangular.compute_critical_depth Q b)
              (flit (101 # 100))) with y_start.
    rewrite Hw. split; [reflexivity|].
    rewrite Hxs, grid_last. exact He.
  - unfold SmoothBackwater.compute_gvf_backwater.
    destruct (smooth_backwater_loop_bounded Q b n S0 y_end y_stop dx M Hdx HM)
      as (e & s & Hw & _).
    destruct (smooth_backwater_loop_shape _ _ _ _ _ _ _ _ _ _ Hw)
      as (m & ys & Hxs & Hys & Hm & _ & He).
    exists e, s. rewrite Hw. eexists _, _.
    split; [reflexivity|]. split; [reflexivity|].
    split; [reflexivity|]. split; [reflexivity|].
    rewrite !hd_rev_last, Hxs, grid_last. exact He.
Qed.

Lemma profile_returned_without_reason_witness :
  0 < 1000 /\ 1000 <= INR 1 * 1000
  /\ exists e s xs ys,
       SmoothBackwater.loop 2 1 1 (3 / 100) (1 / 1000) 2 1 1000 = Some (e, s)
       /\ SmoothBackwater.compute_gvf_backwater 2 1 1 (3 / 100) (1 / 1000)
            2 1 1000 = Some (xs, ys)
       /\ xs = rev (x_vals s) /\ ys = rev (y_vals s)
       /\ (e = LoopCond <-> hd 2 ys <= 1 \/ hd 0 xs <= - 1000).
Proof.
  assert (H1 : 0 < 1000) by lra.
  assert (H2 : 1000 <= INR 1 * 1000) by (cbn [INR]; lra).
  split; [exact H1|]. split; [exact H2|].
  exact (proj2 (proj2
    (profile_returned_without_reason (fun _ x0 => x0) 1 1 0 (3 / 100)
       (1 / 1000) 1000 1000 2 1 1 1 H1 H2 H2))).
Defined.

(** C6 (as stated) fails: two runs that differ in the stopping depth only,
    one ending at its stopping depth and one cut short at the depth test,
    return the same value. *)
Lemma truncated_profile_without_reason :
  SmoothBackwater.compute_gvf_backwater 1 1 1 (3 / 100) 100 1 2 1
  = Some ([0], [1])
  /\ SmoothBackwater.compute_gvf_backwater 1 1 1 (3 / 100) 100 1 (1 / 2) 1
     = Some ([0], [1])
  /\ option_map fst (SmoothBackwater.loop 1 1 1 (3 / 100) 100 1 2 1)
     = Some LoopCond
  /\ option_map fst (SmoothBackwater.loop 1 1 1 (3 / 100) 100 1 (1 / 2) 1)
     = Some (BreakAt 2).
Proof.
  destruct unit_channel_values as [Hfr HSf].
  pose proof (smooth_backwater_no_step 1 1 (3 / 100) 100 1 2 1) as HA.
  pose proof (smooth_backwater_depth_break 1 1 (3 / 100) 100 1 (1 / 2) 1)
    as HB.
  cbv zeta in HB. rewrite Hfr, HSf in HB.
  unfold SmoothBackwater.compute_gvf_backwater.
  rewrite HA by lra.
  rewrite HB; [|lra|rewrite Rabs_pos_eq; lra|lra].
  repeat split.
Qed.

(** ** The start of a forward run *)

Lemma R_pow_third_cubed (v : R) :
  0 < v -> R_pow v (/ 3) * R_pow v (/ 3) * R_pow v (/ 3) = v.
Proof.
  intros Hv. unfold R_pow. destruct (Rlt_dec 0 v); [|lra].
  rewrite <- !Rpower_plus.
  replace (/ 3 + / 3 + / 3) with 1 by lra. apply Rpower_1, Hv.
Qed.

(** The closed-form critical depth is positive and its cube is
    [Q**2 / (g * b**2)]. *)
Lemma critical_depth_cubed (Q b : R) :
  Q <> 0 -> b <> 0 ->
  let c := Rectangular.compute_critical_depth Q b in
  0 < c /\ c * c * c = Q * Q / (981 * / 100 * (b * b)).
Proof.
  intros HQ Hb c. unfold c, Rectangular.compute_critical_depth. to_R.
  rewrite third_eq. lits.
  assert (Hq : 0 < Q * Q) by (apply (Rsqr_pos_lt Q HQ)).
  assert (Hbb : 0 < b * b) by (apply (Rsqr_pos_lt b Hb)).
  assert (Hv : 0 < Q * Q / (981 * / 100 * (b * b))).
  { apply Rdiv_lt_0_compat; nra. }
  split; [apply R_pow_pos, Hv|apply R_pow_third_cubed, Hv].
Qed.

(** At [k] times the critical depth the Froude number squared is
    [1 / k**3]. *)
Lemma Fr_sqr_at_multiple (Q b k : R) :
  Q <> 0 -> b <> 0 -> 0 < k ->
  sqr (Rectangular.Fr Q b (Rectangular.compute_critical_depth Q b * k))
  = 1 / (k * k * k).
Proof.
  intros HQ Hb Hk.
  destruct (critical_depth_cubed Q b HQ Hb) as [Hc Hc3].
  set (c := Rectangular.compute_critical_depth Q b) in *.
  assert (Hq : 0 < Q * Q) by (apply (Rsqr_pos_lt Q HQ)).
  assert (Hbb : 0 < b * b) by (apply (Rsqr_pos_lt b Hb)).
  rewrite Fr_sqr_R by (try apply Rmult_lt_0_compat; assumption).
  replace (c * k * (c * k) * (c * k)) with (c * c * c * (k * k * k)) by ring.
  rewrite Hc3. field. repeat split; lra.
Qed.

Lemma div_le_upper (a u hi : R) : 0 < u -> a <= hi * u -> a / u <= hi.
Proof.
  intros Hu Ha. apply Rmult_le_reg_r with u; [exact Hu|].
  unfold Rdiv. rewrite Rmult_assoc, Rinv_l by lra. lra.
Qed.

Lemma div_ge_lower (a u lo : R) : 0 < u -> lo * u <= a -> lo <= a / u.
Proof.
  intros Hu Ha. apply Rmult_le_reg_r with u; [exact Hu|].
  unfold Rdiv. rewrite Rmult_assoc, Rinv_l by lra. lra.
Qed.

(** The first time round the loop of [plot_profile], away from the
    singularity test. *)
Lemma interactive_first_body (Q b n S0 dx y_start : R) :
  let d := 1 - sqr (Rectangular.Fr Q b y_start) in
  let y1 := y_start + (S0 - Rectangular.Sf y_start Q b n) / d * dx in
  / 1000000 <= Rabs d ->
  Interactive.body Q b n S0 dx (mk_vars 0 y_start [0] [y_start])
  = Continue (mk_vars (0 + dx) y1 [0; 0 + dx] [y_start; y1]).
Proof.
  intros d y1 Hd. unfold Interactive.body. cbn [x y x_vals y_vals].
  to_R. rewrite Q2R_one. fold d.
  rewrite (R_ltb_ge (Rabs d)) by (lits; lra). reflexivity.
Qed.

(** The lists of samples only grow. *)
Lemma interactive_samples_grow (Q b n S0 L dx : R) (fuel : nat)
  (s0 s : vars R) (e : loop_exit) :
  while fuel (Interactive.cond L) (Interactive.body Q b n S0 dx) s0
  = Some (e, s) ->
  exists xs ys, x_vals s = x_vals s0 ++ xs /\ y_vals s = y_vals s0 ++ ys.
Proof.
  apply (while_inv (Interactive.cond L) (Interactive.body Q b n S0 dx)
           (fun s => exists xs ys,
              x_vals s = x_vals s0 ++ xs /\ y_vals s = y_vals s0 ++ ys)
           (fun _ s => exists xs ys,
              x_vals s = x_vals s0 ++ xs /\ y_vals s = y_vals s0 ++ ys)).
  - intros s1 s2 (xs & ys & Hxs & Hys) _ Hb.
    unfold Interactive.body in Hb. body_cases Hb. cbn [x_vals y_vals].
    rewrite Hxs, Hys, <- !app_assoc. eexists _, _. split; reflexivity.
  - intros s1 H _. exact H.
  - intros s1 k s2 H _ Hb. unfold Interactive.body in Hb. body_cases Hb.
    exact H.
  - exists [], []. rewrite !app_nil_r. split; reflexivity.
Qed.

(** *** [Q = 7], [b = 3]: the critical depth is about [0.8218]. *)
Lemma critical_depth_7_3_bounds :
  0.8217 < Rectangular.compute_critical_depth (Q2R 7) (Q2R 3) < 0.8219.
Proof.
  unfold Rectangular.compute_critical_depth. to_R.
  rewrite third_eq. lits.
  apply R_pow_third_between; lra.
Qed.

(** The first step of [plot_profile] for [Q = 7], [b = 3], [n = 0.3],
    [S0 = 0.001], [dx = 0.25] takes the depth below zero. *)
Lemma interactive_first_step_negative :
  let y_start :=
    Rectangular.compute_critical_depth (Q2R 7) (Q2R 3) * Q2R (105 # 100) in
  exists y1,
    Interactive.body (Q2R 7) (Q2R 3) (Q2R (3 # 10)) (Q2R (1 # 1000))
      (Q2R (25 # 100)) (mk_vars 0 y_start [0] [y_start])
    = Continue (mk_vars (0 + Q2R (25 # 100)) y1 [0; 0 + Q2R (25 # 100)]
                  [y_start; y1])
    /\ y1 < 0.
Proof.
  intros y_start.
  pose proof critical_depth_7_3_bounds as Hc.
  assert (H7 : Q2R 7 <> 0) by (lits; lra).
  assert (H3 : Q2R 3 <> 0) by (lits; lra).
  assert (Hk : 0 < Q2R (105 # 100)) by (lits; lra).
  pose proof (Fr_sqr_at_multiple (Q2R 7) (Q2R 3) (Q2R (105 # 100)) H7 H3 Hk)
    as Hfr.
  fold y_start in Hfr.
  assert (Hy : 0.8627 < y_start < 0.8630) by (unfold y_start; lits; lra).
  pose proof (Sf_ge_shallow y_start (Q2R 7) (Q2R 3) (Q2R (3 # 10))
                ltac:(lra) H3) as HSf.
  set (sf := Rectangular.Sf y_start (Q2R 7) (Q2R 3) (Q2R (3 # 10))) in *.
  assert (Hsf : 0.65 <= sf).
  { eapply Rle_trans; [|exact HSf]. apply div_ge_lower; lits; nra. }
  set (d := 1 - sqr (Rectangular.Fr (Q2R 7) (Q2R 3) y_start)).
  assert (Hd : 0.136 < d < 0.137) by (unfold d; rewrite Hfr; lits; lra).
  exists (y_start + (Q2R (1 # 1000) - sf) / d * Q2R (25 # 100)).
  split.
  - apply interactive_first_body. fold d. rewrite Rabs_pos_eq; lra.
  - assert (Hq : (Q2R (1 # 1000) - sf) / d <= - 4).
    { apply div_le_upper; lits; lra. }
    lits. lra.
Qed.

Lemma while_step {S : Type} (cond : S -> bool) (body : S -> flow S)
  (fuel : nat) (s s' : S) :
  cond s = true -> body s = Continue s' ->
  while (Datatypes.S fuel) cond body s = while fuel cond body s'.
Proof. intros Hc Hb. cbn [while]. rewrite Hc, Hb. reflexivity. Qed.

(** ** C1: the depth test *)

(** In any arithmetic, the three loops that test the new depth append only
    depths that passed the test. *)
Section GuardedLoops.
Context {F : Type} `{PyNum F}.

Lemma trapezoidal_appends_tested (Q b z n S0 dx L y_start : F) (fuel : nat)
  (e : loop_exit) (s : vars F) :
  Trapezoidal.loop fuel Q b z n S0 dx L y_start = Some (e, s) ->
  exists ys, y_vals s = y_start :: ys /\ Forall depth_ok ys.
Proof.
  unfold Trapezoidal.loop.
  apply (while_inv (Trapezoidal.cond L) (Trapezoidal.body Q b z n S0 dx)
           (fun s => exists ys, y_vals s = y_start :: ys
                                /\ Forall depth_ok ys)
           (fun _ s => exists ys, y_vals s = y_start :: ys
                                  /\ Forall depth_ok ys)).
  - intros s0 s1 (ys & Hys & Hok) _ Hb.
    unfold Trapezoidal.body in Hb. body_cases Hb. cbn [y_vals].
    rewrite Hys. eexists. split; [reflexivity|].
    apply Forall_app. split; [exact Hok|].
    constructor; [exact E0|constructor].
  - intros s0 Hs _. exact Hs.
  - intros s0 k s1 Hs _ Hb. unfold Trapezoidal.body in Hb.
    body_cases Hb; exact Hs.
  - exists []. split; [reflexivity|constructor].
Qed.

Lemma corrected_upstream_appends_tested (Q b n S0 dx L y_start : F)
  (fuel : nat) (e : loop_exit) (s : vars F * list F) :
  CorrectedUpstream.loop fuel Q b n S0 dx L y_start = Some (e, s) ->
  exists ys, y_vals (fst s) = y_start :: ys /\ Forall depth_ok ys.
Proof.
  unfold CorrectedUpstream.loop.
  apply (while_inv (CorrectedUpstream.cond L)
           (CorrectedUpstream.body Q b n S0 dx)
           (fun s => exists ys, y_vals (fst s) = y_start :: ys
                                /\ Forall depth_ok ys)
           (fun _ s => exists ys, y_vals (fst s) = y_start :: ys
                                  /\ Forall depth_ok ys)).
  - intros [v0 f0] s1 (ys & Hys & Hok) _ Hb.
    unfold CorrectedUpstream.body in Hb. body_cases Hb.
    cbn [fst y_vals] in *.
    rewrite Hys. eexists. split; [reflexivity|].
    apply Forall_app. split; [exact Hok|].
    constructor; [exact E|constructor].
  - intros s0 Hs _. exact Hs.
  - intros [v0 f0] k s1 Hs _ Hb. unfold CorrectedUpstream.body in Hb.
    body_cases Hb; exact Hs.
  - exists []. split; [reflexivity|constructor].
Qed.

Lemma smooth_backwater_appends_tested (Q b n S0 y_end y_stop dx : F)
  (fuel : nat) (e : loop_exit) (s : vars F) :
  SmoothBackwater.loop fuel Q b n S0 y_end y_stop dx = Some (e, s) ->
  exists ys, y_vals s = y_end :: ys /\ Forall depth_ok ys.
Proof.
  unfold SmoothBackwater.loop.
  apply (while_inv (SmoothBackwater.cond y_stop)
           (SmoothBackwater.body Q b n S0 dx)
           (fun s => exists ys, y_vals s = y_end :: ys
                                /\ Forall depth_ok ys)
           (fun _ s => exists ys, y_vals s = y_end :: ys
                                  /\ Forall depth_ok ys)).
  - intros s0 s1 (ys & Hys & Hok) _ Hb.
    unfold SmoothBackwater.body in Hb. body_cases Hb. cbn [y_vals].
    rewrite Hys. eexists. split; [reflexivity|].
    apply Forall_app. split; [exact Hok|].
    constructor; [exact E0|constructor].
  - intros s0 Hs _. exact Hs.
  - intros s0 k s1 Hs _ Hb. unfold SmoothBackwater.body in Hb.
    body_cases Hb; exact Hs.
  - exists []. split; [reflexivity|constructor].
Qed.
End GuardedLoops.

(** C1 (the run on which the code departs from it).  [plot_profile] makes
    no test of the new depth: for [Q = 7], [b = 3], [n = 0.3], [S0 = 0.001],
    [L = 60], [dx = 0.25] it returns a profile whose second sample has a
    negative depth. *)
Theorem plot_profile_appends_negative_depth
  (fsolve : (R -> R) -> R -> R) (weir_type : Interactive.weir)
  (weir_height C_b C_d : R) :
  exists rep y1 xs ys,
    Interactive.plot_profile fsolve 241 (Q2R 7) (Q2R 3) (Q2R (3 # 10))
      (Q2R (1 # 1000)) (Q2R 60) (Q2R (25 # 100)) weir_type weir_height
      C_b C_d = Some rep
    /\ Interactive.r_x_vals rep = 0 :: Q2R (25 # 100) :: xs
    /\ Interactive.r_y_vals rep
       = Rectangular.compute_critical_depth (Q2R 7) (Q2R 3)
         * Q2R (105 # 100) :: y1 :: ys
    /\ y1 < 0.
Proof.
  unfold Interactive.plot_profile.
  set (y_start := fmul _ _).
  destruct interactive_first_step_negative as (y1 & Hb & Hneg).
  fold y_start in Hb.
  destruct (interactive_loop_bounded (Q2R 7) (Q2R 3) (Q2R (3 # 10))
              (Q2R (1 # 1000)) (Q2R 60) (Q2R (25 # 100)) y_start 240)
    as (e & s & Hw & _).
  { lits. lra. }
  { rewrite INR_IZR_INZ. cbn [Z.of_nat Pos.of_succ_nat Pos.succ]. lits. lra. }
  rewrite Hw. unfold Interactive.loop in Hw.
  change (@flit R R_PyNum 0%Q) with (Q2R 0) in Hw. rewrite Q2R_zero in Hw.
  assert (Hc : Interactive.cond (Q2R 60)
                 (mk_vars 0 y_start [0] [y_start]) = true).
  { unfold Interactive.cond. cbn [x]. to_R. apply R_ltb_lt. lits. lra. }
  rewrite (while_step _ _ 240 _ _ Hc Hb) in Hw.
  apply interactive_samples_grow in Hw.
  destruct Hw as (xs & ys & Hxs & Hys). cbn [x_vals y_vals] in Hxs, Hys.
  eexists _, y1, xs, ys. split; [reflexivity|].
  cbn [Interactive.r_x_vals Interactive.r_y_vals].
  rewrite Hxs, Hys. repeat split; try exact Hneg.
  cbn [app]. repeat f_equal. lra.
Qed.

(** ** C4: the critical depth *)




(** ** C5: parameters are not validated *)

(** A loop whose invariant keeps the condition true and the body falling
    through never returns. *)
Lemma while_diverges {S : Type} (cond : S -> bool) (body : S -> flow S)
  (I : S -> Prop) :
  (forall s, I s -> cond s = true /\ exists s', body s = Continue s' /\ I s') ->
  forall fuel s, I s -> while fuel cond body s = None.
Proof.
  intros HI fuel. induction fuel as [|fuel IH]; intros s Hs; [reflexivity|].
  destruct (HI s Hs) as (Hc & s' & Hb & Hs').
  cbn [while]. rewrite Hc, Hb. apply IH, Hs'.
Qed.

(** Manning's [n] enters the friction slope squared. *)
Lemma Sf_opp_n (v Q b n : R) :
  Rectangular.Sf v Q b (- n) = Rectangular.Sf v Q b n.
Proof. rewrite !Sf_R. f_equal. ring. Qed.

Lemma trapezoidal_Sf_opp_n (Q b z v n : R) :
  Trapezoidal.Sf Q b z v (- n) = Trapezoidal.Sf Q b z v n.
Proof.
  unfold Trapezoidal.Sf. to_R. f_equal. ring.
Qed.

Lemma corrected_upstream_opp_n (fuel : nat) (Q b n S0 dx L : R) :
  CorrectedUpstream.compute_backwater_from_weir fuel Q b (- n) S0 dx L
  = CorrectedUpstream.compute_backwater_from_weir fuel Q b n S0 dx L.
Proof.
  unfold CorrectedUpstream.compute_backwater_from_weir, CorrectedUpstream.loop.
  rewrite (while_ext _ (CorrectedUpstream.body Q b (- n) S0 dx)
             (CorrectedUpstream.body Q b n S0 dx)); [reflexivity|].
  intros [v frs]. unfold CorrectedUpstream.body. rewrite Sf_opp_n.
  reflexivity.
Qed.

Lemma trapezoidal_opp_n (fsolve : (R -> R) -> R -> R) (fuel : nat)
  (Q b z n S0 dx L : R) :
  Trapezoidal.compute_gvf_profile fsolve fuel Q b z (- n) S0 dx L
  = Trapezoidal.compute_gvf_profile fsolve fuel Q b z n S0 dx L.
Proof.
  unfold Trapezoidal.compute_gvf_profile, Trapezoidal.loop.
  rewrite (while_ext _ (Trapezoidal.body Q b z (- n) S0 dx)
             (Trapezoidal.body Q b z n S0 dx)); [reflexivity|].
  intros s. unfold Trapezoidal.body. rewrite trapezoidal_Sf_opp_n.
  reflexivity.
Qed.

(** With [dx = 0] the loop of [compute_backwater_from_weir] stays where it
    started. *)
Lemma corrected_upstream_zero_step (fuel : nat) (Q b n S0 L : R) :
  Q <> 0 -> b <> 0 -> 0 < L ->
  CorrectedUpstream.compute_backwater_from_weir fuel Q b n S0 0 L = None.
Proof.
  intros HQ Hb HL.
  unfold CorrectedUpstream.compute_backwater_from_weir, CorrectedUpstream.loop.
  destruct (critical_depth_cubed Q b HQ Hb) as [Hc _].
  set (y_start := fmul _ _).
  assert (Hy : 0 < y_start) by (unfold y_start; to_R; lits; lra).
  rewrite (while_diverges (CorrectedUpstream.cond L)
             (CorrectedUpstream.body Q b n S0 0)
             (fun s => x (fst s) = 0 /\ y (fst s) = y_start)); [reflexivity| |].
  - intros [v frs] [Hx Hyv]. cbn [fst] in Hx, Hyv. split.
    + unfold CorrectedUpstream.cond. cbn [fst]. to_R. rewrite Hx.
      apply R_ltb_lt, HL.
    + unfold CorrectedUpstream.body. to_R. rewrite Q2R_zero, Hx, Hyv.
      rewrite R_leb_gt by lra. cbn [orb].
      eexists. split; [reflexivity|]. cbn [fst x y]. split; lra.
  - cbn [fst x y]. to_R. rewrite Q2R_zero. split; reflexivity.
Qed.

(** From a positive depth every division of a rectangular step has a
    non-zero divisor. *)
Lemma rectangular_step_defined (Q b v : R) :
  b <> 0 -> 0 < v ->
  b * v * sqrt (Rectangular.g * v) <> 0
  /\ sqr (b * v) * R_pow v (Q2R 4 / Q2R 3) <> 0
  /\ CorrectedUpstream.guard_denom (1 - sqr (Rectangular.Fr Q b v)) <> 0.
Proof.
  intros Hb Hv. to_R. lits.
  assert (Hg : 0 < 981 * / 100 * v) by lra.
  pose proof (sqrt_lt_R0 _ Hg) as Hs.
  pose proof (area_sq_pos b v Hv Hb) as Ha.
  pose proof (R_pow_pos v (4 * / 1 / (3 * / 1)) Hv) as Hp.
  repeat split.
  - apply Rmult_integral_contrapositive. split; [|lra].
    apply Rmult_integral_contrapositive. split; lra.
  - apply Rmult_integral_contrapositive. split; lra.
  - rewrite guard_denom_R.
    destruct (Rlt_dec (Rabs _) (/ 1000000)) as [Hlt|Hge]; [lra|].
    intros H0. rewrite H0, Rabs_R0 in Hge. lra.
Qed.

(** C5 (as stated) fails: with [Q < 0] and [n < 0] no error is raised; the
    loop takes a step and a two-sample profile is returned. *)
Lemma negative_parameters_are_integrated :
  exists y1 fr0,
    CorrectedUpstream.compute_backwater_from_weir 2
      (- Q2R (35643 # 10000)) (Q2R 1) (- Q2R (3 # 100)) (Q2R (1 # 100))
      (Q2R 2) (Q2R 1)
    = Some ([0; Q2R 2], [Q2R (109 # 100) * Q2R (101 # 100); y1],
            Q2R (109 # 100), [fr0])
    /\ 0 < y1.
Proof.
  apply corrected_upstream_run; ring.
Qed.

(** ** C7: the residual of the normal-depth solver *)

(** Both notebooks start [fsolve] at [1.5] times the closed-form critical
    depth. *)
Lemma normal_depth_initial_guess {F : Type} `{PyNum F}
  (fsolve : (F -> F) -> F -> F) (Q b n S0 : F) :
  Interactive.compute_normal_depth fsolve Q b n S0
  = fsolve (Interactive.func Q b n S0)
      (Rectangular.compute_critical_depth Q b * flit (15 # 10))%num
  /\ SmoothBackwater.compute_normal_depth fsolve Q b n S0
     = fsolve (SmoothBackwater.manning_eq Q b n S0)
         (Rectangular.compute_critical_depth Q b * flit (15 # 10))%num.
Proof. split; reflexivity. Qed.

(** The residual of the smooth-backwater notebook is guarded: a trial depth
    that is not positive gives [1e6]. *)
Lemma manning_eq_guarded {F : Type} `{PyNum F} (Q b n S0 v : F) :
  (v <=? flit 0)%num = true ->
  SmoothBackwater.manning_eq Q b n S0 v = flit (1000000 # 1).
Proof.
  intros Hv. unfold SmoothBackwater.manning_eq. rewrite Hv. reflexivity.
Qed.

(** C7 (the input on which the code departs from it).  The residual of
    [compute_normal_depth] in [weir_flow_interactive.ipynb] has no guard: at
    the trial depth [0], for [Q = 10], [b = 3], [n = 0.03], [S0 = 0.001], it
    evaluates the Manning formula and returns [-10], where the guarded
    residual of the smooth-backwater notebook returns [1e6]. *)
Theorem interactive_residual_unguarded :
  Interactive.func (Q2R 10) (Q2R 3) (Q2R (3 # 100)) (Q2R (1 # 1000)) 0
  = - 10
  /\ SmoothBackwater.manning_eq (Q2R 10) (Q2R 3) (Q2R (3 # 100))
       (Q2R (1 # 1000)) 0
     = 1000000.
Proof.
  split.
  - unfold Interactive.func. to_R. unfold R_pow.
    destruct (Rlt_dec 0 0); [lra|]. lits. lra.
  - rewrite manning_eq_guarded.
    + to_R. lits. lra.
    + to_R. apply R_leb_le. lits. lra.
Qed.

(** ** C10: the reach-length slider of the backward notebook *)

(** C10.  What [plot_smooth_backwater] computes does not depend on its
    argument [L]: [compute_gvf_backwater] takes no reach length, and its loop
    is bounded by the stopping depth and by [x > -1000] only. *)
Theorem backwater_independent_of_reach_length {F : Type} `{PyNum F}
  (fsolve : (F -> F) -> F -> F) (fuel : nat) (Q b n S0 dx L1 L2 : F) :
  SmoothBackwater.plot_smooth_backwater fsolve fuel Q b n S0 dx L1
  = SmoothBackwater.plot_smooth_backwater fsolve fuel Q b n S0 dx L2
  /\ SmoothBackwater.plot_smooth_backwater fsolve fuel Q b n S0 dx L1
     = match
         while fuel
           (fun s => (y s >? Rectangular.compute_critical_depth Q b)%num
                     && (x s >? flit (-1000 # 1))%num)
           (SmoothBackwater.body Q b n S0 dx)
           (mk_vars (flit 0)
              (SmoothBackwater.compute_normal_depth fsolve Q b n S0)
              [flit 0]
              [SmoothBackwater.compute_normal_depth fsolve Q b n S0])
       with
       | None => None
       | Some (_, s) =>
           Some (rev (x_vals s), rev (y_vals s),
                 Rectangular.compute_critical_depth Q b,
                 SmoothBackwater.compute_normal_depth fsolve Q b n S0)
       end.
Proof.
  split; [reflexivity|].
  unfold SmoothBackwater.plot_smooth_backwater,
    SmoothBackwater.compute_gvf_backwater, SmoothBackwater.loop.
  destruct (while _ _ _ _) as [[e s]|]; reflexivity.
Qed.

(** ** C2: the test of the denominator *)

(** Two rounds of [compute_backwater_from_weir]: the first step is accepted,
    the second takes the depth to zero or below and ends the run. *)
Lemma corrected_upstream_two_steps (Q b n S0 dx L : R) :
  let y_crit := Rectangular.compute_critical_depth Q b in
  let y0 := y_crit * Q2R (101 # 100) in
  let d0 := CorrectedUpstream.guard_denom
              (1 - sqr (Rectangular.Fr Q b y0)) in
  let y1 := y0 + (S0 - Rectangular.Sf y0 Q b n) / d0 * dx in
  let d1 := CorrectedUpstream.guard_denom
              (1 - sqr (Rectangular.Fr Q b y1)) in
  let y2 := y1 + (S0 - Rectangular.Sf y1 Q b n) / d1 * dx in
  0 < dx < L -> 0 < y1 -> y2 <= 0 ->
  CorrectedUpstream.compute_backwater_from_weir 2 Q b n S0 dx L
  = Some ([0; dx], [y0; y1], y_crit, [Rectangular.Fr Q b y0]).
Proof.
  intros y_crit y0 d0 y1 d1 y2 HL Hy1 Hy2.
  unfold CorrectedUpstream.compute_backwater_from_weir, CorrectedUpstream.loop.
  fold y_crit.
  change (fmul y_crit (flit (101 # 100))) with y0.
  change (@flit R R_PyNum 0%Q) with (Q2R 0). rewrite Q2R_zero.
  assert (Hb1 : CorrectedUpstream.body Q b n S0 dx
                  (mk_vars 0 y0 [0] [y0], [])
                = Continue (mk_vars (0 + dx) y1 [0; 0 + dx] [y0; y1],
                            [Rectangular.Fr Q b y0])).
  { unfold CorrectedUpstream.body. cbn [x y x_vals y_vals]. to_R.
    rewrite Q2R_one, Q2R_zero. fold d0. fold y1.
    rewrite (R_leb_gt y1 0) by lra. reflexivity. }
  assert (Hb2 : CorrectedUpstream.body Q b n S0 dx
                  (mk_vars (0 + dx) y1 [0; 0 + dx] [y0; y1],
                   [Rectangular.Fr Q b y0])
                = Break 1 (mk_vars (0 + dx + dx) y2 [0; 0 + dx] [y0; y1],
                           [Rectangular.Fr Q b y0])).
  { unfold CorrectedUpstream.body. cbn [x y x_vals y_vals]. to_R.
    rewrite Q2R_one, Q2R_zero. fold d1. fold y2.
    rewrite (R_leb_le y2 0) by lra. reflexivity. }
  assert (Hc1 : CorrectedUpstream.cond L (mk_vars 0 y0 [0] [y0], []) = true).
  { unfold CorrectedUpstream.cond. cbn [fst x]. to_R. apply R_ltb_lt. lra. }
  assert (Hc2 : CorrectedUpstream.cond L
                  (mk_vars (0 + dx) y1 [0; 0 + dx] [y0; y1],
                   [Rectangular.Fr Q b y0]) = true).
  { unfold CorrectedUpstream.cond. cbn [fst x]. to_R. apply R_ltb_lt. lra. }
  rewrite (while_step _ _ 1 _ _ Hc1 Hb1).
  cbn [while]. rewrite Hc2.
  rewrite Hb2. cbn [x_vals y_vals]. repeat f_equal. lra.
Qed.

Lemma cube_lt (u v : R) : 0 < u < v -> u * u * u < v * v * v.
Proof.
  intros [Hu Huv].
  assert (H1 : u * u < v * v) by nra.
  assert (H2 : u * u * u < v * v * u) by nra.
  assert (H3 : v * v * u < v * v * v) by nra.
  lra.
Qed.

Lemma div_lt_upper (a u hi : R) : 0 < u -> a < hi * u -> a / u < hi.
Proof.
  intros Hu Ha. apply Rmult_lt_reg_r with u; [exact Hu|].
  unfold Rdiv. rewrite Rmult_assoc, Rinv_l by lra. lra.
Qed.

Lemma div_gt_lower (a u lo : R) : 0 < u -> lo * u < a -> lo < a / u.
Proof.
  intros Hu Ha. apply Rmult_lt_reg_r with u; [exact Hu|].
  unfold Rdiv. rewrite Rmult_assoc, Rinv_l by lra. lra.
Qed.

(** *** The run [Q = 3.5643], [b = 1], [n = 0.03], [S0 = 0.001],
    [dx = 0.04391943], [L = 1]

    The first step lands just below the critical depth [1.09], where
    [1 - Fr**2] is about [-5e-7]. *)
Lemma near_critical_first_step :
  let Q := Q2R (35643 # 10000) in
  let y0 := Q2R (109 # 100) * Q2R (101 # 100) in
  let d0 := CorrectedUpstream.guard_denom
              (1 - sqr (Rectangular.Fr Q (Q2R 1) y0)) in
  let y1 := y0 + (Q2R (1 # 1000) - Rectangular.Sf y0 Q (Q2R 1) (Q2R (3 # 100)))
                 / d0 * Q2R (4391943 # 100000000) in
  1.0899997 < y1 < 1.0899999.
Proof.
  intros Q y0 d0 y1.
  assert (Hy0 : y0 = 11009 / 10000) by (unfold y0; lits; lra).
  assert (Hd0 : d0 = 30301 / 1030301).
  { unfold d0. rewrite Fr_sqr_R by (rewrite ?Q2R_one, ?Hy0; lra).
    rewrite guard_denom_R.
    replace (1 - Q * Q / (981 * / 100 * (Q2R 1 * Q2R 1) * (y0 * y0 * y0)))
      with (30301 / 1030301) by (rewrite Hy0; unfold Q; lits; field).
    destruct (Rlt_dec (Rabs (30301 / 1030301)) (/ 1000000)) as [Hlt|_];
      [|reflexivity].
    rewrite Rabs_pos_eq in Hlt; lra. }
  assert (Hc : 1.032561 < R_pow y0 (/ 3) < 1.032562).
  { rewrite Hy0. apply R_pow_third_between; lra. }
  unfold y1. rewrite Hd0, Sf_R, R_pow_four_thirds by lra.
  set (c := R_pow y0 (/ 3)) in *.
  assert (Hu : 0 < Q2R 1 * y0 * (Q2R 1 * y0) * (y0 * c)).
  { rewrite Q2R_one, Hy0. nra. }
  assert (Hlo : 0.00829910 <
                Q2R (3 # 100) * Q2R (3 # 100) * (Q * Q)
                / (Q2R 1 * y0 * (Q2R 1 * y0) * (y0 * c))).
  { apply div_gt_lower; [exact Hu|]. rewrite Hy0. unfold Q. lits. lra. }
  assert (Hhi : Q2R (3 # 100) * Q2R (3 # 100) * (Q * Q)
                / (Q2R 1 * y0 * (Q2R 1 * y0) * (y0 * c)) < 0.00829912).
  { apply div_lt_upper; [exact Hu|]. rewrite Hy0. unfold Q. lits. lra. }
  remember (Q2R (3 # 100) * Q2R (3 # 100) * (Q * Q)
            / (Q2R 1 * y0 * (Q2R 1 * y0) * (y0 * c))) as sf eqn:Hsf.
  clear Hsf. rewrite Hy0. lits. lra.
Qed.

(** Just below the critical depth [1.09] the denominator is negative and
    smaller than [1e-6] in magnitude, and the next step takes the depth far
    below zero. *)
Lemma near_critical_second_step (y1 : R) :
  1.0899997 < y1 < 1.0899999 ->
  let Q := Q2R (35643 # 10000) in
  let d := 1 - sqr (Rectangular.Fr Q (Q2R 1) y1) in
  - / 1000000 < d < 0
  /\ CorrectedUpstream.guard_denom d = / 1000000
  /\ y1 + (Q2R (1 # 1000) - Rectangular.Sf y1 Q (Q2R 1) (Q2R (3 # 100)))
          / CorrectedUpstream.guard_denom d * Q2R (4391943 # 100000000)
     <= 0.
Proof.
  intros Hy1 Q d.
  assert (Hlo3 : 1.0899997 * 1.0899997 * 1.0899997 < y1 * y1 * y1)
    by (apply cube_lt; lra).
  assert (Hhi3 : y1 * y1 * y1 < 1.0899999 * 1.0899999 * 1.0899999)
    by (apply cube_lt; lra).
  assert (Hd : - / 1000000 < d < 0).
  { unfold d. rewrite Fr_sqr_R by (rewrite ?Q2R_one; lra).
    assert (Hu : 0 < 981 * / 100 * (Q2R 1 * Q2R 1) * (y1 * y1 * y1))
      by (rewrite Q2R_one; lra).
    assert (H1 : 1 < Q * Q / (981 * / 100 * (Q2R 1 * Q2R 1) * (y1 * y1 * y1))).
    { apply div_gt_lower; [exact Hu|]. unfold Q. lits. lra. }
    assert (H2 : Q * Q / (981 * / 100 * (Q2R 1 * Q2R 1) * (y1 * y1 * y1))
                 < 1 + / 1000000).
    { apply div_lt_upper; [exact Hu|]. unfold Q. lits. lra. }
    lra. }
  assert (Hg : CorrectedUpstream.guard_denom d = / 1000000).
  { rewrite guard_denom_R.
    destruct (Rlt_dec (Rabs d) (/ 1000000)) as [_|Hge]; [reflexivity|].
    exfalso. apply Hge. apply Rabs_def1; lra. }
  split; [exact Hd|]. split; [exact Hg|].
  rewrite Hg, Sf_R, R_pow_four_thirds by lra.
  assert (Hc : R_pow y1 (/ 3) < 11 / 10).
  { rewrite <- (R_pow_third_cube (11 / 10)) by lra.
    apply R_pow_third_mono. lra. }
  pose proof (R_pow_pos y1 (/ 3) ltac:(lra)) as Hc0.
  set (c := R_pow y1 (/ 3)) in *.
  assert (Hu : 0 < Q2R 1 * y1 * (Q2R 1 * y1) * (y1 * c)).
  { rewrite Q2R_one. apply Rmult_lt_0_compat; nra. }
  assert (Hsf : 0.008 <
                Q2R (3 # 100) * Q2R (3 # 100) * (Q * Q)
                / (Q2R 1 * y1 * (Q2R 1 * y1) * (y1 * c))).
  { apply div_gt_lower; [exact Hu|].
    replace (Q2R 1 * y1 * (Q2R 1 * y1) * (y1 * c))
      with (y1 * y1 * y1 * c) by (rewrite Q2R_one; ring).
    assert (y1 * y1 * y1 * c < 1.0899999 * 1.0899999 * 1.0899999 * (11 / 10))
      by nra.
    unfold Q. lits. lra. }
  remember (Q2R (3 # 100) * Q2R (3 # 100) * (Q * Q)
            / (Q2R 1 * y1 * (Q2R 1 * y1) * (y1 * c))) as sf eqn:Heq.
  clear Heq. lits. lra.
Qed.

(** C2 (as stated) fails on the sign.  For [Q = 3.5643], [b = 1],
    [n = 0.03], [S0 = 0.001], [dx = 0.04391943], [L = 1] the first step of
    [compute_backwater_from_weir] lands just below the critical depth, where
    [1 - Fr**2] is negative and smaller than [1e-6] in magnitude; the divisor
    used there is [+1e-6]; the depth drops below zero and the run returns
    two samples. *)
Lemma guard_replaces_negative_denominator :
  exists y1,
    CorrectedUpstream.compute_backwater_from_weir 2 (Q2R (35643 # 10000))
      (Q2R 1) (Q2R (3 # 100)) (Q2R (1 # 1000)) (Q2R (4391943 # 100000000))
      (Q2R 1)
    = Some ([0; Q2R (4391943 # 100000000)],
            [Q2R (109 # 100) * Q2R (101 # 100); y1], Q2R (109 # 100),
            [Rectangular.Fr (Q2R (35643 # 10000)) (Q2R 1)
               (Q2R (109 # 100) * Q2R (101 # 100))])
    /\ 1 - sqr (Rectangular.Fr (Q2R (35643 # 10000)) (Q2R 1) y1) < 0
    /\ CorrectedUpstream.guard_denom
         (1 - sqr (Rectangular.Fr (Q2R (35643 # 10000)) (Q2R 1) y1))
       = / 1000000.
Proof.
  pose proof near_critical_first_step as H1. cbv zeta in H1.
  set (y1 := _ + _ * _) in H1.
  destruct (near_critical_second_step y1 H1) as (Hd & Hg & Hy2).
  exists y1. split; [|split; [apply Hd|exact Hg]].
  pose proof (corrected_upstream_two_steps (Q2R (35643 # 10000)) (Q2R 1)
                (Q2R (3 # 100)) (Q2R (1 # 1000))
                (Q2R (4391943 # 100000000)) (Q2R 1)) as Hrun.
  cbv zeta in Hrun.
  rewrite (critical_depth_109 (Q2R (35643 # 10000)) eq_refl) in Hrun.
  apply Hrun.
  - lits. lra.
  - fold y1. lra.
  - fold y1. exact Hy2.
Qed.

(** C2 (as the code behaves).  Every loop tests [abs(denom) < 1e-6] before
    it divides by [denom = 1 - Fr**2].  Three loops ([plot_profile],
    [compute_gvf_profile], [compute_gvf_backwater]) leave at once, with their
    variables unchanged, when the test fires, and otherwise divide by [denom]
    itself; [compute_backwater_from_weir] goes on with a divisor of magnitude
    [1e-6] when the test fires and with [denom] itself otherwise.  No division
    is made by a divisor of magnitude below [1e-6]. *)
Theorem denominator_tested_before_division
  (Q b z n S0 dx : R) (s : vars R) (frs : list R) :
  let eps := / 1000000 in
  let d := 1 - sqr (Rectangular.Fr Q b (y s)) in
  let dt := 1 - sqr (Trapezoidal.Fr Q b z (y s)) in
  let gd := CorrectedUpstream.guard_denom d in
  (Rabs d < eps ->
     Interactive.body Q b n S0 dx s = Break 1 s
     /\ SmoothBackwater.body Q b n S0 dx s = Break 1 s)
  /\ (Rabs dt < eps -> Trapezoidal.body Q b z n S0 dx s = Break 1 s)
  /\ (eps <= Rabs d ->
        y (flow_state (Interactive.body Q b n S0 dx s))
        = y s + (S0 - Rectangular.Sf (y s) Q b n) / d * dx
        /\ y (flow_state (SmoothBackwater.body Q b n S0 dx s))
           = y s - (S0 - Rectangular.Sf (y s) Q b n) / d * dx)
  /\ (eps <= Rabs dt ->
        y (flow_state (Trapezoidal.body Q b z n S0 dx s))
        = y s + (S0 - Trapezoidal.Sf Q b z (y s) n) / dt * dx)
  /\ y (fst (flow_state (CorrectedUpstream.body Q b n S0 dx (s, frs))))
     = y s + (S0 - Rectangular.Sf (y s) Q b n) / gd * dx
  /\ eps <= Rabs gd
  /\ (Rabs d < eps -> Rabs gd = eps)
  /\ (eps <= Rabs d -> gd = d).
Proof.
  intros eps d dt gd.
  assert (Heps : Q2R (1 # 1000000) = eps) by (unfold eps; lits; lra).
  split; [intros Hd; split|].
  { unfold Interactive.body. to_R. rewrite Q2R_one, Heps.
    fold d. rewrite (R_ltb_lt (Rabs d) eps Hd). reflexivity. }
  { unfold SmoothBackwater.body. to_R. rewrite Q2R_one, Heps.
    fold d. rewrite (R_ltb_lt (Rabs d) eps Hd). reflexivity. }
  split.
  { intros Hd. unfold Trapezoidal.body. to_R. rewrite Q2R_one, Heps.
    fold dt. rewrite (R_ltb_lt (Rabs dt) eps Hd). reflexivity. }
  split; [intros Hd; split|].
  { unfold Interactive.body. to_R. rewrite Q2R_one, Heps.
    fold d. rewrite (R_ltb_ge (Rabs d) eps Hd). reflexivity. }
  { unfold SmoothBackwater.body. to_R. rewrite Q2R_one, Heps.
    fold d. rewrite (R_ltb_ge (Rabs d) eps Hd).
    destruct (_ || _); reflexivity. }
  split.
  { intros Hd. unfold Trapezoidal.body. to_R. rewrite Q2R_one, Heps.
    fold dt. rewrite (R_ltb_ge (Rabs dt) eps Hd).
    destruct (_ || _); reflexivity. }
  split.
  { unfold CorrectedUpstream.body. to_R. rewrite Q2R_one. fold d. fold gd.
    destruct (_ || _); reflexivity. }
  unfold gd. rewrite guard_denom_R. fold eps.
  destruct (Rlt_dec (Rabs d) eps) as [Hlt|Hge].
  - rewrite Rabs_pos_eq by (unfold eps; lra).
    repeat split; intros; lra.
  - repeat split; intros; lra.
Qed.


(** ** The same tests in binary64 *)

(** The guard of [compute_backwater_from_weir] on a small negative
    denominator, and the guarded residual on a negative trial depth, computed
    with the floating-point operations. *)
Lemma binary64_guards
  (libm_pow : PrimFloat.float -> PrimFloat.float -> PrimFloat.float) :
  @CorrectedUpstream.guard_denom PrimFloat.float (Float_PyNum libm_pow)
    (float_lit (-5 # 10000000)) = float_lit (1 # 1000000)
  /\ @SmoothBackwater.manning_eq PrimFloat.float (Float_PyNum libm_pow)
       (float_lit 10) (float_lit 3) (float_lit (3 # 100))
       (float_lit (1 # 1000)) (float_lit (-1 # 1))
     = float_lit (1000000 # 1).
Proof. split; vm_compute; reflexivity. Qed.

(** In binary64 too, the loop of [compute_gvf_profile] appends only depths
    that are neither [<= 0] nor NaN. *)
Lemma binary64_trapezoidal_depths
  (libm_pow : PrimFloat.float -> PrimFloat.float -> PrimFloat.float)
  (Q b z n S0 dx L y_start : PrimFloat.float) (fuel : nat) (e : loop_exit)
  (s : vars PrimFloat.float) :
  @Trapezoidal.loop PrimFloat.float (Float_PyNum libm_pow) fuel Q b z n S0
    dx L y_start
  = Some (e, s) ->
  exists ys,
    y_vals s = y_start :: ys
    /\ Forall (fun v => PrimFloat.leb v (float_lit 0) = false
                        /\ PrimFloat.is_nan v = false) ys.
Proof.
  intros Hw.
  destruct (@trapezoidal_appends_tested PrimFloat.float (Float_PyNum libm_pow)
              _ _ _ _ _ _ _ _ _ _ _ Hw) as (ys & Hys & Hok).
  exists ys. split; [exact Hys|].
  eapply Forall_impl; [|exact Hok].
  intros v Hv. unfold depth_ok in Hv. apply orb_false_iff in Hv. exact Hv.
Qed.

(** * Further properties of the notebooks *)

(** ** Lists of samples *)

Lemma chained_one {A : Type} (f : A -> A) (a : A) : chained f [a].
Proof.
  intros i u v Hu Hv. destruct i as [|i]; cbn in Hv; [discriminate|].
  destruct i; discriminate.
Qed.

Lemma chained_snoc {A : Type} (f : A -> A) (l : list A) (a : A) :
  chained f (l ++ [a]) -> chained f ((l ++ [a]) ++ [f a]).
Proof.
  intros Hl i u v Hu Hv.
  assert (Hlen : length (l ++ [a]) = S (length l))
    by (rewrite length_app; cbn; lia).
  destruct (Nat.lt_ge_cases (S i) (length (l ++ [a]))) as [Hlt|Hge].
  - rewrite nth_error_app1 in Hu by lia.
    rewrite nth_error_app1 in Hv by lia.
    eapply Hl; eassumption.
  - assert (Hi : (S i < length ((l ++ [a]) ++ [f a]))%nat)
      by (apply nth_error_Some; congruence).
    rewrite length_app in Hi. cbn [length] in Hi.
    assert (i = length l) by lia. subst i.
    rewrite nth_error_app1 in Hu by lia.
    rewrite nth_error_app2 in Hu by lia.
    rewrite Nat.sub_diag in Hu. cbn in Hu.
    rewrite nth_error_app2 in Hv by lia.
    replace (S (length l) - length (l ++ [a]))%nat with 0%nat in Hv by lia.
    cbn in Hv. congruence.
Qed.

Lemma py_last_snoc {A : Type} (l : list A) (a : A) :
  py_last (l ++ [a]) = Some a.
Proof.
  unfold py_last. rewrite length_app. cbn [length].
  rewrite nth_error_app2 by lia.
  replace (length l + 1 - 1 - length l)%nat with 0%nat by lia. reflexivity.
Qed.

Lemma py_first_rev {A : Type} (l : list A) : py_first (rev l) = py_last l.
Proof.
  induction l as [|a l _] using rev_ind; [reflexivity|].
  rewrite rev_app_distr, py_last_snoc. reflexivity.
Qed.

Lemma removelast_snoc {A : Type} (l : list A) (a : A) :
  removelast (l ++ [a]) = l.
Proof. apply removelast_last. Qed.

Lemma snoc_cons_tl {A : Type} (a b c : A) (l r : list A) :
  a :: r = l ++ [b] -> (a :: r) ++ [c] = a :: (r ++ [c]).
Proof. reflexivity. Qed.

(** ** What the loops leave in their lists, in any arithmetic *)

Section Profiles.
Context {F : Type} `{PyNum F}.
Local Open Scope num_scope.

Lemma corrected_upstream_loop_lists (Q b n S0 dx L y_start : F) (fuel : nat)
  (e : loop_exit) (v : vars F) (frs : list F) :
  CorrectedUpstream.loop fuel Q b n S0 dx L y_start = Some (e, (v, frs)) ->
  exists xr yr ys a,
    x_vals v = flit 0 :: xr /\ y_vals v = y_start :: yr
    /\ length xr = length yr
    /\ y_vals v = ys ++ [a]
    /\ frs = map (Rectangular.Fr Q b) ys
    /\ chained (fun u => u + dx) (x_vals v)
    /\ chained (CorrectedUpstream.next_depth Q b n S0 dx) (y_vals v)
    /\ Forall depth_ok yr.
Proof.
  unfold CorrectedUpstream.loop. intros Hw.
  apply (while_inv (CorrectedUpstream.cond L)
           (CorrectedUpstream.body Q b n S0 dx)
           (fun s => exists xr yr xs ys,
              x_vals (fst s) = flit 0 :: xr /\ y_vals (fst s) = y_start :: yr
              /\ length xr = length yr
              /\ x_vals (fst s) = xs ++ [x (fst s)]
              /\ y_vals (fst s) = ys ++ [y (fst s)]
              /\ snd s = map (Rectangular.Fr Q b) ys
              /\ chained (fun u => u + dx) (x_vals (fst s))
              /\ chained (CorrectedUpstream.next_depth Q b n S0 dx)
                   (y_vals (fst s))
              /\ Forall depth_ok yr)
           (fun _ s => exists xr yr ys a,
              x_vals (fst s) = flit 0 :: xr /\ y_vals (fst s) = y_start :: yr
              /\ length xr = length yr
              /\ y_vals (fst s) = ys ++ [a]
              /\ snd s = map (Rectangular.Fr Q b) ys
              /\ chained (fun u => u + dx) (x_vals (fst s))
              /\ chained (CorrectedUpstream.next_depth Q b n S0 dx)
                   (y_vals (fst s))
              /\ Forall depth_ok yr)) in Hw; [exact Hw|..].
  - intros [v0 f0] s1
      (xr & yr & xs & ys & Hx & Hy & Hlen & Hxs & Hys & Hfr & Hcx & Hcy & Hok)
      _ Hb.
    cbn [fst snd] in *.
    unfold CorrectedUpstream.body in Hb. body_cases Hb.
    cbn [fst snd x y x_vals y_vals].
    fold (CorrectedUpstream.next_depth Q b n S0 dx (y v0)) in *.
    exists (xr ++ [x v0 + dx]),
      (yr ++ [CorrectedUpstream.next_depth Q b n S0 dx (y v0)]),
      (x_vals v0), (y_vals v0).
    repeat split.
    + rewrite Hx. reflexivity.
    + rewrite Hy. reflexivity.
    + rewrite !length_app. cbn [length]. lia.
    + rewrite Hfr, Hys, map_app. reflexivity.
    + rewrite Hxs. apply (chained_snoc (fun u => u + dx)).
      rewrite <- Hxs. exact Hcx.
    + rewrite Hys. apply chained_snoc. rewrite <- Hys. exact Hcy.
    + apply Forall_app. split; [exact Hok|].
      constructor; [exact E|constructor].
  - intros [v0 f0]
      (xr & yr & xs & ys & Hx & Hy & Hlen & Hxs & Hys & Hfr & Hcx & Hcy & Hok)
      _.
    cbn [fst snd] in *. exists xr, yr, ys, (y v0). repeat split; assumption.
  - intros [v0 f0] k s1
      (xr & yr & xs & ys & Hx & Hy & Hlen & Hxs & Hys & Hfr & Hcx & Hcy & Hok)
      _ Hb.
    cbn [fst snd] in *.
    unfold CorrectedUpstream.body in Hb. body_cases Hb.
    cbn [fst snd x_vals y_vals].
    exists xr, yr, ys, (y v0). repeat split; assumption.
  - cbn [fst snd x y x_vals y_vals].
    exists [], [], [], []. repeat split; try reflexivity.
    + apply chained_one.
    + apply chained_one.
    + constructor.
Qed.

Lemma trapezoidal_loop_lists (Q b z n S0 dx L y_start : F) (fuel : nat)
  (e : loop_exit) (s : vars F) :
  Trapezoidal.loop fuel Q b z n S0 dx L y_start = Some (e, s) ->
  exists xr yr,
    x_vals s = flit 0 :: xr /\ y_vals s = y_start :: yr
    /\ length xr = length yr
    /\ chained (fun u => u + dx) (x_vals s)
    /\ chained (Trapezoidal.next_depth Q b z n S0 dx) (y_vals s)
    /\ Forall depth_ok yr.
Proof.
  unfold Trapezoidal.loop. intros Hw.
  apply (while_inv (Trapezoidal.cond L) (Trapezoidal.body Q b z n S0 dx)
           (fun s => exists xr yr xs ys,
              x_vals s = flit 0 :: xr /\ y_vals s = y_start :: yr
              /\ length xr = length yr
              /\ x_vals s = xs ++ [x s] /\ y_vals s = ys ++ [y s]
              /\ chained (fun u => u + dx) (x_vals s)
              /\ chained (Trapezoidal.next_depth Q b z n S0 dx) (y_vals s)
              /\ Forall depth_ok yr)
           (fun _ s => exists xr yr,
              x_vals s = flit 0 :: xr /\ y_vals s = y_start :: yr
              /\ length xr = length yr
              /\ chained (fun u => u + dx) (x_vals s)
              /\ chained (Trapezoidal.next_depth Q b z n S0 dx) (y_vals s)
              /\ Forall depth_ok yr)) in Hw; [exact Hw|..].
  - intros s0 s1
      (xr & yr & xs & ys & Hx & Hy & Hlen & Hxs & Hys & Hcx & Hcy & Hok) _ Hb.
    unfold Trapezoidal.body in Hb. body_cases Hb.
    cbn [x y x_vals y_vals].
    fold (Trapezoidal.next_depth Q b z n S0 dx (y s0)) in *.
    exists (xr ++ [x s0 + dx]),
      (yr ++ [Trapezoidal.next_depth Q b z n S0 dx (y s0)]),
      (x_vals s0), (y_vals s0).
    repeat split.
    + rewrite Hx. reflexivity.
    + rewrite Hy. reflexivity.
    + rewrite !length_app. cbn [length]. lia.
    + rewrite Hxs. apply (chained_snoc (fun u => u + dx)).
      rewrite <- Hxs. exact Hcx.
    + rewrite Hys. apply chained_snoc. rewrite <- Hys. exact Hcy.
    + apply Forall_app. split; [exact Hok|].
      constructor; [exact E0|constructor].
  - intros s0
      (xr & yr & xs & ys & Hx & Hy & Hlen & Hxs & Hys & Hcx & Hcy & Hok) _.
    exists xr, yr. repeat split; assumption.
  - intros s0 k s1
      (xr & yr & xs & ys & Hx & Hy & Hlen & Hxs & Hys & Hcx & Hcy & Hok) _ Hb.
    unfold Trapezoidal.body in Hb. body_cases Hb; cbn [x_vals y_vals];
      exists xr, yr; repeat split; assumption.
  - cbn [x y x_vals y_vals].
    exists [], [], [], []. repeat split; try reflexivity.
    + apply chained_one.
    + apply chained_one.
    + constructor.
Qed.

Lemma interactive_loop_lists (Q b n S0 L dx y_start : F) (fuel : nat)
  (e : loop_exit) (s : vars F) :
  Interactive.loop fuel Q b n S0 L dx y_start = Some (e, s) ->
  exists xr yr,
    x_vals s = flit 0 :: xr /\ y_vals s = y_start :: yr
    /\ length xr = length yr
    /\ chained (fun u => u + dx) (x_vals s)
    /\ chained (Interactive.next_depth Q b n S0 dx) (y_vals s).
Proof.
  unfold Interactive.loop. intros Hw.
  apply (while_inv (Interactive.cond L) (Interactive.body Q b n S0 dx)
           (fun s => exists xr yr xs ys,
              x_vals s = flit 0 :: xr /\ y_vals s = y_start :: yr
              /\ length xr = length yr
              /\ x_vals s = xs ++ [x s] /\ y_vals s = ys ++ [y s]
              /\ chained (fun u => u + dx) (x_vals s)
              /\ chained (Interactive.next_depth Q b n S0 dx) (y_vals s))
           (fun _ s => exists xr yr,
              x_vals s = flit 0 :: xr /\ y_vals s = y_start :: yr
              /\ length xr = length yr
              /\ chained (fun u => u + dx) (x_vals s)
              /\ chained (Interactive.next_depth Q b n S0 dx) (y_vals s)))
    in Hw; [exact Hw|..].
  - intros s0 s1
      (xr & yr & xs & ys & Hx & Hy & Hlen & Hxs & Hys & Hcx & Hcy) _ Hb.
    unfold Interactive.body in Hb. body_cases Hb.
    cbn [x y x_vals y_vals].
    fold (Interactive.next_depth Q b n S0 dx (y s0)) in *.
    exists (xr ++ [x s0 + dx]),
      (yr ++ [Interactive.next_depth Q b n S0 dx (y s0)]),
      (x_vals s0), (y_vals s0).
    repeat split.
    + rewrite Hx. reflexivity.
    + rewrite Hy. reflexivity.
    + rewrite !length_app. cbn [length]. lia.
    + rewrite Hxs. apply (chained_snoc (fun u => u + dx)).
      rewrite <- Hxs. exact Hcx.
    + rewrite Hys. apply chained_snoc. rewrite <- Hys. exact Hcy.
  - intros s0 (xr & yr & xs & ys & Hx & Hy & Hlen & Hxs & Hys & Hcx & Hcy) _.
    exists xr, yr. repeat split; assumption.
  - intros s0 k s1
      (xr & yr & xs & ys & Hx & Hy & Hlen & Hxs & Hys & Hcx & Hcy) _ Hb.
    unfold Interactive.body in Hb. body_cases Hb; cbn [x_vals y_vals];
      exists xr, yr; repeat split; assumption.
  - cbn [x y x_vals y_vals].
    exists [], [], [], []. repeat split; try reflexivity; apply chained_one.
Qed.

Lemma smooth_backwater_loop_lists (Q b n S0 y_end y_stop dx : F)
  (fuel : nat) (e : loop_exit) (s : vars F) :
  SmoothBackwater.loop fuel Q b n S0 y_end y_stop dx = Some (e, s) ->
  exists xr yr,
    x_vals s = flit 0 :: xr /\ y_vals s = y_end :: yr
    /\ length xr = length yr
    /\ chained (fun u => u - dx) (x_vals s)
    /\ chained (SmoothBackwater.next_depth Q b n S0 dx) (y_vals s)
    /\ Forall depth_ok yr.
Proof.
  unfold SmoothBackwater.loop. intros Hw.
  apply (while_inv (SmoothBackwater.cond y_stop)
           (SmoothBackwater.body Q b n S0 dx)
           (fun s => exists xr yr xs ys,
              x_vals s = flit 0 :: xr /\ y_vals s = y_end :: yr
              /\ length xr = length yr
              /\ x_vals s = xs ++ [x s] /\ y_vals s = ys ++ [y s]
              /\ chained (fun u => u - dx) (x_vals s)
              /\ chained (SmoothBackwater.next_depth Q b n S0 dx) (y_vals s)
              /\ Forall depth_ok yr)
           (fun _ s => exists xr yr,
              x_vals s = flit 0 :: xr /\ y_vals s = y_end :: yr
              /\ length xr = length yr
              /\ chained (fun u => u - dx) (x_vals s)
              /\ chained (SmoothBackwater.next_depth Q b n S0 dx) (y_vals s)
              /\ Forall depth_ok yr)) in Hw; [exact Hw|..].
  - intros s0 s1
      (xr & yr & xs & ys & Hx & Hy & Hlen & Hxs & Hys & Hcx & Hcy & Hok) _ Hb.
    unfold SmoothBackwater.body in Hb. body_cases Hb.
    cbn [x y x_vals y_vals].
    fold (SmoothBackwater.next_depth Q b n S0 dx (y s0)) in *.
    exists (xr ++ [x s0 - dx]),
      (yr ++ [SmoothBackwater.next_depth Q b n S0 dx (y s0)]),
      (x_vals s0), (y_vals s0).
    repeat split.
    + rewrite Hx. reflexivity.
    + rewrite Hy. reflexivity.
    + rewrite !length_app. cbn [length]. lia.
    + rewrite Hxs. apply (chained_snoc (fun u => u - dx)).
      rewrite <- Hxs. exact Hcx.
    + rewrite Hys. apply chained_snoc. rewrite <- Hys. exact Hcy.
    + apply Forall_app. split; [exact Hok|].
      constructor; [exact E0|constructor].
  - intros s0
      (xr & yr & xs & ys & Hx & Hy & Hlen & Hxs & Hys & Hcx & Hcy & Hok) _.
    exists xr, yr. repeat split; assumption.
  - intros s0 k s1
      (xr & yr & xs & ys & Hx & Hy & Hlen & Hxs & Hys & Hcx & Hcy & Hok) _ Hb.
    unfold SmoothBackwater.body in Hb. body_cases Hb; cbn [x_vals y_vals];
      exists xr, yr; repeat split; assumption.
  - cbn [x y x_vals y_vals].
    exists [], [], [], []. repeat split; try reflexivity.
    + apply chained_one.
    + apply chained_one.
    + constructor.
Qed.
End Profiles.

Lemma py_last_cons {A : Type} (a : A) (l : list A) :
  exists u, py_last (a :: l) = Some u.
Proof.
  unfold py_last.
  destruct (nth_error (a :: l) (length (a :: l) - 1)) as [u|] eqn:Hu;
    [exists u; reflexivity|].
  apply nth_error_None in Hu. cbn [length] in Hu. lia.
Qed.

(** ** The lists the integrators return *)

(** X1.  In any arithmetic, what [compute_gvf_profile] returns is a pair of
    lists of the same length (so the data frame it builds from them is well
    formed) that start with [(0, 1.01 * y_crit)]; each later [x] is the one
    before plus [dx], each later depth is one explicit Euler step from the
    one before and passed the test [not (y <= 0 or isnan(y))]; and the
    [y_vals[-1]] that [plot_gvf] prints exists. *)
Theorem compute_gvf_profile_samples {F : Type} `{PyNum F}
  (fsolve : (F -> F) -> F -> F) (fuel : nat) (Q b z n S0 dx L : F)
  (xs ys : list F) (yc : F) :
  Trapezoidal.compute_gvf_profile fsolve fuel Q b z n S0 dx L
  = Some (xs, ys, yc) ->
  yc = Trapezoidal.compute_critical_depth fsolve Q b z
  /\ length xs = length ys
  /\ py_first xs = Some (flit 0)
  /\ py_first ys = Some (yc * flit (101 # 100))%num
  /\ chained (fun u => u + dx)%num xs
  /\ chained (Trapezoidal.next_depth Q b z n S0 dx) ys
  /\ Forall depth_ok (tl ys)
  /\ exists a,
       Trapezoidal.plot_gvf fsolve fuel Q b z n S0 dx L
       = Some (xs, ys, yc, Some a).
Proof.
  unfold Trapezoidal.plot_gvf, Trapezoidal.compute_gvf_profile.
  destruct (Trapezoidal.loop _ _ _ _ _ _ _ _ _) as [[e s]|] eqn:Hw;
    [|discriminate].
  intros Hr. inversion Hr; subst. clear Hr.
  destruct (trapezoidal_loop_lists _ _ _ _ _ _ _ _ _ _ _ Hw)
    as (xr & yr & Hx & Hy & Hlen & Hcx & Hcy & Hok).
  rewrite Hx, Hy in *. repeat split; try assumption.
  - cbn [length]. lia.
  - destruct (py_last_cons
                (Trapezoidal.compute_critical_depth fsolve Q b z
                 * flit (101 # 100))%num yr) as [a Ha].
    exists a. rewrite Ha. reflexivity.
Qed.

(** X2.  In any arithmetic, [compute_backwater_from_weir] returns lists
    [x_vals] and [y_vals] of the same length that start with
    [(0, 1.01 * y_crit)] and advance by [dx] and by one Euler step (with the
    guarded denominator); every appended depth passed the depth test;
    [fr_vals] is one shorter and holds the Froude numbers of all samples but
    the last; and the [y_vals[-1]] that [plot_backwater_profile] prints
    exists. *)
Theorem compute_backwater_from_weir_samples {F : Type} `{PyNum F}
  (fuel : nat) (Q b n S0 dx L : F) (xs ys : list F) (yc : F)
  (frs : list F) :
  CorrectedUpstream.compute_backwater_from_weir fuel Q b n S0 dx L
  = Some (xs, ys, yc, frs) ->
  yc = Rectangular.compute_critical_depth Q b
  /\ length xs = length ys
  /\ py_first xs = Some (flit 0)
  /\ py_first ys = Some (yc * flit (101 # 100))%num
  /\ chained (fun u => u + dx)%num xs
  /\ chained (CorrectedUpstream.next_depth Q b n S0 dx) ys
  /\ Forall depth_ok (tl ys)
  /\ frs = map (Rectangular.Fr Q b) (removelast ys)
  /\ exists a,
       CorrectedUpstream.plot_backwater_profile fuel Q b n S0 dx L
       = Some (xs, ys, yc, Some a).
Proof.
  unfold CorrectedUpstream.plot_backwater_profile,
    CorrectedUpstream.compute_backwater_from_weir.
  destruct (CorrectedUpstream.loop _ _ _ _ _ _ _ _) as [[e [v f0]]|] eqn:Hw;
    [|discriminate].
  intros Hr. inversion Hr; subst. clear Hr.
  destruct (corrected_upstream_loop_lists _ _ _ _ _ _ _ _ _ _ _ Hw)
    as (xr & yr & ys & a & Hx & Hy & Hlen & Hys & Hfr & Hcx & Hcy & Hok).
  repeat split; try assumption.
  - rewrite Hx, Hy. cbn [length]. lia.
  - rewrite Hx. reflexivity.
  - rewrite Hy. reflexivity.
  - rewrite Hy. exact Hok.
  - rewrite Hys, removelast_snoc. exact Hfr.
  - rewrite Hy.
    destruct (py_last_cons
                (Rectangular.compute_critical_depth Q b
                 * flit (101 # 100))%num yr) as [u Hu].
    exists u. rewrite Hu. reflexivity.
Qed.

Lemma compute_backwater_from_weir_samples_witness :
  exists y1 fr0,
    CorrectedUpstream.compute_backwater_from_weir 2 (Q2R (35643 # 10000))
      (Q2R 1) (Q2R (3 # 100)) (Q2R (1 # 100)) (Q2R 2) (Q2R 1)
    = Some ([0; Q2R 2], [Q2R (109 # 100) * Q2R (101 # 100); y1],
            Q2R (109 # 100), [fr0])
    /\ chained
         (CorrectedUpstream.next_depth (Q2R (35643 # 10000)) (Q2R 1)
            (Q2R (3 # 100)) (Q2R (1 # 100)) (Q2R 2))
         [Q2R (109 # 100) * Q2R (101 # 100); y1]
    /\ [fr0]
       = map (Rectangular.Fr (Q2R (35643 # 10000)) (Q2R 1))
           (removelast [Q2R (109 # 100) * Q2R (101 # 100); y1]).
Proof.
  destruct (corrected_upstream_run (Q2R (35643 # 10000)) (Q2R (3 # 100))
              eq_refl eq_refl) as (y1 & fr0 & Hr & _).
  exists y1, fr0. split; [exact Hr|].
  pose proof (compute_backwater_from_weir_samples _ _ _ _ _ _ _ _ _ _ _ Hr)
    as Hs.
  split; [apply Hs|apply Hs].
Defined.

(** X3.  In any arithmetic, [compute_gvf_backwater] returns two lists of the
    same length that end with the start [(0, y_end)]; read from the end, each
    [x] is the one after it minus [dx] and each depth is one backward Euler
    step from the one after it; every depth but the last passed the depth
    test; and the [x_vals[0]] of the reach length exists. *)
Theorem compute_gvf_backwater_samples {F : Type} `{PyNum F}
  (fuel : nat) (Q b n S0 y_end y_stop dx : F) (xs ys : list F) :
  SmoothBackwater.compute_gvf_backwater fuel Q b n S0 y_end y_stop dx
  = Some (xs, ys) ->
  length xs = length ys
  /\ py_last xs = Some (flit 0)
  /\ py_last ys = Some y_end
  /\ chained (fun u => u - dx)%num (rev xs)
  /\ chained (SmoothBackwater.next_depth Q b n S0 dx) (rev ys)
  /\ Forall depth_ok (removelast ys)
  /\ exists a, py_first xs = Some a.
Proof.
  unfold SmoothBackwater.compute_gvf_backwater.
  destruct (SmoothBackwater.loop _ _ _ _ _ _ _ _) as [[e s]|] eqn:Hw;
    [|discriminate].
  intros Hr. inversion Hr; subst. clear Hr.
  destruct (smooth_backwater_loop_lists _ _ _ _ _ _ _ _ _ _ Hw)
    as (xr & yr & Hx & Hy & Hlen & Hcx & Hcy & Hok).
  rewrite !rev_involutive. rewrite Hx, Hy in *.
  repeat split; try assumption.
  - rewrite !length_rev. cbn [length]. lia.
  - cbn [rev]. apply py_last_snoc.
  - cbn [rev]. apply py_last_snoc.
  - cbn [rev]. rewrite removelast_snoc. apply Forall_rev, Hok.
  - rewrite py_first_rev. apply py_last_cons.
Qed.

(** A backward run of one step: [Q = 1], [b = 1], [n = 0.03],
    [S0 = 0.001], from depth [1] to the stopping depth [0.9999] with
    [dx = 1]. *)
Lemma unit_channel_backward_run :
  exists y1,
    SmoothBackwater.compute_gvf_backwater 2 1 1 (3 / 100) (1 / 1000)
      1 (9999 / 10000) 1 = Some ([0 - 1; 0], [y1; 1])
    /\ 0 < y1 < 1.
Proof.
  destruct unit_channel_values as [Hfr HSf].
  pose proof (smooth_backwater_one_step 1 1 (3 / 100) (1 / 1000) 1
                (9999 / 10000) 1) as Hs.
  cbv zeta in Hs. rewrite Hfr, HSf in Hs.
  unfold SmoothBackwater.compute_gvf_backwater.
  eexists. rewrite Hs.
  - cbn [x_vals y_vals rev app]. split; [reflexivity|lra].
  - lra.
  - rewrite Rabs_pos_eq; lra.
  - lra.
Qed.

Lemma compute_gvf_backwater_samples_witness :
  exists y1,
    SmoothBackwater.compute_gvf_backwater 2 1 1 (3 / 100) (1 / 1000)
      1 (9999 / 10000) 1 = Some ([0 - 1; 0], [y1; 1])
    /\ py_last [y1; 1] = Some 1
    /\ chained (SmoothBackwater.next_depth 1 1 (3 / 100) (1 / 1000) 1)
         (rev [y1; 1]).
Proof.
  destruct unit_channel_backward_run as (y1 & Hr & _).
  exists y1. split; [exact Hr|].
  pose proof (compute_gvf_backwater_samples _ _ _ _ _ _ _ _ _ _ Hr) as Hs.
  split; [apply Hs|apply Hs].
Defined.

(** ** The trapezoidal cross-section *)

Lemma half_eq : Q2R (5 # 10) = / 2.
Proof. lits. lra. Qed.

Lemma R_pow_half (u : R) : 0 < u -> R_pow u (/ 2) = sqrt u.
Proof.
  intros Hu. unfold R_pow. destruct (Rlt_dec 0 u); [|lra].
  apply Rpower_sqrt, Hu.
Qed.

Lemma sqrt_slope_gt (z : R) : 0 <= z -> z < sqrt (1 + z * z).
Proof.
  intros Hz. rewrite <- (sqrt_square z Hz) at 1.
  apply sqrt_lt_1_alt. nra.
Qed.

Lemma trapezoidal_geometry_R (b z v : R) :
  Trapezoidal.area b z v = b * v + z * (v * v)
  /\ Trapezoidal.perimeter b z v = b + 2 * v * sqrt (1 + z * z)
  /\ Trapezoidal.top_width b z v = b + 2 * z * v.
Proof.
  unfold Trapezoidal.area, Trapezoidal.perimeter, Trapezoidal.top_width.
  to_R. rewrite half_eq, Q2R_one.
  rewrite R_pow_half by nra. lits.
  repeat split; lra.
Qed.

(** Area, wetted perimeter and top width of a trapezoid are positive. *)
Lemma trapezoidal_section_pos (b z v : R) :
  0 < b -> 0 <= z -> 0 < v ->
  0 < Trapezoidal.area b z v
  /\ 0 < Trapezoidal.perimeter b z v
  /\ 0 < Trapezoidal.top_width b z v.
Proof.
  intros Hb Hz Hv.
  destruct (trapezoidal_geometry_R b z v) as (HA & HP & HT).
  pose proof (sqrt_slope_gt z Hz) as Hs.
  rewrite HA, HP, HT. repeat split; nra.
Qed.

(** The hydraulic radius [A / P] is positive and below the depth. *)
Lemma hydraulic_radius_below_depth (b z v : R) :
  0 < b -> 0 <= z -> 0 < v ->
  0 < Trapezoidal.hydraulic_radius b z v < v.
Proof.
  intros Hb Hz Hv.
  destruct (trapezoidal_geometry_R b z v) as (HA & HP & HT).
  destruct (trapezoidal_section_pos b z v Hb Hz Hv) as (HA0 & HP0 & _).
  pose proof (sqrt_slope_gt z Hz) as Hs.
  split.
  - unfold Trapezoidal.hydraulic_radius. to_R.
    apply Rdiv_lt_0_compat; assumption.
  - unfold Trapezoidal.hydraulic_radius. to_R.
    apply div_lt_upper; [exact HP0|]. rewrite HA, HP.
    set (r := sqrt (1 + z * z)) in *.
    assert (Hvv : 0 < v * v) by nra.
    assert (H1 : z * (v * v) < r * (v * v))
      by (apply Rmult_lt_compat_r; assumption).
    assert (H2 : 0 < r * (v * v)) by nra.
    lra.
Qed.

(** X5.  For a bottom width [b > 0], a side slope [z >= 0] and a depth
    [y > 0], the area, the wetted perimeter and the top width are positive,
    and the hydraulic radius [A / P] lies strictly between [0] and the depth:
    taking [R = y], as the rectangular notebooks do, overstates it. *)
Theorem trapezoidal_geometry_bounds (b z v : R) :
  0 < b -> 0 <= z -> 0 < v ->
  0 < Trapezoidal.area b z v
  /\ 0 < Trapezoidal.perimeter b z v
  /\ 0 < Trapezoidal.top_width b z v
  /\ 0 < Trapezoidal.hydraulic_radius b z v < v.
Proof.
  intros Hb Hz Hv.
  destruct (trapezoidal_section_pos b z v Hb Hz Hv) as (HA & HP & HT).
  pose proof (hydraulic_radius_below_depth b z v Hb Hz Hv) as HR.
  split; [exact HA|]. split; [exact HP|]. split; [exact HT|exact HR].
Qed.

Lemma trapezoidal_geometry_bounds_witness :
  0 < 3 /\ 0 <= 1 /\ 0 < 2
  /\ 0 < Trapezoidal.hydraulic_radius 3 1 2 < 2.
Proof.
  assert (H1 : 0 < 3) by lra.
  assert (H2 : 0 <= 1) by lra.
  assert (H3 : 0 < 2) by lra.
  split; [exact H1|]. split; [exact H2|]. split; [exact H3|].
  exact (proj2 (proj2 (proj2 (trapezoidal_geometry_bounds 3 1 2 H1 H2 H3)))).
Defined.

(** The square of the Froude number of the trapezoidal notebook is
    [Q**2 * T / (g * A**3)]. *)
Lemma trapezoidal_Fr_sqr (Q b z v : R) :
  0 < b -> 0 <= z -> 0 < v ->
  sqr (Trapezoidal.Fr Q b z v)
  = Q * Q * Trapezoidal.top_width b z v
    / (981 * / 100 * cube (Trapezoidal.area b z v)).
Proof.
  intros Hb Hz Hv.
  destruct (trapezoidal_section_pos b z v Hb Hz Hv) as (HA & _ & HT).
  unfold Trapezoidal.Fr. to_R. lits.
  set (A := Trapezoidal.area b z v) in *.
  set (T := Trapezoidal.top_width b z v) in *.
  assert (Hg : 0 < 981 * / 100 * A / T).
  { apply Rdiv_lt_0_compat; [nra|exact HT]. }
  pose proof (sqrt_lt_R0 _ Hg) as Hs.
  pose proof (sqrt_sqrt _ (Rlt_le _ _ Hg)) as Hss.
  set (r := sqrt (981 * / 100 * A / T)) in *.
  assert (Hr : r * r * T = 981 * / 100 * A).
  { rewrite Hss. field. lra. }
  assert (HA3 : 0 < A * A * A) by (repeat apply Rmult_lt_0_compat; lra).
  replace (981 * / 100 * (A * A * A)) with (A * A * (r * r * T))
    by (rewrite Hr; ring).
  field. repeat split; lra.
Qed.

Lemma trapezoidal_Fr_pos (Q b z v : R) :
  0 < Q -> 0 < b -> 0 <= z -> 0 < v -> 0 < Trapezoidal.Fr Q b z v.
Proof.
  intros HQ Hb Hz Hv.
  destruct (trapezoidal_section_pos b z v Hb Hz Hv) as (HA & _ & HT).
  unfold Trapezoidal.Fr. to_R. lits.
  apply Rdiv_lt_0_compat; [exact HQ|].
  apply Rmult_lt_0_compat; [exact HA|].
  apply sqrt_lt_R0. apply Rdiv_lt_0_compat; [nra|exact HT].
Qed.

(** X6.  For [Q > 0], [b > 0], [z >= 0] and a depth [y > 0], the residual
    [Q**2 * T - g * A**3] that [compute_critical_depth] hands to the solver
    vanishes exactly where the Froude number [Fr] is one, is positive
    exactly where the flow is supercritical ([Fr > 1]) and negative exactly
    where it is subcritical; and the denominator [1 - Fr**2] of the loop is
    minus the residual over [g * A**3]. *)
Theorem trapezoidal_residual_and_froude (Q b z v : R) :
  0 < Q -> 0 < b -> 0 <= z -> 0 < v ->
  (Trapezoidal.func Q b z v = 0 <-> Trapezoidal.Fr Q b z v = 1)
  /\ (0 < Trapezoidal.func Q b z v <-> 1 < Trapezoidal.Fr Q b z v)
  /\ (Trapezoidal.func Q b z v < 0 <-> Trapezoidal.Fr Q b z v < 1)
  /\ 1 - sqr (Trapezoidal.Fr Q b z v)
     = - Trapezoidal.func Q b z v
       / (Trapezoidal.g * cube (Trapezoidal.area b z v)).
Proof.
  intros HQ Hb Hz Hv.
  destruct (trapezoidal_section_pos b z v Hb Hz Hv) as (HA & _ & HT).
  pose proof (trapezoidal_Fr_pos Q b z v HQ Hb Hz Hv) as Hf.
  pose proof (trapezoidal_Fr_sqr Q b z v Hb Hz Hv) as Hff.
  unfold Trapezoidal.func. to_R. lits.
  set (A := Trapezoidal.area b z v) in *.
  set (T := Trapezoidal.top_width b z v) in *.
  set (f := Trapezoidal.Fr Q b z v) in *.
  assert (HD : 0 < 981 * / 100 * (A * A * A)).
  { assert (0 < A * A * A) by (repeat apply Rmult_lt_0_compat; lra). lra. }
  set (D := 981 * / 100 * (A * A * A)) in *.
  assert (HN : Q * Q * T = f * f * D).
  { rewrite Hff. field. lra. }
  rewrite HN.
  split; [|split; [|split]].
  - split; intros Hx.
    + assert (H1 : f * f = 1) by nra. nra.
    + rewrite Hx. lra.
  - split; intros Hx.
    + assert (H1 : 1 < f * f) by nra. nra.
    + assert (H1 : 1 < f * f) by nra. nra.
  - split; intros Hx.
    + assert (H1 : f * f < 1) by nra. nra.
    + assert (H1 : f * f < 1) by nra. nra.
  - unfold D. field. lra.
Qed.

Lemma trapezoidal_residual_and_froude_witness :
  0 < 10 /\ 0 < 3 /\ 0 <= 1 /\ 0 < 2
  /\ (Trapezoidal.func 10 3 1 2 < 0 <-> Trapezoidal.Fr 10 3 1 2 < 1).
Proof.
  assert (H1 : 0 < 10) by lra.
  assert (H2 : 0 < 3) by lra.
  assert (H3 : 0 <= 1) by lra.
  assert (H4 : 0 < 2) by lra.
  split; [exact H1|]. split; [exact H2|]. split; [exact H3|].
  split; [exact H4|].
  exact (proj1 (proj2 (proj2
    (trapezoidal_residual_and_froude 10 3 1 2 H1 H2 H3 H4)))).
Defined.

Lemma R_pow_lt_base (u v a : R) :
  0 < a -> 0 < u < v -> R_pow u a < R_pow v a.
Proof.
  intros Ha [Hu Huv]. unfold R_pow.
  destruct (Rlt_dec 0 u); [|lra]. destruct (Rlt_dec 0 v); [|lra].
  apply Rlt_Rpower_l; lra.
Qed.

(** X7.  At side slope [z = 0] the trapezoidal notebook and the rectangular
    notebooks compute the same Froude number, but not the same friction
    slope: the trapezoidal one uses the hydraulic radius [b*y / (b + 2*y)],
    the rectangular ones use [R = y], and for [n] and [Q] different from zero
    the rectangular friction slope is strictly the smaller. *)
Theorem trapezoidal_at_zero_side_slope (Q b n v : R) :
  0 < b -> 0 < v ->
  Trapezoidal.Fr Q b 0 v = Rectangular.Fr Q b v
  /\ Trapezoidal.hydraulic_radius b 0 v = b * v / (b + 2 * v)
  /\ (n <> 0 -> Q <> 0 ->
      Rectangular.Sf v Q b n < Trapezoidal.Sf Q b 0 v n).
Proof.
  intros Hb Hv.
  destruct (trapezoidal_geometry_R b 0 v) as (HA & HP & HT).
  assert (HA' : Trapezoidal.area b 0 v = b * v) by (rewrite HA; lra).
  assert (HT' : Trapezoidal.top_width b 0 v = b) by (rewrite HT; lra).
  assert (HP' : Trapezoidal.perimeter b 0 v = b + 2 * v).
  { rewrite HP. replace (1 + 0 * 0) with 1 by lra. rewrite sqrt_1. lra. }
  assert (HR : Trapezoidal.hydraulic_radius b 0 v = b * v / (b + 2 * v)).
  { unfold Trapezoidal.hydraulic_radius. to_R. rewrite HA', HP'.
    reflexivity. }
  split; [|split; [exact HR|]].
  - unfold Trapezoidal.Fr, Rectangular.Fr. to_R. rewrite HA', HT'.
    replace (Q2R (981 # 100) * (b * v) / b) with (Q2R (981 # 100) * v)
      by (field; lra).
    reflexivity.
  - intros Hn HQ.
    destruct (hydraulic_radius_below_depth b 0 v Hb ltac:(lra) Hv)
      as (Hr0 & Hrv).
    unfold Trapezoidal.Sf, Rectangular.Sf. to_R. rewrite HA'.
    set (rh := Trapezoidal.hydraulic_radius b 0 v) in *.
    assert (Hp : R_pow rh (Q2R 4 / Q2R 3) < R_pow v (Q2R 4 / Q2R 3)).
    { apply R_pow_lt_base; [rewrite four_thirds_eq; lra|lra]. }
    pose proof (R_pow_pos rh (Q2R 4 / Q2R 3) Hr0) as Hp0.
    assert (HN : 0 < n * n * (Q * Q)).
    { apply Rmult_lt_0_compat; apply Rsqr_pos_lt; assumption. }
    assert (HAA : 0 < b * v * (b * v)) by nra.
    unfold Rdiv. apply Rmult_lt_compat_l; [exact HN|].
    apply Rinv_lt_contravar.
    + apply Rmult_lt_0_compat; apply Rmult_lt_0_compat; try nra.
    + apply Rmult_lt_compat_l; assumption.
Qed.

Lemma trapezoidal_at_zero_side_slope_witness :
  0 < 3 /\ 0 < 1
  /\ Trapezoidal.Fr 10 3 0 1 = Rectangular.Fr 10 3 1.
Proof.
  assert (H1 : 0 < 3) by lra.
  assert (H2 : 0 < 1) by lra.
  split; [exact H1|]. split; [exact H2|].
  exact (proj1 (trapezoidal_at_zero_side_slope 10 3 (3 / 100) 1 H1 H2)).
Defined.

(** ** Froude number, critical depth and the flow regime *)

Lemma Fr_pos (Q b v : R) : 0 < Q -> 0 < b -> 0 < v -> 0 < Rectangular.Fr Q b v.
Proof.
  intros HQ Hb Hv. unfold Rectangular.Fr. to_R. lits.
  apply Rdiv_lt_0_compat; [exact HQ|].
  apply Rmult_lt_0_compat; [nra|]. apply sqrt_lt_R0. lra.
Qed.

Lemma cube_lt_inv (u v : R) : 0 < u -> 0 < v -> u * u * u < v * v * v -> u < v.
Proof.
  intros Hu Hv H. destruct (Rlt_or_le u v) as [Hlt|Hle]; [exact Hlt|].
  exfalso. destruct Hle as [Hlt|Heq].
  - pose proof (cube_lt v u (conj Hv Hlt)). lra.
  - subst. lra.
Qed.

Lemma Interactive_flow_classification_R (v c : R) :
  (Interactive.flow_classification v c = Interactive.Subcritical <-> c < v)
  /\ (Interactive.flow_classification v c = Interactive.Supercritical
      <-> v < c)
  /\ (Interactive.flow_classification v c = Interactive.Critical <-> v = c).
Proof.
  unfold Interactive.flow_classification. to_R. unfold R_ltb.
  destruct (Rlt_dec c v), (Rlt_dec v c);
    repeat split; intros; try discriminate; try reflexivity; lra.
Qed.

(** X8.  For [Q > 0], [b > 0] and a depth [y > 0], with [y_crit] the closed
    form of [compute_critical_depth]: the Froude number is one at [y_crit],
    and [flow_classification] answers 'Subcritical', 'Critical' or
    'Supercritical' exactly when the Froude number at [y] is below, equal to
    or above one. *)
Theorem classification_matches_froude (Q b v : R) :
  0 < Q -> 0 < b -> 0 < v ->
  let y_crit := Rectangular.compute_critical_depth Q b in
  Rectangular.Fr Q b y_crit = 1
  /\ (Interactive.flow_classification v y_crit = Interactive.Subcritical
      <-> Rectangular.Fr Q b v < 1)
  /\ (Interactive.flow_classification v y_crit = Interactive.Critical
      <-> Rectangular.Fr Q b v = 1)
  /\ (Interactive.flow_classification v y_crit = Interactive.Supercritical
      <-> 1 < Rectangular.Fr Q b v).
Proof.
  intros HQ Hb Hv y_crit.
  destruct (critical_depth_cubed Q b ltac:(lra) ltac:(lra)) as [Hc Hc3].
  fold y_crit in Hc, Hc3.
  destruct (Interactive_flow_classification_R v y_crit) as (Hsub & Hsup & Hcr).
  rewrite Hsub, Hsup, Hcr.
  assert (Hv3 : 0 < v * v * v) by (repeat apply Rmult_lt_0_compat; lra).
  assert (Hg : 0 < 981 * / 100 * (b * b)) by nra.
  assert (Hfv : sqr (Rectangular.Fr Q b v)
                = y_crit * y_crit * y_crit / (v * v * v)).
  { rewrite Fr_sqr_R by lra. rewrite Hc3. field. lra. }
  pose proof (Fr_pos Q b v HQ Hb Hv) as Hf. unfold sqr in Hfv. to_R.
  set (f := Rectangular.Fr Q b v) in *.
  assert (Hcc : y_crit * y_crit * y_crit = f * f * (v * v * v)).
  { rewrite Hfv. field. lra. }
  split; [|split; [|split]].
  - pose proof (Fr_sqr_at_multiple Q b 1 ltac:(lra) ltac:(lra) ltac:(lra))
      as H1.
    rewrite Rmult_1_r in H1. fold y_crit in H1. unfold sqr in H1. to_R.
    pose proof (Fr_pos Q b y_crit HQ Hb Hc) as Hfc.
    set (fc := Rectangular.Fr Q b y_crit) in *.
    change (fc * fc = 1 / (1 * 1 * 1)) in H1.
    assert (fc * fc = 1) by lra. nra.
  - split; intros Hx.
    + pose proof (cube_lt y_crit v (conj Hc Hx)) as H3.
      assert (f * f < 1) by nra. nra.
    + apply cube_lt_inv; try assumption.
      assert (f * f < 1) by nra. nra.
  - split; intros Hx.
    + subst v. assert (f * f = 1) by nra. nra.
    + rewrite Hx in Hcc.
      destruct (Rtotal_order v y_crit) as [Hlt|[Heq|Hgt]]; [|exact Heq|].
      * pose proof (cube_lt v y_crit (conj Hv Hlt)). lra.
      * pose proof (cube_lt y_crit v (conj Hc Hgt)). lra.
  - split; intros Hx.
    + pose proof (cube_lt v y_crit (conj Hv Hx)) as H3.
      assert (1 < f * f) by nra. nra.
    + apply cube_lt_inv; try assumption.
      assert (1 < f * f) by nra. nra.
Qed.

Lemma classification_matches_froude_witness :
  0 < 10 /\ 0 < 3 /\ 0 < 2
  /\ (Interactive.flow_classification 2
        (Rectangular.compute_critical_depth 10 3) = Interactive.Subcritical
      <-> Rectangular.Fr 10 3 2 < 1).
Proof.
  assert (H1 : 0 < 10) by lra.
  assert (H2 : 0 < 3) by lra.
  assert (H3 : 0 < 2) by lra.
  split; [exact H1|]. split; [exact H2|]. split; [exact H3|].
  exact (proj1 (proj2 (classification_matches_froude 10 3 2 H1 H2 H3))).
Defined.

(** ** What [plot_profile] reports *)

Lemma interactive_first_body_continue (Q b n S0 dx : R) :
  Q <> 0 -> b <> 0 ->
  let y_start := Rectangular.compute_critical_depth Q b * Q2R (105 # 100) in
  1 - sqr (Rectangular.Fr Q b y_start) = 157625 / 1157625
  /\ exists s1,
       Interactive.body Q b n S0 dx (mk_vars 0 y_start [0] [y_start])
       = Continue s1.
Proof.
  intros HQ Hb y_start.
  assert (Hd : 1 - sqr (Rectangular.Fr Q b y_start) = 157625 / 1157625).
  { unfold y_start. rewrite Fr_sqr_at_multiple by (lits; lra). lits. lra. }
  split; [exact Hd|].
  eexists. apply interactive_first_body.
  rewrite Hd, Rabs_pos_eq; lra.
Qed.

(** X9.  For [Q] and [b] different from zero and [dx > 0], [plot_profile]
    returns; the critical depth it prints is positive; the flow type it
    prints for its start [1.05 * y_crit] is always 'Subcritical'; the
    denominator [1 - Fr**2] of its first step is [1 - 1/1.05**3] whatever the
    inputs, so the first step is never stopped by the singularity test: for
    [L > 0] the plotted profile has at least two samples. *)
Theorem plot_profile_start
  (fsolve : (R -> R) -> R -> R) (Q b n S0 L dx : R)
  (weir_type : Interactive.weir) (weir_height C_b C_d : R) (N : nat) :
  Q <> 0 -> b <> 0 -> 0 < dx -> L <= INR N * dx ->
  exists rep,
    Interactive.plot_profile fsolve (S N) Q b n S0 L dx weir_type
      weir_height C_b C_d = Some rep
    /\ 0 < Interactive.r_y_crit rep
    /\ Interactive.r_flow_type rep = Interactive.Subcritical
    /\ 1 - sqr (Rectangular.Fr Q b (Interactive.r_y_crit rep * Q2R (105 # 100)))
       = 157625 / 1157625
    /\ (0 < L -> (2 <= length (Interactive.r_y_vals rep))%nat).
Proof.
  intros HQ Hb Hdx HL.
  destruct (critical_depth_cubed Q b HQ Hb) as [Hc _].
  destruct (interactive_first_body_continue Q b n S0 dx HQ Hb)
    as (Hd & s1 & Hb1).
  unfold Interactive.plot_profile.
  set (y_crit := Rectangular.compute_critical_depth Q b) in *.
  set (y_start := fmul y_crit _).
  change (y_crit * Q2R (105 # 100)) with y_start in Hd, Hb1.
  destruct (interactive_loop_bounded Q b n S0 L dx y_start N Hdx HL)
    as (e & s & Hw & _).
  rewrite Hw. eexists. split; [reflexivity|].
  cbn [Interactive.r_y_crit Interactive.r_flow_type Interactive.r_y_vals].
  split; [exact Hc|]. split; [|split; [exact Hd|]].
  - apply Interactive_flow_classification_R. unfold y_start. to_R. lits. lra.
  - intros HL0. unfold Interactive.loop in Hw.
    change (@flit R R_PyNum 0%Q) with (Q2R 0) in Hw.
    rewrite Q2R_zero in Hw.
    assert (Hc0 : Interactive.cond L (mk_vars 0 y_start [0] [y_start])
                  = true).
    { unfold Interactive.cond. cbn [x]. to_R. apply R_ltb_lt, HL0. }
    rewrite (while_step _ _ N _ _ Hc0 Hb1) in Hw.
    apply interactive_samples_grow in Hw.
    destruct Hw as (xs & ys & _ & Hys). rewrite Hys.
    unfold Interactive.body in Hb1. body_cases Hb1.
    cbn [y_vals]. rewrite !length_app. cbn [length]. lia.
Qed.

Lemma plot_profile_start_witness :
  10 <> 0 /\ 3 <> 0 /\ 0 < 1 /\ 100 <= INR 100 * 1
  /\ exists rep,
       Interactive.plot_profile (fun _ x0 => x0) 101 10 3 (3 / 100)
         (1 / 1000) 100 1 Interactive.broad_crested 1 (17 / 10) (6 / 10)
       = Some rep
       /\ 0 < Interactive.r_y_crit rep
       /\ Interactive.r_flow_type rep = Interactive.Subcritical
       /\ 1 - sqr (Rectangular.Fr 10 3
                     (Interactive.r_y_crit rep * Q2R (105 # 100)))
          = 157625 / 1157625
       /\ (0 < 100 -> (2 <= length (Interactive.r_y_vals rep))%nat).
Proof.
  assert (H1 : 10 <> 0) by lra.
  assert (H2 : 3 <> 0) by lra.
  assert (H3 : 0 < 1) by lra.
  assert (H4 : 100 <= INR 100 * 1).
  { rewrite INR_IZR_INZ. cbn [Z.of_nat Pos.of_succ_nat Pos.succ]. lra. }
  split; [exact H1|]. split; [exact H2|]. split; [exact H3|].
  split; [exact H4|].
  exact (plot_profile_start (fun _ x0 => x0) 10 3 (3 / 100) (1 / 1000) 100 1
           Interactive.broad_crested 1 (17 / 10) (6 / 10) 100 H1 H2 H3 H4).
Defined.

Lemma three_halves_eq : Q2R (15 # 10) = / 3 * (3 / 2) + 1.
Proof. lits. lra. Qed.

(** [y_crit ** 1.5] is [Q / (b * sqrt g)]. *)
Lemma critical_depth_pow_15 (Q b : R) :
  0 < Q -> 0 < b ->
  R_pow (Rectangular.compute_critical_depth Q b) (Q2R (15 # 10))
  = Q / (b * sqrt (981 / 100)).
Proof.
  intros HQ Hb.
  destruct (critical_depth_cubed Q b ltac:(lra) ltac:(lra)) as [Hc Hc3].
  set (c := Rectangular.compute_critical_depth Q b) in *.
  assert (Hsg : 0 < sqrt (981 / 100)) by (apply sqrt_lt_R0; lra).
  pose proof (sqrt_sqrt (981 / 100) ltac:(lra)) as Hss.
  set (sg := sqrt (981 / 100)) in *.
  assert (Ht : 0 < Q / (b * sg)) by (apply Rdiv_lt_0_compat; nra).
  set (t := Q / (b * sg)) in *.
  (* both sides are positive and have the same square *)
  assert (Hp : 0 < R_pow c (Q2R (15 # 10))) by (apply R_pow_pos, Hc).
  assert (Hsq : R_pow c (Q2R (15 # 10)) * R_pow c (Q2R (15 # 10))
                = c * c * c).
  { unfold R_pow. destruct (Rlt_dec 0 c); [|lra].
    rewrite <- Rpower_plus.
    replace (Q2R (15 # 10) + Q2R (15 # 10)) with (INR 3)
      by (cbn [INR]; lits; lra).
    rewrite Rpower_pow by lra. cbn [pow]. lra. }
  assert (Htt : t * t = c * c * c).
  { rewrite Hc3. unfold t.
    replace (Q / (b * sg) * (Q / (b * sg)))
      with (Q * Q / (b * b * (sg * sg))) by (field; lra).
    rewrite Hss. field. lra. }
  set (p := R_pow c (Q2R (15 # 10))) in *.
  assert (p * p = t * t) by lra. nra.
Qed.

(** X10.  For [Q > 0] and [b > 0] the weir discharge [plot_profile]
    estimates from the critical depth is a fixed multiple of the discharge
    [Q] it was given: [C_b * Q / sqrt(g)] for a broad-crested weir and
    [(2/3) * sqrt(2) * C_d * Q] for a sharp-crested one.  It depends neither
    on the width [b] nor on the weir height. *)
Theorem weir_discharge_closed_form
  (fsolve : (R -> R) -> R -> R) (fuel : nat) (Q b n S0 L dx : R)
  (weir_type : Interactive.weir) (weir_height C_b C_d : R)
  (rep : Interactive.report R) :
  0 < Q -> 0 < b ->
  Interactive.plot_profile fsolve fuel Q b n S0 L dx weir_type weir_height
    C_b C_d = Some rep ->
  Interactive.r_Q_weir rep
  = match weir_type with
    | Interactive.broad_crested => C_b * Q / sqrt (981 / 100)
    | Interactive.sharp_crested => 2 / 3 * sqrt 2 * C_d * Q
    end.
Proof.
  intros HQ Hb. unfold Interactive.plot_profile.
  destruct (Interactive.loop _ _ _ _ _ _ _ _) as [[e s]|]; [|discriminate].
  intros Hr. inversion Hr; subst. clear Hr. cbn [Interactive.r_Q_weir].
  assert (Hsg : 0 < sqrt (981 / 100)) by (apply sqrt_lt_R0; lra).
  destruct weir_type; to_R;
    change (R_pow (R_pow (Q * Q / (Q2R (981 # 100) * (b * b)))
                     (Q2R 1 / Q2R 3)) (Q2R (15 # 10)))
      with (R_pow (Rectangular.compute_critical_depth Q b) (Q2R (15 # 10)));
    rewrite (critical_depth_pow_15 Q b HQ Hb).
  - field. lra.
  - replace (Q2R 2 * Q2R (981 # 100)) with (2 * (981 / 100)) by (lits; lra).
    rewrite sqrt_mult by lra. lits. field. lra.
Qed.

Lemma plot_profile_returns
  (fsolve : (R -> R) -> R -> R) (Q b n S0 L dx : R)
  (weir_type : Interactive.weir) (weir_height C_b C_d : R) (N : nat) :
  0 < dx -> L <= INR N * dx ->
  exists rep,
    Interactive.plot_profile fsolve (S N) Q b n S0 L dx weir_type
      weir_height C_b C_d = Some rep.
Proof.
  intros Hdx HL. unfold Interactive.plot_profile.
  set (y_start := fmul _ _).
  destruct (interactive_loop_bounded Q b n S0 L dx y_start N Hdx HL)
    as (e & s & Hw & _).
  rewrite Hw. eexists. reflexivity.
Qed.

Lemma weir_discharge_closed_form_witness :
  0 < 10 /\ 0 < 3
  /\ exists rep,
       Interactive.plot_profile (fun _ x0 => x0) 2 10 3 (3 / 100) (1 / 1000)
         1 1 Interactive.sharp_crested 1 (17 / 10) (6 / 10) = Some rep
       /\ Interactive.r_Q_weir rep = 2 / 3 * sqrt 2 * (6 / 10) * 10.
Proof.
  assert (H1 : 0 < 10) by lra.
  assert (H2 : 0 < 3) by lra.
  split; [exact H1|]. split; [exact H2|].
  destruct (plot_profile_returns (fun _ x0 => x0) 10 3 (3 / 100) (1 / 1000)
              1 1 Interactive.sharp_crested 1 (17 / 10) (6 / 10) 1)
    as [rep Hrep].
  { lra. }
  { cbn [INR]. lra. }
  exists rep. split; [exact Hrep|].
  exact (weir_discharge_closed_form _ _ _ _ _ _ _ _ _ _ _ _ _ H1 H2 Hrep).
Defined.

(** X4.  In any arithmetic, the profile [plot_profile] plots is a pair of
    lists of the same length that start with [(0, 1.05 * y_crit)]; each later
    [x] is the one before plus [dx] and each later depth is one explicit
    Euler step from the one before (whatever its sign: this loop tests no
    depth); the depths it prints are the closed-form critical depth and the
    solver's normal depth. *)
Theorem plot_profile_samples {F : Type} `{PyNum F}
  (fsolve : (F -> F) -> F -> F) (fuel : nat) (Q b n S0 L dx : F)
  (weir_type : Interactive.weir) (weir_height C_b C_d : F)
  (rep : Interactive.report F) :
  Interactive.plot_profile fsolve fuel Q b n S0 L dx weir_type weir_height
    C_b C_d = Some rep ->
  Interactive.r_y_crit rep = Rectangular.compute_critical_depth Q b
  /\ Interactive.r_y_normal rep
     = Interactive.compute_normal_depth fsolve Q b n S0
  /\ length (Interactive.r_x_vals rep) = length (Interactive.r_y_vals rep)
  /\ py_first (Interactive.r_x_vals rep) = Some (flit 0)
  /\ py_first (Interactive.r_y_vals rep)
     = Some (Rectangular.compute_critical_depth Q b * flit (105 # 100))%num
  /\ chained (fun u => u + dx)%num (Interactive.r_x_vals rep)
  /\ chained (Interactive.next_depth Q b n S0 dx)
       (Interactive.r_y_vals rep).
Proof.
  unfold Interactive.plot_profile.
  destruct (Interactive.loop _ _ _ _ _ _ _ _) as [[e s]|] eqn:Hw;
    [|discriminate].
  intros Hr. inversion Hr; subst. clear Hr.
  cbn [Interactive.r_y_crit Interactive.r_y_normal Interactive.r_x_vals
       Interactive.r_y_vals].
  destruct (interactive_loop_lists _ _ _ _ _ _ _ _ _ _ Hw)
    as (xr & yr & Hx & Hy & Hlen & Hcx & Hcy).
  repeat split; try assumption.
  - rewrite Hx, Hy. cbn [length]. lia.
  - rewrite Hx. reflexivity.
  - rewrite Hy. reflexivity.
Qed.

Lemma plot_profile_samples_witness :
  exists rep,
    Interactive.plot_profile (fun _ x0 => x0) 2 10 3 (3 / 100) (1 / 1000)
      1 1 Interactive.sharp_crested 1 (17 / 10) (6 / 10) = Some rep
    /\ length (Interactive.r_x_vals rep) = length (Interactive.r_y_vals rep)
    /\ chained (Interactive.next_depth 10 3 (3 / 100) (1 / 1000) 1)
         (Interactive.r_y_vals rep).
Proof.
  destruct (plot_profile_returns (fun _ x0 => x0) 10 3 (3 / 100) (1 / 1000)
              1 1 Interactive.sharp_crested 1 (17 / 10) (6 / 10) 1)
    as [rep Hrep].
  { lra. }
  { cbn [INR]. lra. }
  exists rep. split; [exact Hrep|].
  pose proof (plot_profile_samples _ _ _ _ _ _ _ _ _ _ _ _ _ Hrep) as Hs.
  split; apply Hs.
Defined.

Lemma compute_gvf_profile_returns
  (fsolve : (R -> R) -> R -> R) (Q b z n S0 dx L : R) (N : nat) :
  0 < dx -> L <= INR N * dx ->
  exists xs ys yc,
    Trapezoidal.compute_gvf_profile fsolve (S N) Q b z n S0 dx L
    = Some (xs, ys, yc).
Proof.
  intros Hdx HL. unfold Trapezoidal.compute_gvf_profile.
  set (y_start := fmul _ _).
  destruct (trapezoidal_loop_bounded Q b z n S0 dx L y_start N Hdx HL)
    as (e & s & Hw & _).
  rewrite Hw. eexists _, _, _. reflexivity.
Qed.

Lemma compute_gvf_profile_samples_witness :
  exists xs ys yc,
    Trapezoidal.compute_gvf_profile (fun _ x0 => x0) 101 10 3 1 (3 / 100)
      (1 / 1000) 1 100 = Some (xs, ys, yc)
    /\ length xs = length ys
    /\ chained (Trapezoidal.next_depth 10 3 1 (3 / 100) (1 / 1000) 1) ys
    /\ Forall depth_ok (tl ys).
Proof.
  destruct (compute_gvf_profile_returns (fun _ x0 => x0) 10 3 1 (3 / 100)
              (1 / 1000) 1 100 100) as (xs & ys & yc & Hr).
  { lra. }
  { rewrite INR_IZR_INZ. cbn [Z.of_nat Pos.of_succ_nat Pos.succ]. lra. }
  exists xs, ys, yc. split; [exact Hr|].
  pose proof (compute_gvf_profile_samples _ _ _ _ _ _ _ _ _ _ _ _ Hr) as Hs.
  repeat split; apply Hs.
Defined.

(** ** Normal depth *)

Lemma two_thirds_eq : Q2R 2 / Q2R 3 = 2 / 3.
Proof. lits. lra. Qed.

Lemma five_thirds_eq : Q2R 5 / Q2R 3 = 1 + 2 / 3.
Proof. lits. lra. Qed.

Lemma R_pow_succ (u a : R) : 0 < u -> R_pow u (1 + a) = u * R_pow u a.
Proof.
  intros Hu. unfold R_pow. destruct (Rlt_dec 0 u); [|lra].
  rewrite Rpower_plus, Rpower_1 by lra. reflexivity.
Qed.

Lemma R_pow_two_thirds_sqr (u : R) :
  0 < u -> R_pow u (2 / 3) * R_pow u (2 / 3) = R_pow u (1 + / 3).
Proof.
  intros Hu. unfold R_pow. destruct (Rlt_dec 0 u); [|lra].
  rewrite <- Rpower_plus. f_equal. lra.
Qed.

Lemma R_pow_pow (u a c : R) : 0 < u -> R_pow (R_pow u a) c = R_pow u (a * c).
Proof.
  intros Hu. pose proof (R_pow_pos u a Hu) as Hp.
  unfold R_pow in *. destruct (Rlt_dec 0 u); [|lra].
  destruct (Rlt_dec 0 (Rpower u a)); [|lra]. apply Rpower_mult.
Qed.

Lemma R_pow_1 (u : R) : 0 < u -> R_pow u 1 = u.
Proof.
  intros Hu. unfold R_pow. destruct (Rlt_dec 0 u); [|lra].
  apply Rpower_1, Hu.
Qed.

(** The two residuals on a positive depth. *)
Lemma manning_residuals_R (Q b n S0 v : R) :
  0 < v ->
  SmoothBackwater.manning_eq Q b n S0 v
  = 1 / n * (b * v) * R_pow v (2 / 3) * sqrt S0 - Q
  /\ Interactive.func Q b n S0 v
     = 1 / n * (b * v) * R_pow v (2 / 3) * sqrt S0 - Q.
Proof.
  intros Hv. unfold SmoothBackwater.manning_eq, Interactive.func. to_R.
  rewrite Q2R_zero, Q2R_one, two_thirds_eq, five_thirds_eq.
  rewrite (R_leb_gt v 0 Hv), R_pow_succ by exact Hv.
  split; [reflexivity|ring].
Qed.

(** X11.  For [Q], [b], [n], [S0] and a depth [y], all positive, the Manning
    residuals of the two [compute_normal_depth] functions have the same
    value at [y], and [y] is a root exactly when it is
    [(n * Q / (b * sqrt(S0))) ** (3/5)]: with [R = y] the normal depth the
    solver looks for has a closed form, and it is the only positive root. *)
Theorem normal_depth_closed_form (Q b n S0 v : R) :
  0 < Q -> 0 < b -> 0 < n -> 0 < S0 -> 0 < v ->
  Interactive.func Q b n S0 v = SmoothBackwater.manning_eq Q b n S0 v
  /\ (SmoothBackwater.manning_eq Q b n S0 v = 0
      <-> v = R_pow (n * Q / (b * sqrt S0)) (3 / 5)).
Proof.
  intros HQ Hb Hn HS Hv.
  destruct (manning_residuals_R Q b n S0 v Hv) as [Hm Hf].
  split; [rewrite Hm, Hf; reflexivity|]. rewrite Hm.
  pose proof (sqrt_lt_R0 S0 HS) as Hs. set (s := sqrt S0) in *.
  assert (Hc : 0 < n * Q / (b * s)) by (apply Rdiv_lt_0_compat; nra).
  set (c := n * Q / (b * s)) in *.
  assert (Hp53 : v * R_pow v (2 / 3) = R_pow v (5 / 3)).
  { rewrite <- R_pow_succ by exact Hv. f_equal. lra. }
  assert (Hres : 1 / n * (b * v) * R_pow v (2 / 3) * s - Q
                 = b * s / n * (R_pow v (5 / 3) - c)).
  { rewrite <- Hp53. unfold c. field. repeat split; lra. }
  rewrite Hres.
  assert (Hk : 0 < b * s / n) by (apply Rdiv_lt_0_compat; nra).
  split.
  - intros H0.
    assert (Hpc : R_pow v (5 / 3) = c) by nra.
    rewrite <- Hpc, R_pow_pow by exact Hv.
    replace (5 / 3 * (3 / 5)) with 1 by lra. symmetry. apply R_pow_1, Hv.
  - intros ->. rewrite R_pow_pow by exact Hc.
    replace (3 / 5 * (5 / 3)) with 1 by lra. rewrite R_pow_1 by exact Hc.
    lra.
Qed.

Lemma normal_depth_closed_form_witness :
  0 < 10 /\ 0 < 3 /\ 0 < 3 / 100 /\ 0 < 1 / 1000 /\ 0 < 2
  /\ (SmoothBackwater.manning_eq 10 3 (3 / 100) (1 / 1000) 2 = 0
      <-> 2 = R_pow (3 / 100 * 10 / (3 * sqrt (1 / 1000))) (3 / 5)).
Proof.
  assert (H1 : 0 < 10) by lra.
  assert (H2 : 0 < 3) by lra.
  assert (H3 : 0 < 3 / 100) by lra.
  assert (H4 : 0 < 1 / 1000) by lra.
  assert (H5 : 0 < 2) by lra.
  split; [exact H1|]. split; [exact H2|]. split; [exact H3|].
  split; [exact H4|]. split; [exact H5|].
  exact (proj2 (normal_depth_closed_form 10 3 (3 / 100) (1 / 1000) 2
                  H1 H2 H3 H4 H5)).
Defined.

(** ** The direction of a step *)

(** The friction slope falls as the depth grows. *)
Lemma Sf_decreasing (Q b n u v : R) :
  Q <> 0 -> b <> 0 -> n <> 0 -> 0 < u < v ->
  Rectangular.Sf v Q b n < Rectangular.Sf u Q b n.
Proof.
  intros HQ Hb Hn [Hu Huv]. rewrite !Sf_R.
  assert (Hq : 0 < Q * Q) by (apply (Rsqr_pos_lt Q HQ)).
  assert (Hnn : 0 < n * n) by (apply (Rsqr_pos_lt n Hn)).
  assert (Hbb : 0 < b * b) by (apply (Rsqr_pos_lt b Hb)).
  pose proof (R_pow_pos u (1 + / 3) Hu) as Hpu.
  pose proof (R_pow_lt_base u v (1 + / 3) ltac:(lra) (conj Hu Huv)) as Hp.
  set (pu := R_pow u (1 + / 3)) in *. set (pv := R_pow v (1 + / 3)) in *.
  assert (Hu2 : 0 < u * u) by nra.
  assert (Huv2 : u * u < v * v) by nra.
  assert (Hdu : 0 < b * u * (b * u) * pu).
  { replace (b * u * (b * u)) with (b * b * (u * u)) by ring.
    apply Rmult_lt_0_compat; [apply Rmult_lt_0_compat|]; assumption. }
  assert (Hd : b * u * (b * u) * pu < b * v * (b * v) * pv).
  { replace (b * u * (b * u) * pu) with (b * b * (u * u * pu)) by ring.
    replace (b * v * (b * v) * pv) with (b * b * (v * v * pv)) by ring.
    apply Rmult_lt_compat_l; [exact Hbb|].
    apply Rmult_le_0_lt_compat; lra. }
  unfold Rdiv. apply Rmult_lt_compat_l; [nra|].
  apply Rinv_lt_contravar; [|exact Hd]. apply Rmult_lt_0_compat; lra.
Qed.

(** At a positive root of the Manning residual the friction slope equals
    the bed slope. *)
Lemma Sf_at_normal_depth (Q b n S0 v : R) :
  0 < b -> 0 < n -> 0 < S0 -> 0 < v ->
  SmoothBackwater.manning_eq Q b n S0 v = 0 ->
  Rectangular.Sf v Q b n = S0.
Proof.
  intros Hb Hn HS Hv Hroot.
  destruct (manning_residuals_R Q b n S0 v Hv) as [Hm _].
  rewrite Hm in Hroot. rewrite Sf_R, <- R_pow_two_thirds_sqr by exact Hv.
  pose proof (R_pow_pos v (2 / 3) Hv) as Hp. set (p := R_pow v (2 / 3)) in *.
  pose proof (sqrt_sqrt S0 (Rlt_le _ _ HS)) as Hss.
  set (s := sqrt S0) in *.
  assert (HQ : Q = 1 / n * (b * v) * p * s) by lra.
  rewrite HQ, <- Hss. field. repeat split; lra.
Qed.

(** Above the critical depth the flow is subcritical: [1 - Fr**2 > 0]. *)
Lemma subcritical_above_critical_depth (Q b v : R) :
  Q <> 0 -> b <> 0 -> Rectangular.compute_critical_depth Q b < v ->
  0 < 1 - sqr (Rectangular.Fr Q b v).
Proof.
  intros HQ Hb Hv.
  destruct (critical_depth_cubed Q b HQ Hb) as [Hc Hc3].
  set (c := Rectangular.compute_critical_depth Q b) in *.
  assert (Hbb : 0 < b * b) by (apply (Rsqr_pos_lt b Hb)).
  pose proof (cube_lt c v (conj Hc Hv)) as H3.
  assert (Hc30 : 0 < c * c * c) by (repeat apply Rmult_lt_0_compat; lra).
  rewrite Fr_sqr_R by lra.
  replace (Q * Q / (981 * / 100 * (b * b) * (v * v * v)))
    with (c * c * c / (v * v * v)).
  - assert (c * c * c / (v * v * v) < 1); [|lra].
    apply Rmult_lt_reg_r with (v * v * v); [lra|].
    unfold Rdiv. rewrite Rmult_assoc, Rinv_l by lra. lra.
  - rewrite Hc3. field. repeat split; lra.
Qed.

Lemma step_sign (a d dx : R) :
  0 < d -> 0 < dx ->
  (a < 0 -> a / d * dx < 0) /\ (a = 0 -> a / d * dx = 0)
  /\ (0 < a -> 0 < a / d * dx).
Proof.
  intros Hd Hdx. pose proof (Rinv_0_lt_compat d Hd) as Hi.
  assert (Hk : 0 < / d * dx) by (apply Rmult_lt_0_compat; assumption).
  unfold Rdiv. rewrite Rmult_assoc. set (k := / d * dx) in *.
  split; [|split]; intros Ha; nra.
Qed.

(** X12.  Let [y_n] be a positive root of the Manning residual and [y] a
    depth above the critical depth, with positive [Q], [b], [n], [S0] and
    [dx].  A forward step of [compute_backwater_from_weir] moves the depth
    away from [y_n] (down below it, up above it), a backward step of
    [compute_gvf_backwater] moves it towards [y_n], and at [y = y_n] both
    leave the depth unchanged. *)
Theorem steps_relative_to_normal_depth (Q b n S0 dx y_n v : R) :
  0 < Q -> 0 < b -> 0 < n -> 0 < S0 -> 0 < dx -> 0 < y_n ->
  SmoothBackwater.manning_eq Q b n S0 y_n = 0 ->
  Rectangular.compute_critical_depth Q b < v ->
  (v < y_n ->
   CorrectedUpstream.next_depth Q b n S0 dx v < v
   /\ v < SmoothBackwater.next_depth Q b n S0 dx v)
  /\ (v = y_n ->
      CorrectedUpstream.next_depth Q b n S0 dx v = v
      /\ SmoothBackwater.next_depth Q b n S0 dx v = v)
  /\ (y_n < v ->
      v < CorrectedUpstream.next_depth Q b n S0 dx v
      /\ SmoothBackwater.next_depth Q b n S0 dx v < v).
Proof.
  intros HQ Hb Hn HS Hdx Hyn Hroot Hv.
  pose proof (Sf_at_normal_depth Q b n S0 y_n Hb Hn HS Hyn Hroot) as Hsf.
  assert (HQ0 : Q <> 0) by lra. assert (Hb0 : b <> 0) by lra.
  assert (Hn0 : n <> 0) by lra.
  destruct (critical_depth_cubed Q b HQ0 Hb0) as [Hc _].
  pose proof (subcritical_above_critical_depth Q b v HQ0 Hb0 Hv) as Hd.
  pose proof (guard_denom_pos _ Hd) as Hgd.
  unfold CorrectedUpstream.next_depth, SmoothBackwater.next_depth. to_R.
  rewrite Q2R_one.
  set (d := 1 - Rectangular.Fr Q b v * Rectangular.Fr Q b v) in *.
  set (gd := CorrectedUpstream.guard_denom d) in *.
  set (a := S0 - Rectangular.Sf v Q b n).
  destruct (step_sign a gd dx Hgd Hdx) as (Gn & Gz & Gp).
  destruct (step_sign a d dx Hd Hdx) as (Dn & Dz & Dp).
  split; [|split]; intros Hcmp.
  - assert (Ha : a < 0).
    { assert (Hvv : 0 < v < y_n) by (split; lra).
      pose proof (Sf_decreasing Q b n v y_n HQ0 Hb0 Hn0 Hvv).
      unfold a. to_R. lra. }
    specialize (Gn Ha). specialize (Dn Ha). lra.
  - assert (Ha : a = 0) by (unfold a; rewrite Hcmp, Hsf; lra).
    specialize (Gz Ha). specialize (Dz Ha). lra.
  - assert (Ha : 0 < a).
    { assert (Hvv : 0 < y_n < v) by (split; lra).
      pose proof (Sf_decreasing Q b n y_n v HQ0 Hb0 Hn0 Hvv).
      unfold a. to_R. lra. }
    specialize (Gp Ha). specialize (Dp Ha). lra.
Qed.

Lemma unit_channel_normal_depth :
  SmoothBackwater.manning_eq 1 1 1 1 1 = 0
  /\ Rectangular.compute_critical_depth 1 1 < 1.
Proof.
  split.
  - destruct (manning_residuals_R 1 1 1 1 1 ltac:(lra)) as [Hm _].
    rewrite Hm, R_pow_one, sqrt_1. lra.
  - destruct (critical_depth_cubed 1 1 ltac:(lra) ltac:(lra)) as [Hc Hc3].
    apply cube_lt_inv; [exact Hc|lra|]. rewrite Hc3. lra.
Qed.

Lemma steps_relative_to_normal_depth_witness :
  0 < 1 /\ SmoothBackwater.manning_eq 1 1 1 1 1 = 0
  /\ Rectangular.compute_critical_depth 1 1 < 2
  /\ 1 < 2
  /\ 2 < CorrectedUpstream.next_depth 1 1 1 1 1 2
  /\ SmoothBackwater.next_depth 1 1 1 1 1 2 < 2.
Proof.
  destruct unit_channel_normal_depth as [Hroot Hc].
  assert (H1 : 0 < 1) by lra.
  assert (Hc2 : Rectangular.compute_critical_depth 1 1 < 2) by lra.
  assert (H12 : 1 < 2) by lra.
  split; [exact H1|]. split; [exact Hroot|]. split; [exact Hc2|].
  split; [exact H12|].
  exact (proj2 (proj2 (steps_relative_to_normal_depth 1 1 1 1 1 1 2
                         H1 H1 H1 H1 H1 H1 Hroot Hc2)) H12).
Defined.

(** ** The backward profile from an exact normal depth *)








(** ** The first step of [compute_backwater_from_weir] *)

(** The body of the loop, with the new depth named. *)
Lemma corrected_upstream_body_next {F : Type} `{PyNum F} (Q b n S0 dx : F)
  (v : vars F) (frs : list F) :
  let y' := CorrectedUpstream.next_depth Q b n S0 dx (y v) in
  let x' := (x v + dx)%num in
  CorrectedUpstream.body Q b n S0 dx (v, frs)
  = if ((y' <=? flit 0)%num || fisnan y')%bool
    then Break 1 (mk_vars x' y' (x_vals v) (y_vals v), frs)
    else Continue (mk_vars x' y' (x_vals v ++ [x']) (y_vals v ++ [y']),
                   frs ++ [Rectangular.Fr Q b (y v)]).
Proof. reflexivity. Qed.

(** At the start depth [1.01 * y_crit] the denominator is
    [1 - 1/1.01**3 = 30301/1030301], which the guard leaves alone. *)
Lemma corrected_upstream_start_step (Q b n S0 dx : R) :
  Q <> 0 -> b <> 0 ->
  let y_start := Rectangular.compute_critical_depth Q b * Q2R (101 # 100) in
  CorrectedUpstream.next_depth Q b n S0 dx y_start
  = y_start
    + (S0 - Rectangular.Sf y_start Q b n) * (1030301 / 30301) * dx.
Proof.
  intros HQ Hb y_start.
  assert (Hk : 0 < Q2R (101 # 100)) by (lits; lra).
  pose proof (Fr_sqr_at_multiple Q b (Q2R (101 # 100)) HQ Hb Hk) as Hfr.
  fold y_start in Hfr. unfold CorrectedUpstream.next_depth.
  replace (flit 1 - sqr (Rectangular.Fr Q b y_start))%num
    with (30301 / 1030301).
  - rewrite guard_denom_R.
    destruct (Rlt_dec (Rabs (30301 / 1030301)) (/ 1000000)) as [Hlt|_].
    + rewrite Rabs_pos_eq in Hlt; lra.
    + to_R. field.
  - rewrite Hfr. to_R. lits. field.
Qed.

(** The sample lists of the forward loop never shrink. *)
Lemma corrected_upstream_loop_grows (Q b n S0 dx L : R) (k fuel : nat)
  (s0 : vars R * list R) (e : loop_exit) (s : vars R * list R) :
  (k <= length (x_vals (fst s0)))%nat ->
  while fuel (CorrectedUpstream.cond L) (CorrectedUpstream.body Q b n S0 dx)
    s0 = Some (e, s) ->
  (k <= length (x_vals (fst s)))%nat.
Proof.
  intros Hk.
  apply (while_inv (CorrectedUpstream.cond L)
           (CorrectedUpstream.body Q b n S0 dx)
           (fun s => (k <= length (x_vals (fst s)))%nat)
           (fun _ s => (k <= length (x_vals (fst s)))%nat)).
  - intros [v f] s1 Hs _ Hb. rewrite corrected_upstream_body_next in Hb.
    cbv zeta in Hb. destruct (_ || _)%bool; [discriminate|].
    inversion Hb; subst s1. cbn [fst x_vals] in *.
    rewrite length_app. lia.
  - intros s1 Hs _. exact Hs.
  - intros [v f] j s1 Hs _ Hb. rewrite corrected_upstream_body_next in Hb.
    cbv zeta in Hb. destruct (_ || _)%bool; [|discriminate].
    inversion Hb; subst s1. exact Hs.
  - exact Hk.
Qed.

(** X14.  For [Q], [b] not zero and [L > 0], the first step of
    [compute_backwater_from_weir] divides by [1 - 1/1.01**3], so that the
    depth after it is
    [y1 = y_start + (S0 - Sf(y_start)) * (1030301/30301) * dx].  If
    [y1 <= 0] the function returns the start sample alone, with an empty
    [fr_vals], and [plot_backwater_profile] prints the start depth
    [1.01 * y_crit] as the depth at the upstream end; if [y1 > 0] every
    returned profile has at least two samples. *)
Theorem backwater_from_weir_first_step (Q b n S0 dx L : R) :
  let y_crit := Rectangular.compute_critical_depth Q b in
  let y_start := y_crit * Q2R (101 # 100) in
  let y1 :=
    y_start + (S0 - Rectangular.Sf y_start Q b n) * (1030301 / 30301) * dx in
  Q <> 0 -> b <> 0 -> 0 < L ->
  CorrectedUpstream.next_depth Q b n S0 dx y_start = y1
  /\ (y1 <= 0 ->
      forall fuel,
        CorrectedUpstream.compute_backwater_from_weir (S fuel) Q b n S0 dx L
        = Some ([0], [y_start], y_crit, [])
        /\ CorrectedUpstream.plot_backwater_profile (S fuel) Q b n S0 dx L
           = Some ([0], [y_start], y_crit, Some y_start))
  /\ (0 < y1 ->
      forall fuel xs ys yc frs,
        CorrectedUpstream.compute_backwater_from_weir fuel Q b n S0 dx L
        = Some (xs, ys, yc, frs) ->
        (2 <= length xs)%nat).
Proof.
  intros y_crit y_start y1 HQ Hb HL.
  pose proof (corrected_upstream_start_step Q b n S0 dx HQ Hb) as Hn.
  cbv zeta in Hn. fold y_crit in Hn. fold y_start in Hn. fold y1 in Hn.
  set (s0 := (mk_vars (flit 0) y_start [flit 0] [y_start], @nil R)).
  assert (Hc : CorrectedUpstream.cond L s0 = true).
  { unfold CorrectedUpstream.cond, s0. cbn [fst x]. to_R.
    apply R_ltb_lt. rewrite Q2R_zero. exact HL. }
  assert (Hbody :
    CorrectedUpstream.body Q b n S0 dx s0
    = if R_leb y1 0
      then Break 1 (mk_vars (0 + dx) y1 [0] [y_start], [])
      else Continue (mk_vars (0 + dx) y1 [0; 0 + dx] [y_start; y1],
                     [Rectangular.Fr Q b y_start])).
  { unfold s0. rewrite corrected_upstream_body_next. cbv zeta.
    cbn [x y x_vals y_vals app]. rewrite Hn. to_R. rewrite !Q2R_zero.
    rewrite orb_false_r. reflexivity. }
  split; [exact Hn|]. split.
  - intros Hy1 fuel.
    assert (Hr : CorrectedUpstream.compute_backwater_from_weir (S fuel) Q b
                   n S0 dx L = Some ([0], [y_start], y_crit, [])).
    { unfold CorrectedUpstream.compute_backwater_from_weir.
      change (CorrectedUpstream.loop (S fuel) Q b n S0 dx L _)
        with (while (S fuel) (CorrectedUpstream.cond L)
                (CorrectedUpstream.body Q b n S0 dx) s0).
      cbn [while].
      rewrite Hc, Hbody, (R_leb_le y1 0 Hy1). reflexivity. }
    split; [exact Hr|].
    unfold CorrectedUpstream.plot_backwater_profile. rewrite Hr.
    reflexivity.
  - intros Hy1 fuel xs ys yc frs.
    unfold CorrectedUpstream.compute_backwater_from_weir.
    change (CorrectedUpstream.loop fuel Q b n S0 dx L _)
      with (while fuel (CorrectedUpstream.cond L)
              (CorrectedUpstream.body Q b n S0 dx) s0).
    destruct fuel as [|fuel]; [discriminate|].
    cbn [while]. rewrite Hc, Hbody, (R_leb_gt y1 0 Hy1).
    destruct (while fuel _ _ _) as [[e [v f]]|] eqn:Hw; [|discriminate].
    intros Hr. inversion Hr; subst.
    apply (corrected_upstream_loop_grows Q b n S0 dx L 2) in Hw;
      [exact Hw|]. cbn. lia.
Qed.

(** The run recorded in the notebook: [Q = 7], [b = 3], [n = 0.3],
    [S0 = 0.001], [dx = 0.25], [L = 60]. *)
Lemma recorded_run_first_depth :
  let y_start :=
    Rectangular.compute_critical_depth (Q2R 7) (Q2R 3) * Q2R (101 # 100) in
  y_start
  + (Q2R (1 # 1000) - Rectangular.Sf y_start (Q2R 7) (Q2R 3) (Q2R (3 # 10)))
    * (1030301 / 30301) * Q2R (25 # 100) <= 0.
Proof.
  intros y_start.
  pose proof critical_depth_7_3_bounds as Hc.
  assert (H3 : Q2R 3 <> 0) by (lits; lra).
  assert (Hy : 0.8299 < y_start < 0.8302) by (unfold y_start; lits; lra).
  pose proof (Sf_ge_shallow y_start (Q2R 7) (Q2R 3) (Q2R (3 # 10))
                ltac:(lra) H3) as HSf.
  set (sf := Rectangular.Sf y_start (Q2R 7) (Q2R 3) (Q2R (3 # 10))) in *.
  assert (Hsf : 0.7 <= sf).
  { eapply Rle_trans; [|exact HSf]. apply div_ge_lower; lits; nra. }
  clearbody sf. clear HSf. lits. lra.
Qed.

Lemma backwater_from_weir_first_step_witness :
  Q2R 7 <> 0 /\ Q2R 3 <> 0 /\ 0 < 60
  /\ CorrectedUpstream.compute_backwater_from_weir 1 (Q2R 7) (Q2R 3)
       (Q2R (3 # 10)) (Q2R (1 # 1000)) (Q2R (25 # 100)) 60
     = Some ([0],
             [Rectangular.compute_critical_depth (Q2R 7) (Q2R 3)
              * Q2R (101 # 100)],
             Rectangular.compute_critical_depth (Q2R 7) (Q2R 3), []).
Proof.
  assert (H7 : Q2R 7 <> 0) by (lits; lra).
  assert (H3 : Q2R 3 <> 0) by (lits; lra).
  assert (HL : 0 < 60) by lra.
  split; [exact H7|]. split; [exact H3|]. split; [exact HL|].
  exact (proj1 (proj1 (proj2 (backwater_from_weir_first_step (Q2R 7)
                                (Q2R 3) (Q2R (3 # 10)) (Q2R (1 # 1000))
                                (Q2R (25 # 100)) 60 H7 H3 HL))
                  recorded_run_first_depth 0%nat)).
Defined.

(** ** The critical depth of the trapezoidal channel *)

(** [A**3 / T] grows with the depth. *)
Lemma section_factor_increasing (b z u v : R) :
  0 < b -> 0 <= z -> 0 < u < v ->
  cube (Trapezoidal.area b z u) * Trapezoidal.top_width b z v
  < cube (Trapezoidal.area b z v) * Trapezoidal.top_width b z u.
Proof.
  intros Hb Hz [Hu Huv].
  destruct (trapezoidal_geometry_R b z u) as (HAu & _ & HTu).
  destruct (trapezoidal_geometry_R b z v) as (HAv & _ & HTv).
  destruct (trapezoidal_section_pos b z u Hb Hz Hu) as (HAu0 & _ & HTu0).
  destruct (trapezoidal_section_pos b z v Hb Hz ltac:(lra))
    as (HAv0 & _ & HTv0).
  unfold cube. to_R.
  set (Au := Trapezoidal.area b z u) in *.
  set (Av := Trapezoidal.area b z v) in *.
  set (Tu := Trapezoidal.top_width b z u) in *.
  set (Tv := Trapezoidal.top_width b z v) in *.
  assert (Hd : 0 < v - u) by lra.
  assert (Huv0 : 0 < u * v) by nra.
  assert (HA : Au < Av).
  { rewrite HAu, HAv.
    assert (u * u < v * v) by nra.
    assert (z * (u * u) <= z * (v * v)) by (apply Rmult_le_compat_l; lra).
    nra. }
  assert (HAT : Au * Tv < Av * Tu).
  { assert (Hdiff : Av * Tu - Au * Tv
                    = (v - u) * (b * b + b * z * (v + u)
                                 + 2 * (z * z) * (u * v)))
      by (rewrite HAu, HAv, HTu, HTv; ring).
    assert (0 < b * b + b * z * (v + u) + 2 * (z * z) * (u * v)).
    { assert (0 <= b * z * (v + u)).
      { apply Rmult_le_pos; [apply Rmult_le_pos|]; lra. }
      assert (0 <= 2 * (z * z) * (u * v)).
      { apply Rmult_le_pos; [|lra]. nra. }
      nra. }
    assert (0 < Av * Tu - Au * Tv)
      by (rewrite Hdiff; apply Rmult_lt_0_compat; assumption).
    lra. }
  assert (H2 : Au * Au < Av * Av) by nra.
  assert (Hs1 : Au * Au * (Au * Tv) < Au * Au * (Av * Tu)).
  { apply Rmult_lt_compat_l; [nra|exact HAT]. }
  assert (Hs2 : Au * Au * (Av * Tu) < Av * Av * (Av * Tu)).
  { apply Rmult_lt_compat_r; [|exact H2]. apply Rmult_lt_0_compat; lra. }
  lra.
Qed.

(** The residual above a root. *)
Lemma trapezoidal_residual_above_root (Q b z u v : R) :
  0 < b -> 0 <= z -> 0 < u < v ->
  Trapezoidal.func Q b z u = 0 -> Trapezoidal.func Q b z v < 0.
Proof.
  intros Hb Hz Huv Hroot.
  pose proof (section_factor_increasing b z u v Hb Hz Huv) as Hinc.
  destruct (trapezoidal_section_pos b z u Hb Hz ltac:(lra))
    as (_ & _ & HTu0).
  unfold Trapezoidal.func in *. to_R. lits.
  set (Au := Trapezoidal.area b z u) in *.
  set (Av := Trapezoidal.area b z v) in *.
  set (Tu := Trapezoidal.top_width b z u) in *.
  set (Tv := Trapezoidal.top_width b z v) in *.
  assert (Hq : Q * Q * Tu = 981 * / 100 * (Au * Au * Au)) by lra.
  assert (Hm : (Q * Q * Tv - 981 * / 100 * (Av * Av * Av)) * Tu
               = 981 * / 100 * (Au * Au * Au * Tv - Av * Av * Av * Tu)).
  { replace ((Q * Q * Tv - 981 * / 100 * (Av * Av * Av)) * Tu)
      with (Q * Q * Tu * Tv - 981 * / 100 * (Av * Av * Av * Tu)) by ring.
    rewrite Hq. ring. }
  assert (Hneg : (Q * Q * Tv - 981 * / 100 * (Av * Av * Av)) * Tu < 0)
    by (rewrite Hm; nra).
  nra.
Qed.

(** The residual below a root. *)
Lemma trapezoidal_residual_below_root (Q b z u v : R) :
  0 < b -> 0 <= z -> 0 < v < u ->
  Trapezoidal.func Q b z u = 0 -> 0 < Trapezoidal.func Q b z v.
Proof.
  intros Hb Hz Hvu Hroot.
  pose proof (section_factor_increasing b z v u Hb Hz Hvu) as Hinc.
  destruct (trapezoidal_section_pos b z u Hb Hz ltac:(lra))
    as (_ & _ & HTu0).
  unfold Trapezoidal.func in *. to_R. lits.
  set (Au := Trapezoidal.area b z u) in *.
  set (Av := Trapezoidal.area b z v) in *.
  set (Tu := Trapezoidal.top_width b z u) in *.
  set (Tv := Trapezoidal.top_width b z v) in *.
  assert (Hq : Q * Q * Tu = 981 * / 100 * (Au * Au * Au)) by lra.
  assert (Hm : (Q * Q * Tv - 981 * / 100 * (Av * Av * Av)) * Tu
               = 981 * / 100 * (Au * Au * Au * Tv - Av * Av * Av * Tu)).
  { replace ((Q * Q * Tv - 981 * / 100 * (Av * Av * Av)) * Tu)
      with (Q * Q * Tu * Tv - 981 * / 100 * (Av * Av * Av * Tu)) by ring.
    rewrite Hq. ring. }
  assert (Hpos : 0 < (Q * Q * Tv - 981 * / 100 * (Av * Av * Av)) * Tu)
    by (rewrite Hm; nra).
  nra.
Qed.

(** X15.  For [b > 0] and [z >= 0] the residual of the trapezoidal
    [compute_critical_depth] has at most one positive root: if [y_c > 0] is
    a root, the residual is positive at every depth in [(0, y_c)], negative
    at every depth above [y_c], and zero at a positive depth only at [y_c].
    An exact solver started anywhere can return one positive depth only. *)
Theorem trapezoidal_critical_depth_unique (Q b z y_c v : R) :
  0 < b -> 0 <= z -> 0 < y_c -> 0 < v ->
  Trapezoidal.func Q b z y_c = 0 ->
  (Trapezoidal.func Q b z v = 0 <-> v = y_c)
  /\ (Trapezoidal.func Q b z v < 0 <-> y_c < v)
  /\ (0 < Trapezoidal.func Q b z v <-> v < y_c).
Proof.
  intros Hb Hz Hc Hv Hroot.
  pose proof (fun H => trapezoidal_residual_above_root Q b z y_c v Hb Hz H
                         Hroot) as Ha.
  pose proof (fun H => trapezoidal_residual_below_root Q b z y_c v Hb Hz H
                         Hroot) as Hbl.
  destruct (Rtotal_order v y_c) as [Hlt|[Heq|Hgt]].
  - specialize (Hbl (conj Hv Hlt)).
    split; [|split]; split; intros; lra.
  - subst v. split; [|split]; split; intros; lra.
  - specialize (Ha (conj Hc Hgt)).
    split; [|split]; split; intros; lra.
Qed.

Lemma trapezoidal_critical_depth_unique_witness :
  0 < 1 /\ 0 <= 0
  /\ Trapezoidal.func (sqrt (981 / 100)) 1 0 1 = 0
  /\ (Trapezoidal.func (sqrt (981 / 100)) 1 0 2 < 0 <-> 1 < 2).
Proof.
  assert (H1 : 0 < 1) by lra.
  assert (H0 : 0 <= 0) by lra.
  assert (H2 : 0 < 2) by lra.
  assert (Hroot : Trapezoidal.func (sqrt (981 / 100)) 1 0 1 = 0).
  { destruct (trapezoidal_geometry_R 1 0 1) as (HA & _ & HT).
    unfold Trapezoidal.func. to_R. rewrite HA, HT, sqrt_sqrt by lra.
    lits. lra. }
  split; [exact H1|]. split; [exact H0|]. split; [exact Hroot|].
  exact (proj1 (proj2 (trapezoidal_critical_depth_unique
                         (sqrt (981 / 100)) 1 0 1 2 H1 H0 H1 H2 Hroot))).
Defined.

(** ** The extent of a forward profile *)

(** A loop that steps by [dx] while its position is below [L] and appends
    the new position: all positions but the last are below [L], and the last
    is below [L + dx]. *)
Lemma while_extent {S : Type} (cond : S -> bool) (body : S -> flow S)
  (pos : S -> R) (xs : S -> list R) (dx L : R) :
  0 < dx -> 0 <= L ->
  (forall s, cond s = true -> pos s < L) ->
  (forall s s', cond s = true -> body s = Continue s' ->
                pos s' = pos s + dx /\ xs s' = xs s ++ [pos s']) ->
  (forall s k s', cond s = true -> body s = Break k s' -> xs s' = xs s) ->
  forall fuel s e s',
    xs s = [pos s] -> pos s = 0 ->
    while fuel cond body s = Some (e, s') ->
    Forall (fun u => 0 <= u < L) (removelast (xs s'))
    /\ Forall (fun u => 0 <= u < L + dx) (xs s').
Proof.
  intros Hdx HL Hc Hcont Hbrk fuel s e s' Hxs Hpos.
  assert (Hpost : forall t l,
            xs t = l ++ [pos t] -> Forall (fun u => 0 <= u < L) l ->
            0 <= pos t < L + dx ->
            Forall (fun u => 0 <= u < L) (removelast (xs t))
            /\ Forall (fun u => 0 <= u < L + dx) (xs t)).
  { intros t l Ht Hl Hp. rewrite Ht, removelast_last. split; [exact Hl|].
    apply Forall_app. split.
    - eapply Forall_impl; [|exact Hl]. cbv beta. intros u Hu. lra.
    - constructor; [exact Hp|constructor]. }
  apply (while_inv cond body
           (fun t => exists l,
              xs t = l ++ [pos t] /\ Forall (fun u => 0 <= u < L) l
              /\ 0 <= pos t < L + dx)
           (fun _ t =>
              Forall (fun u => 0 <= u < L) (removelast (xs t))
              /\ Forall (fun u => 0 <= u < L + dx) (xs t))).
  - intros t t' (l & Ht & Hl & Hp) Hct Hb.
    destruct (Hcont t t' Hct Hb) as [Hp' Hx']. specialize (Hc t Hct).
    exists (l ++ [pos t]). rewrite Hx', Ht. split; [reflexivity|].
    split; [|lra].
    apply Forall_app. split; [exact Hl|].
    constructor; [lra|constructor].
  - intros t (l & Ht & Hl & Hp) _. exact (Hpost t l Ht Hl Hp).
  - intros t k t' (l & Ht & Hl & Hp) Hct Hb.
    rewrite (Hbrk t k t' Hct Hb). exact (Hpost t l Ht Hl Hp).
  - exists []. rewrite Hxs, Hpos. split; [reflexivity|].
    split; [constructor|lra].
Qed.

(** X16.  With [dx > 0] and [L >= 0], every forward profile stays within
    the reach but for its last sample: all [x] values of the profiles of
    [compute_gvf_profile], [compute_backwater_from_weir] and [plot_profile]
    except the last lie in [[0, L)], and the last lies in [[0, L + dx)]: a
    profile runs past [L] by less than one step. *)
Theorem forward_profiles_extent
  (fsolve : (R -> R) -> R -> R) (Q b z n S0 dx L : R)
  (weir_type : Interactive.weir) (weir_height C_b C_d : R) (fuel : nat) :
  0 < dx -> 0 <= L ->
  (forall xs ys yc,
     Trapezoidal.compute_gvf_profile fsolve fuel Q b z n S0 dx L
     = Some (xs, ys, yc) ->
     Forall (fun u => 0 <= u < L) (removelast xs)
     /\ Forall (fun u => 0 <= u < L + dx) xs)
  /\ (forall xs ys yc frs,
        CorrectedUpstream.compute_backwater_from_weir fuel Q b n S0 dx L
        = Some (xs, ys, yc, frs) ->
        Forall (fun u => 0 <= u < L) (removelast xs)
        /\ Forall (fun u => 0 <= u < L + dx) xs)
  /\ (forall rep,
        Interactive.plot_profile fsolve fuel Q b n S0 L dx weir_type
          weir_height C_b C_d = Some rep ->
        Forall (fun u => 0 <= u < L) (removelast (Interactive.r_x_vals rep))
        /\ Forall (fun u => 0 <= u < L + dx) (Interactive.r_x_vals rep)).
Proof.
  intros Hdx HL. split; [|split].
  - intros xs ys yc. unfold Trapezoidal.compute_gvf_profile.
    destruct (Trapezoidal.loop _ _ _ _ _ _ _ _ _) as [[e s]|] eqn:Hw;
      [|discriminate].
    intros Hr. inversion Hr; subst. clear Hr.
    unfold Trapezoidal.loop in Hw.
    apply (while_extent (Trapezoidal.cond L) (Trapezoidal.body Q b z n S0 dx)
             (fun s => x s) (fun s => x_vals s) dx L Hdx HL)
      with (fuel := fuel) (e := e)
           (s := mk_vars (flit 0)
                   (Trapezoidal.compute_critical_depth fsolve Q b z
                    * flit (101 # 100))%num
                   [flit 0]
                   [(Trapezoidal.compute_critical_depth fsolve Q b z
                     * flit (101 # 100))%num]).
    + intros s0 Hc. unfold Trapezoidal.cond in Hc. to_R.
      apply R_ltb_true in Hc. exact Hc.
    + intros s0 s1 _ Hb. unfold Trapezoidal.body in Hb. body_cases Hb.
      cbn [x x_vals]. to_R. split; reflexivity.
    + intros s0 k s1 _ Hb. unfold Trapezoidal.body in Hb. body_cases Hb;
        reflexivity.
    + reflexivity.
    + cbn [x]. to_R. apply Q2R_zero.
    + exact Hw.
  - intros xs ys yc frs.
    unfold CorrectedUpstream.compute_backwater_from_weir.
    destruct (CorrectedUpstream.loop _ _ _ _ _ _ _ _) as [[e [v f]]|] eqn:Hw;
      [|discriminate].
    intros Hr. inversion Hr; subst. clear Hr.
    unfold CorrectedUpstream.loop in Hw.
    apply (while_extent (CorrectedUpstream.cond L)
             (CorrectedUpstream.body Q b n S0 dx)
             (fun s => x (fst s)) (fun s => x_vals (fst s)) dx L Hdx HL)
      with (fuel := fuel) (e := e) (s' := (v, frs))
           (s := (mk_vars (flit 0)
                    (Rectangular.compute_critical_depth Q b
                     * flit (101 # 100))%num
                    [flit 0]
                    [(Rectangular.compute_critical_depth Q b
                      * flit (101 # 100))%num], @nil R)).
    + intros s0 Hc. unfold CorrectedUpstream.cond in Hc. to_R.
      apply R_ltb_true in Hc. exact Hc.
    + intros [v0 f0] s1 _ Hb. unfold CorrectedUpstream.body in Hb.
      body_cases Hb. cbn [fst x x_vals]. to_R. split; reflexivity.
    + intros [v0 f0] k s1 _ Hb. unfold CorrectedUpstream.body in Hb.
      body_cases Hb. reflexivity.
    + reflexivity.
    + cbn [fst x]. to_R. apply Q2R_zero.
    + exact Hw.
  - intros rep. unfold Interactive.plot_profile.
    destruct (Interactive.loop _ _ _ _ _ _ _ _) as [[e s]|] eqn:Hw;
      [|discriminate].
    intros Hr. inversion Hr; subst. clear Hr. cbn [Interactive.r_x_vals].
    unfold Interactive.loop in Hw.
    apply (while_extent (Interactive.cond L) (Interactive.body Q b n S0 dx)
             (fun s => x s) (fun s => x_vals s) dx L Hdx HL)
      with (fuel := fuel) (e := e)
           (s := mk_vars (flit 0)
                   (Rectangular.compute_critical_depth Q b
                    * flit (105 # 100))%num
                   [flit 0]
                   [(Rectangular.compute_critical_depth Q b
                     * flit (105 # 100))%num]).
    + intros s0 Hc. unfold Interactive.cond in Hc. to_R.
      apply R_ltb_true in Hc. exact Hc.
    + intros s0 s1 _ Hb. unfold Interactive.body in Hb. body_cases Hb.
      cbn [x x_vals]. to_R. split; reflexivity.
    + intros s0 k s1 _ Hb. unfold Interactive.body in Hb. body_cases Hb.
      reflexivity.
    + reflexivity.
    + cbn [x]. to_R. apply Q2R_zero.
    + exact Hw.
Qed.

Lemma forward_profiles_extent_witness :
  0 < Q2R 2 /\ 0 <= Q2R 1
  /\ Forall (fun u => 0 <= u < Q2R 1) (removelast [0; Q2R 2])
  /\ Forall (fun u => 0 <= u < Q2R 1 + Q2R 2) [0; Q2R 2].
Proof.
  assert (Hdx : 0 < Q2R 2) by (lits; lra).
  assert (HL : 0 <= Q2R 1) by (lits; lra).
  destruct (corrected_upstream_run (Q2R (35643 # 10000)) (Q2R (3 # 100))
              eq_refl eq_refl) as (y1 & fr0 & Hr & _).
  split; [exact Hdx|]. split; [exact HL|].
  exact (proj1 (proj2 (forward_profiles_extent (fun _ x0 => x0)
                         (Q2R (35643 # 10000)) (Q2R 1) 0 (Q2R (3 # 100))
                         (Q2R (1 # 100)) (Q2R 2) (Q2R 1)
                         Interactive.broad_crested 0 0 0 2 Hdx HL))
           _ _ _ _ Hr).
Defined.

(** * Termination and length of the loops, in any arithmetic *)

(** ** C8: the loops against the bare march of their position *)





Section Marches.
Context {F : Type} `{PyNum F}.
Local Open Scope num_scope.




End Marches.




(** * Python's exceptions in the integrators *)

(** ** Binary64 case analysis *)

Lemma float_cases (f : PrimFloat.float) :
  f = PrimFloat.nan \/ f = PrimFloat.zero \/ f = PrimFloat.neg_zero
  \/ f = PrimFloat.infinity \/ f = PrimFloat.neg_infinity
  \/ exists s m e, SpecFloat.S754_finite s m e = FloatOps.Prim2SF f.
Proof.
  pose proof (FloatAxioms.SF2Prim_Prim2SF f) as Hf.
  destruct (FloatOps.Prim2SF f) as [s|s| |s m e] eqn:E.
  - destruct s; cbn [FloatOps.SF2Prim] in Hf; auto.
  - destruct s; cbn [FloatOps.SF2Prim] in Hf; auto 6.
  - cbn [FloatOps.SF2Prim] in Hf. auto.
  - do 5 right. exists s, m, e. reflexivity.
Qed.

Lemma Prim2SF_zero : FloatOps.Prim2SF (float_lit 0) = SpecFloat.S754_zero false.
Proof. vm_compute. reflexivity. Qed.

Lemma Prim2SF_infinity :
  FloatOps.Prim2SF PrimFloat.infinity = SpecFloat.S754_infinity false.
Proof. vm_compute. reflexivity. Qed.

(** [f == 0.0] holds for the two zeros only. *)
Lemma eqb_zero (f : PrimFloat.float) :
  PrimFloat.eqb f (float_lit 0) = true ->
  f = PrimFloat.zero \/ f = PrimFloat.neg_zero.
Proof.
  intros H.
  destruct (float_cases f) as [E|[E|[E|[E|[E|(s & m & e & E)]]]]];
    try (subst f; vm_compute in H; discriminate); auto.
  rewrite FloatAxioms.eqb_spec, Prim2SF_zero, <- E in H.
  destruct s; discriminate.
Qed.

(** A finite double is a zero or has a mantissa. *)
Lemma finite_cases (f : PrimFloat.float) :
  PrimFloat.is_finite f = true ->
  f = PrimFloat.zero \/ f = PrimFloat.neg_zero
  \/ exists s m e, SpecFloat.S754_finite s m e = FloatOps.Prim2SF f.
Proof.
  intros H.
  destruct (float_cases f) as [E|[E|[E|[E|[E|E]]]]];
    try (subst f; vm_compute in H; discriminate); auto.
Qed.

(** A finite double times a zero is a zero. *)
Lemma mul_finite_zero (b z : PrimFloat.float) :
  PrimFloat.is_finite b = true ->
  z = PrimFloat.zero \/ z = PrimFloat.neg_zero ->
  PrimFloat.mul b z = PrimFloat.zero \/ PrimFloat.mul b z = PrimFloat.neg_zero.
Proof.
  intros Hb Hz.
  assert (Hz' : exists sz, FloatOps.Prim2SF z = SpecFloat.S754_zero sz).
  { destruct Hz as [-> | ->]; eexists; vm_compute; reflexivity. }
  destruct Hz' as [sz Ez].
  assert (Hm : exists sm,
             FloatOps.Prim2SF (PrimFloat.mul b z) = SpecFloat.S754_zero sm).
  { rewrite FloatAxioms.mul_spec, Ez.
    destruct (finite_cases b Hb) as [E|[E|(s & m & e & E)]].
    - subst b. eexists. vm_compute. reflexivity.
    - subst b. eexists. vm_compute. reflexivity.
    - rewrite <- E. eexists. reflexivity. }
  destruct Hm as [sm Em].
  rewrite <- (FloatAxioms.SF2Prim_Prim2SF (PrimFloat.mul b z)), Em.
  destruct sm; cbn [FloatOps.SF2Prim]; auto.
Qed.

(** Dividing by a zero gives a NaN or an infinity. *)
Lemma div_by_zero (q z : PrimFloat.float) :
  z = PrimFloat.zero \/ z = PrimFloat.neg_zero ->
  PrimFloat.div q z = PrimFloat.nan \/ PrimFloat.div q z = PrimFloat.infinity
  \/ PrimFloat.div q z = PrimFloat.neg_infinity.
Proof.
  intros Hz.
  assert (Hz' : exists sz, FloatOps.Prim2SF z = SpecFloat.S754_zero sz).
  { destruct Hz as [-> | ->]; eexists; vm_compute; reflexivity. }
  destruct Hz' as [sz Ez].
  rewrite <- (FloatAxioms.SF2Prim_Prim2SF (PrimFloat.div q z)).
  rewrite FloatAxioms.div_spec, Ez.
  destruct (FloatOps.Prim2SF q) as [s|s| |s m e]; cbn.
  - auto.
  - destruct (xorb s sz); auto.
  - auto.
  - destruct (xorb s sz); auto.
Qed.

(** ** Which operations of a step can raise *)

Section Exceptions.
Variable libm_pow : PrimFloat.float -> PrimFloat.float -> PrimFloat.float.

Import Checked.

Local Abbreviation pow := (Checked.pow libm_pow).
Local Abbreviation Sf := (Checked.Sf libm_pow).

Lemma join_np_r (k : kind) : join k NpFloat64 = NpFloat64.
Proof. destruct k; reflexivity. Qed.

(** NumPy's operations never raise. *)
Lemma pow_np (a w : num) :
  kind_of a = NpFloat64 -> pow a w = Ok (np (libm_pow (val a) (val w))).
Proof. intros Ha. unfold Checked.pow. rewrite Ha. reflexivity. Qed.

Lemma div_np (a b : num) :
  kind_of b = NpFloat64 ->
  div a b = Ok (np (PrimFloat.div (val a) (val b))).
Proof. intros Hb. unfold div. rewrite Hb, join_np_r. reflexivity. Qed.

(** [Fr] divides by a [float64], the result of [np.sqrt]. *)
Lemma Fr_ok (Q b v : num) :
  Fr Q b v
  = Ok (np (PrimFloat.div (val Q)
              (PrimFloat.mul (PrimFloat.mul (val b) (val v))
                 (PrimFloat.sqrt (PrimFloat.mul (val g) (val v)))))).
Proof.
  unfold Fr. rewrite div_np; [reflexivity|].
  unfold mul, np_sqrt, np. cbn [kind_of]. apply join_np_r.
Qed.

Lemma third_ok :
  div (lit 1) (lit 3)
  = Ok (py (PrimFloat.div (float_lit 1) (float_lit 3))).
Proof. vm_compute. reflexivity. Qed.

Lemma four_thirds_ok :
  div (lit 4) (lit 3)
  = Ok (py (PrimFloat.div (float_lit 4) (float_lit 3))).
Proof. vm_compute. reflexivity. Qed.

(** If [Sf] returns, [n**2] and [Q**2] were computed. *)
Lemma Sf_ok_inv (v Q b n sf : num) :
  Sf v Q b n = Ok sf ->
  exists n2 q2, pow n (lit 2) = Ok n2 /\ pow Q (lit 2) = Ok q2.
Proof.
  unfold Checked.Sf.
  destruct (pow n (lit 2)) as [n2| |]; cbn [bind]; try discriminate.
  destruct (pow Q (lit 2)) as [q2| |]; cbn [bind]; try discriminate.
  intros _. exists n2, q2. split; reflexivity.
Qed.

(** On a [float64] depth [Sf] returns once [n**2] and [Q**2] do. *)
Lemma Sf_np (v Q b n n2 q2 : num) :
  kind_of v = NpFloat64 ->
  pow n (lit 2) = Ok n2 -> pow Q (lit 2) = Ok q2 ->
  exists f, Sf v Q b n = Ok (np f).
Proof.
  intros Hv Hn HQ. unfold Checked.Sf. rewrite Hn, HQ. cbn [bind].
  rewrite pow_np by (unfold mul; cbn [kind_of]; rewrite Hv; apply join_np_r).
  cbn [bind]. rewrite four_thirds_ok. cbn [bind].
  rewrite (pow_np v) by exact Hv. cbn [bind].
  rewrite div_np by reflexivity. eexists. reflexivity.
Qed.

(** *** The loop of [plot_profile] *)

(** A step from any depth: an exception is one of [Sf]; a step that falls
    through leaves a [float64] depth. *)
Lemma interactive_body_first (Q b n S0 dx : num) (s : vars num) :
  match interactive_body libm_pow Q b n S0 dx s with
  | Raise e => Sf (y s) Q b n = Raise e
  | ComplexValue => Sf (y s) Q b n = ComplexValue
  | Ok (Break _ _) => True
  | Ok (Continue s') =>
      kind_of (y s') = NpFloat64
      /\ exists n2 q2, pow n (lit 2) = Ok n2 /\ pow Q (lit 2) = Ok q2
  end.
Proof.
  unfold interactive_body. rewrite Fr_ok. cbn [bind].
  rewrite pow_np by reflexivity. cbn [bind].
  destruct (ltb _ _); [exact I|].
  destruct (Sf (y s) Q b n) as [sf| |] eqn:ESf; cbn [bind];
    try reflexivity.
  rewrite div_np by (unfold sub; cbn [kind_of]; apply join_np_r).
  cbn [bind y]. split.
  - unfold add, mul, np. cbn [kind_of].
    destruct (kind_of (y s)); reflexivity.
  - eapply Sf_ok_inv. exact ESf.
Qed.

(** A step from a [float64] depth does not raise. *)
Lemma interactive_body_np (Q b n S0 dx : num) (s : vars num) (n2 q2 : num) :
  kind_of (y s) = NpFloat64 ->
  pow n (lit 2) = Ok n2 -> pow Q (lit 2) = Ok q2 ->
  exists f,
    interactive_body libm_pow Q b n S0 dx s = Ok f
    /\ kind_of (y (flow_state f)) = NpFloat64.
Proof.
  intros Hy Hn HQ.
  destruct (Sf_np (y s) Q b n n2 q2 Hy Hn HQ) as [sf HSf].
  unfold interactive_body. rewrite Fr_ok. cbn [bind].
  rewrite pow_np by reflexivity. cbn [bind].
  destruct (ltb _ _).
  - eexists. split; [reflexivity|exact Hy].
  - rewrite HSf. cbn [bind].
    rewrite div_np by (unfold sub; cbn [kind_of]; apply join_np_r).
    cbn [bind]. eexists. split; [reflexivity|].
    cbn [flow_state y]. unfold add. cbn [kind_of]. rewrite Hy.
    reflexivity.
Qed.

Lemma interactive_loop_np (Q b n S0 dx L : num) (n2 q2 : num) :
  pow n (lit 2) = Ok n2 -> pow Q (lit 2) = Ok q2 ->
  forall (fuel : nat) (s : vars num),
    kind_of (y s) = NpFloat64 ->
    exists r,
      Checked.while fuel (fun s => ltb (x s) L)
        (interactive_body libm_pow Q b n S0 dx) s = Ok r.
Proof.
  intros Hn HQ fuel.
  induction fuel as [|fuel IH]; intros s Hy; [eexists; reflexivity|].
  cbn [Checked.while]. destruct (ltb (x s) L); [|eexists; reflexivity].
  destruct (interactive_body_np Q b n S0 dx s n2 q2 Hy Hn HQ)
    as (f & Hf & Hk).
  rewrite Hf. cbn [bind]. destruct f as [s'|k s'].
  - apply IH. exact Hk.
  - eexists. reflexivity.
Qed.

(** *** The loop of [compute_backwater_from_weir] *)

(** The guarded denominator is [1e-6] or a [float64]: dividing by it does
    not raise. *)
Lemma div_guard_denom (a d : num) :
  kind_of d = NpFloat64 ->
  exists f, div a (guard_denom d) = Ok f
            /\ (kind_of f = NpFloat64
                \/ ltb (abs d) (lit (1 # 1000000)) = true).
Proof.
  intros Hd. unfold guard_denom. destruct (ltb (abs d) _) eqn:Hg.
  - unfold div. cbn [kind_of lit py val].
    destruct (join (kind_of a) PyFloat).
    + replace (PrimFloat.eqb (float_lit (1 # 1000000)) (float_lit 0))
        with false by (vm_compute; reflexivity).
      eexists. split; [reflexivity|right; reflexivity].
    + eexists. split; [reflexivity|right; reflexivity].
  - rewrite div_np by exact Hd. eexists.
    split; [reflexivity|left; reflexivity].
Qed.

(** A step from any depth: an exception is one of [Sf]. *)
Lemma corrected_body_first (Q b n S0 dx : num) (s : vars num * list num) :
  match corrected_body libm_pow Q b n S0 dx s with
  | Raise e => Sf (y (fst s)) Q b n = Raise e
  | ComplexValue => Sf (y (fst s)) Q b n = ComplexValue
  | Ok f =>
      (exists n2 q2, pow n (lit 2) = Ok n2 /\ pow Q (lit 2) = Ok q2)
      /\ (kind_of (y (fst (flow_state f))) = NpFloat64
          \/ exists fr,
               Fr Q b (y (fst s)) = Ok fr
               /\ ltb (abs (sub (lit 1) (np (libm_pow (val fr)
                                               (val (lit 2))))))
                    (lit (1 # 1000000)) = true)
  end.
Proof.
  destruct s as [v frs]. unfold corrected_body. cbn [fst].
  rewrite Fr_ok. cbn [bind]. rewrite pow_np by reflexivity. cbn [bind].
  destruct (Sf (y v) Q b n) as [sf| |] eqn:ESf; cbn [bind];
    try reflexivity.
  match goal with
  | |- context [div ?a (guard_denom ?d)] =>
      destruct (div_guard_denom a d) as (f & Hf & Hk);
        [unfold sub, np; cbn [kind_of]; apply join_np_r|rewrite Hf]
  end.
  cbn [bind].
  assert (Hpows : exists n2 q2,
             pow n (lit 2) = Ok n2 /\ pow Q (lit 2) = Ok q2)
    by (eapply Sf_ok_inv; exact ESf).
  assert (Hkind :
    kind_of (add (y v) (mul f dx)) = NpFloat64
    \/ exists fr,
         Ok (np (PrimFloat.div (val Q)
                   (PrimFloat.mul (PrimFloat.mul (val b) (val (y v)))
                      (PrimFloat.sqrt (PrimFloat.mul (val g) (val (y v)))))))
         = Ok fr
         /\ ltb (abs (sub (lit 1) (np (libm_pow (val fr) (val (lit 2))))))
              (lit (1 # 1000000)) = true).
  { destruct Hk as [Hk|Hk].
    - left. unfold add, mul. cbn [kind_of]. rewrite Hk.
      destruct (kind_of (y v)); reflexivity.
    - right. eexists. split; [reflexivity|exact Hk]. }
  destruct (_ || _)%bool; cbn [flow_state fst y]; split; assumption.
Qed.

(** A step from a [float64] depth does not raise. *)
Lemma corrected_body_np (Q b n S0 dx : num) (s : vars num * list num)
  (n2 q2 : num) :
  kind_of (y (fst s)) = NpFloat64 ->
  pow n (lit 2) = Ok n2 -> pow Q (lit 2) = Ok q2 ->
  exists f,
    corrected_body libm_pow Q b n S0 dx s = Ok f
    /\ kind_of (y (fst (flow_state f))) = NpFloat64.
Proof.
  destruct s as [v frs]. cbn [fst]. intros Hy Hn HQ.
  destruct (Sf_np (y v) Q b n n2 q2 Hy Hn HQ) as [sf HSf].
  unfold corrected_body. rewrite Fr_ok. cbn [bind].
  rewrite pow_np by reflexivity. cbn [bind]. rewrite HSf. cbn [bind].
  match goal with
  | |- context [div ?a (guard_denom ?d)] =>
      assert (Hd : exists f, div a (guard_denom d) = Ok (np f))
  end.
  { unfold guard_denom. destruct (ltb _ _).
    - unfold div, sub, np. cbn [kind_of val lit py].
      destruct (kind_of S0); cbn [join]; eexists; reflexivity.
    - rewrite div_np; [eexists; reflexivity|].
      unfold sub, np. cbn [kind_of]. apply join_np_r. }
  destruct Hd as [f Hf]. rewrite Hf. cbn [bind].
  assert (Hk : kind_of (add (y v) (mul (np f) dx)) = NpFloat64).
  { unfold add. cbn [kind_of]. rewrite Hy. reflexivity. }
  destruct (_ || _)%bool; eexists; (split; [reflexivity|]);
    cbn [flow_state fst y]; exact Hk.
Qed.

Lemma corrected_loop_np (Q b n S0 dx L : num) (n2 q2 : num) :
  pow n (lit 2) = Ok n2 -> pow Q (lit 2) = Ok q2 ->
  forall (fuel : nat) (s : vars num * list num),
    kind_of (y (fst s)) = NpFloat64 ->
    exists r,
      Checked.while fuel (fun s => ltb (x (fst s)) L)
        (corrected_body libm_pow Q b n S0 dx) s = Ok r.
Proof.
  intros Hn HQ fuel.
  induction fuel as [|fuel IH]; intros s Hy; [eexists; reflexivity|].
  cbn [Checked.while]. destruct (ltb (x (fst s)) L);
    [|eexists; reflexivity].
  destruct (corrected_body_np Q b n S0 dx s n2 q2 Hy Hn HQ)
    as (f & Hf & Hk).
  rewrite Hf. cbn [bind]. destruct f as [s'|k s'].
  - apply IH. exact Hk.
  - eexists. reflexivity.
Qed.
End Exceptions.

(** ** A start depth of zero *)

Section ZeroDepth.
Variable libm_pow : PrimFloat.float -> PrimFloat.float -> PrimFloat.float.

Import Checked.

Lemma float_pow_zero_sqr (z : PrimFloat.float) :
  z = PrimFloat.zero \/ z = PrimFloat.neg_zero ->
  float_pow libm_pow z (float_lit 2) = Ok (float_lit 0).
Proof. intros [-> | ->]; vm_compute; reflexivity. Qed.

Lemma float_pow_zero_four_thirds (z : PrimFloat.float) :
  z = PrimFloat.zero \/ z = PrimFloat.neg_zero ->
  float_pow libm_pow z (PrimFloat.div (float_lit 4) (float_lit 3))
  = Ok (float_lit 0).
Proof. intros [-> | ->]; vm_compute; reflexivity. Qed.

(** Powers and quotients of [float]s are [float]s. *)
Lemma pow_py (a w r : num) :
  kind_of a = PyFloat -> kind_of w = PyFloat ->
  Checked.pow libm_pow a w = Ok r -> kind_of r = PyFloat.
Proof.
  intros Ha Hw. unfold Checked.pow. rewrite Ha, Hw. cbn [join].
  destruct (float_pow libm_pow (val a) (val w)); cbn [bind];
    try discriminate.
  intros H. inversion H. reflexivity.
Qed.

Lemma div_py (a b r : num) :
  kind_of a = PyFloat -> kind_of b = PyFloat ->
  div a b = Ok r -> kind_of r = PyFloat.
Proof.
  intros Ha Hb. unfold div. rewrite Ha, Hb. cbn [join].
  destruct (PrimFloat.eqb _ _); try discriminate.
  intros H. inversion H. reflexivity.
Qed.

(** What [compute_critical_depth] returns is a [float], and [Q**2] was
    computed. *)
Lemma compute_critical_depth_inv (Q b : PrimFloat.float) (yc : num) :
  Checked.compute_critical_depth libm_pow (py Q) (py b) = Ok yc ->
  kind_of yc = PyFloat
  /\ exists q2, Checked.pow libm_pow (py Q) (lit 2) = Ok q2.
Proof.
  unfold Checked.compute_critical_depth.
  destruct (Checked.pow libm_pow (py Q) (lit 2)) as [q2| |] eqn:EQ;
    cbn [bind]; try discriminate.
  destruct (Checked.pow libm_pow (py b) (lit 2)) as [b2| |] eqn:Eb;
    cbn [bind]; try discriminate.
  pose proof (pow_py (py Q) (lit 2) q2 eq_refl eq_refl EQ) as KQ.
  pose proof (pow_py (py b) (lit 2) b2 eq_refl eq_refl Eb) as Kb.
  destruct (div q2 (mul g b2)) as [r| |] eqn:Er; cbn [bind];
    try discriminate.
  apply div_py in Er;
    [|exact KQ|unfold mul; cbn [kind_of]; rewrite Kb; reflexivity].
  rewrite third_ok. cbn [bind]. intros H.
  split; [|eexists; reflexivity].
  exact (pow_py r (py (PrimFloat.div (float_lit 1) (float_lit 3))) yc Er
           eq_refl H).
Qed.

(** With a depth of zero and a finite width the divisor of [Sf] is zero. *)
Lemma Sf_zero_depth (z Q b n : PrimFloat.float) (n2 q2 : num) :
  z = PrimFloat.zero \/ z = PrimFloat.neg_zero ->
  PrimFloat.is_finite b = true ->
  Checked.pow libm_pow (py n) (lit 2) = Ok n2 ->
  Checked.pow libm_pow (py Q) (lit 2) = Ok q2 ->
  Checked.Sf libm_pow (py z) (py Q) (py b) (py n) = Raise ZeroDivisionError.
Proof.
  intros Hz Hb Hn HQ. unfold Checked.Sf. rewrite Hn, HQ. cbn [bind].
  apply (pow_py (py n) (lit 2)) in Hn; [|reflexivity|reflexivity].
  apply (pow_py (py Q) (lit 2)) in HQ; [|reflexivity|reflexivity].
  unfold Checked.pow at 1. unfold mul at 1. cbn [kind_of py val lit join].
  rewrite float_pow_zero_sqr by (apply mul_finite_zero; assumption).
  cbn [bind]. rewrite four_thirds_ok. cbn [bind].
  unfold Checked.pow. cbn [kind_of py val join].
  rewrite float_pow_zero_four_thirds by exact Hz. cbn [bind].
  unfold div, mul. cbn [kind_of py val]. rewrite Hn, HQ. cbn [join].
  replace (PrimFloat.eqb (PrimFloat.mul (float_lit 0) (float_lit 0))
             (float_lit 0)) with true by (vm_compute; reflexivity).
  reflexivity.
Qed.

(** A zero times a literal of the notebooks is a zero. *)
Lemma start_depth_zero (v : PrimFloat.float) :
  PrimFloat.eqb v (float_lit 0) = true ->
  (PrimFloat.mul v (float_lit (101 # 100)) = PrimFloat.zero
   \/ PrimFloat.mul v (float_lit (101 # 100)) = PrimFloat.neg_zero)
  /\ (PrimFloat.mul v (float_lit (105 # 100)) = PrimFloat.zero
      \/ PrimFloat.mul v (float_lit (105 # 100)) = PrimFloat.neg_zero).
Proof.
  intros H. destruct (eqb_zero v H) as [-> | ->]; split;
    solve [left; vm_compute; reflexivity | right; vm_compute; reflexivity].
Qed.

(** An exception of [Sf] is an exception of the step. *)
Lemma corrected_body_raises (Q b n S0 dx : num) (v : vars num)
  (frs : list num) (e : exn) :
  Checked.Sf libm_pow (y v) Q b n = Raise e ->
  corrected_body libm_pow Q b n S0 dx (v, frs) = Raise e.
Proof.
  intros HSf. unfold corrected_body. rewrite Fr_ok. cbn [bind].
  rewrite pow_np by reflexivity. cbn [bind]. rewrite HSf. reflexivity.
Qed.

Lemma interactive_body_raises (Q b n S0 dx : num) (s : vars num) (e : exn) :
  (forall fr, Fr Q b (y s) = Ok fr ->
     ltb (abs (sub (lit 1) (np (libm_pow (val fr) (val (lit 2))))))
       (lit (1 # 1000000)) = false) ->
  Checked.Sf libm_pow (y s) Q b n = Raise e ->
  interactive_body libm_pow Q b n S0 dx s = Raise e.
Proof.
  intros Htest HSf. unfold interactive_body.
  specialize (Htest _ (Fr_ok Q b (y s))).
  rewrite Fr_ok. cbn [bind]. rewrite pow_np by reflexivity. cbn [bind].
  cbn [val np] in Htest. cbn [val np]. rewrite Htest, HSf. reflexivity.
Qed.

(** At a depth of zero the Froude number is a NaN or an infinity. *)
Lemma Fr_zero_depth (z Q b : PrimFloat.float) :
  z = PrimFloat.zero \/ z = PrimFloat.neg_zero ->
  PrimFloat.is_finite b = true ->
  exists f,
    Fr (py Q) (py b) (py z) = Ok (np f)
    /\ (f = PrimFloat.nan \/ f = PrimFloat.infinity
        \/ f = PrimFloat.neg_infinity).
Proof.
  intros Hz Hb. rewrite Fr_ok. eexists. split; [reflexivity|].
  cbn [val py]. apply div_by_zero.
  assert (H1 : PrimFloat.mul b z = PrimFloat.zero
               \/ PrimFloat.mul b z = PrimFloat.neg_zero)
    by (apply mul_finite_zero; assumption).
  assert (H2 : PrimFloat.sqrt (PrimFloat.mul (val g) z) = PrimFloat.zero
               \/ PrimFloat.sqrt (PrimFloat.mul (val g) z)
                  = PrimFloat.neg_zero).
  { destruct Hz as [-> | ->];
      solve [left; vm_compute; reflexivity
            |right; vm_compute; reflexivity]. }
  destruct H1 as [-> | ->]; destruct H2 as [-> | ->];
    solve [left; vm_compute; reflexivity | right; vm_compute; reflexivity].
Qed.
End ZeroDepth.

(** ** The sign of [n] *)

Section FinitePow.
Variable libm_pow : PrimFloat.float -> PrimFloat.float -> PrimFloat.float.

Import Checked.

Lemma finite_tests (f : PrimFloat.float) (s : bool) (m : positive) (e : Z) :
  SpecFloat.S754_finite s m e = FloatOps.Prim2SF f ->
  PrimFloat.is_nan f = false /\ PrimFloat.is_infinity f = false
  /\ PrimFloat.eqb f (float_lit 0) = false
  /\ PrimFloat.ltb f (float_lit 0) = s.
Proof.
  intros E. unfold PrimFloat.is_nan, PrimFloat.is_infinity.
  rewrite !FloatAxioms.eqb_spec, FloatAxioms.ltb_spec, FloatAxioms.abs_spec.
  rewrite Prim2SF_zero, Prim2SF_infinity, <- E.
  unfold SpecFloat.SFeqb, SpecFloat.SFltb.
  cbn [SpecFloat.SFabs SpecFloat.SFcompare].
  rewrite Z.compare_refl, Pos.compare_cont_refl.
  destruct s; repeat split; reflexivity.
Qed.

(** [x ** 2] on a finite, non-zero [float]: the C library is called on
    the absolute value. *)
Lemma float_pow_finite_sqr (f : PrimFloat.float) (s : bool) (m : positive)
  (e : Z) :
  SpecFloat.S754_finite s m e = FloatOps.Prim2SF f ->
  float_pow libm_pow f (float_lit 2)
  = libm_pow_checked libm_pow false (if s then PrimFloat.opp f else f)
      (float_lit 2).
Proof.
  intros E. destruct (finite_tests f s m e E) as (H1 & H2 & H3 & H4).
  unfold float_pow. rewrite H1, H2, H3, H4.
  replace (PrimFloat.eqb (float_lit 2) (float_lit 0)) with false
    by (vm_compute; reflexivity).
  replace (PrimFloat.is_nan (float_lit 2)) with false
    by (vm_compute; reflexivity).
  replace (PrimFloat.is_infinity (float_lit 2)) with false
    by (vm_compute; reflexivity).
  replace (is_integer (float_lit 2)) with true by (vm_compute; reflexivity).
  replace (is_odd_integer (float_lit 2)) with false
    by (vm_compute; reflexivity).
  destruct s; reflexivity.
Qed.

Lemma opp_opp_finite (f : PrimFloat.float) :
  PrimFloat.opp (PrimFloat.opp f) = f.
Proof.
  apply FloatAxioms.Prim2SF_inj. rewrite !FloatAxioms.opp_spec.
  destruct (FloatOps.Prim2SF f) as [s|s| |s m e]; cbn [SpecFloat.SFopp];
    rewrite ?negb_involutive; reflexivity.
Qed.

(** [(-n) ** 2] is [n ** 2], exceptions included. *)
Lemma float_pow_opp_sqr (f : PrimFloat.float) :
  float_pow libm_pow (PrimFloat.opp f) (float_lit 2)
  = float_pow libm_pow f (float_lit 2).
Proof.
  destruct (float_cases f) as [E|[E|[E|[E|[E|(s & m & e & E)]]]]];
    try (subst f; vm_compute; reflexivity).
  assert (E' : SpecFloat.S754_finite (negb s) m e
               = FloatOps.Prim2SF (PrimFloat.opp f)).
  { rewrite FloatAxioms.opp_spec, <- E. reflexivity. }
  rewrite (float_pow_finite_sqr f s m e E).
  rewrite (float_pow_finite_sqr (PrimFloat.opp f) (negb s) m e E').
  destruct s; cbn [negb]; [reflexivity|].
  rewrite opp_opp_finite. reflexivity.
Qed.

Lemma Sf_opp (v Q b : num) (n : PrimFloat.float) :
  Checked.Sf libm_pow v Q b (py (PrimFloat.opp n))
  = Checked.Sf libm_pow v Q b (py n).
Proof.
  unfold Checked.Sf, Checked.pow at 1 5. cbn [kind_of val py lit join].
  rewrite float_pow_opp_sqr. reflexivity.
Qed.

Lemma checked_while_ext {S : Type} (cond : S -> bool)
  (body1 body2 : S -> result (flow S)) :
  (forall s, body1 s = body2 s) ->
  forall fuel s,
    Checked.while fuel cond body1 s = Checked.while fuel cond body2 s.
Proof.
  intros Hb fuel. induction fuel as [|fuel IH]; intros s; [reflexivity|].
  cbn [Checked.while]. rewrite Hb. destruct (cond s); [|reflexivity].
  destruct (body2 s) as [[s'|k s']| |]; cbn [bind];
    [apply IH|reflexivity|reflexivity|reflexivity].
Qed.

Lemma corrected_body_opp (Q b S0 dx : num) (n : PrimFloat.float)
  (s : vars num * list num) :
  corrected_body libm_pow Q b (py (PrimFloat.opp n)) S0 dx s
  = corrected_body libm_pow Q b (py n) S0 dx s.
Proof.
  destruct s as [v frs]. unfold corrected_body. rewrite Sf_opp.
  reflexivity.
Qed.

Lemma interactive_body_opp (Q b S0 dx : num) (n : PrimFloat.float)
  (s : vars num) :
  interactive_body libm_pow Q b (py (PrimFloat.opp n)) S0 dx s
  = interactive_body libm_pow Q b (py n) S0 dx s.
Proof. unfold interactive_body. rewrite Sf_opp. reflexivity. Qed.
End FinitePow.

(** Zero divided by a double that is neither zero nor a NaN is a zero. *)
Lemma zero_div (d : PrimFloat.float) :
  PrimFloat.is_nan d = false -> PrimFloat.eqb d (float_lit 0) = false ->
  PrimFloat.div (float_lit 0) d = PrimFloat.zero
  \/ PrimFloat.div (float_lit 0) d = PrimFloat.neg_zero.
Proof.
  intros Hn Hz.
  destruct (float_cases d) as [E|[E|[E|[E|[E|(s & m & e & E)]]]]];
    try (subst d; vm_compute in Hn; discriminate);
    try (subst d; vm_compute in Hz; discriminate);
    try (subst d; solve [left; vm_compute; reflexivity
                        |right; vm_compute; reflexivity]).
  rewrite <- (FloatAxioms.SF2Prim_Prim2SF (PrimFloat.div (float_lit 0) d)).
  rewrite FloatAxioms.div_spec, Prim2SF_zero, <- E.
  destruct s; cbn; auto.
Qed.

(** [compute_critical_depth(0.0, b)] is [0.0] when [g * b**2] is neither
    zero nor a NaN. *)
Lemma critical_depth_of_no_discharge
  (libm_pow : PrimFloat.float -> PrimFloat.float -> PrimFloat.float)
  (b : PrimFloat.float) (b2 : Checked.num) :
  Checked.pow libm_pow (Checked.py b) (Checked.lit 2) = Checked.Ok b2 ->
  PrimFloat.is_nan (Checked.val (Checked.mul Checked.g b2)) = false ->
  PrimFloat.eqb (Checked.val (Checked.mul Checked.g b2)) (float_lit 0)
  = false ->
  Checked.compute_critical_depth libm_pow (Checked.py (float_lit 0))
    (Checked.py b)
  = Checked.Ok (Checked.py (float_lit 0)).
Proof.
  intros Hb Hn Hz. unfold Checked.compute_critical_depth.
  unfold Checked.pow at 1.
  cbn [Checked.kind_of Checked.val Checked.py Checked.lit Checked.join].
  rewrite float_pow_zero_sqr by (left; vm_compute; reflexivity).
  cbn [Checked.bind]. rewrite Hb. cbn [Checked.bind].
  pose proof (pow_py libm_pow (Checked.py b) (Checked.lit 2) b2 eq_refl
                eq_refl Hb) as Kb.
  unfold Checked.div at 1.
  replace (Checked.kind_of (Checked.mul Checked.g b2))
    with Checked.PyFloat
    by (unfold Checked.mul; cbn [Checked.kind_of]; rewrite Kb;
        reflexivity).
  cbn [Checked.kind_of Checked.py Checked.join Checked.val].
  rewrite Hz. cbn [Checked.bind]. rewrite third_ok. cbn [Checked.bind].
  unfold Checked.pow.
  cbn [Checked.kind_of Checked.val Checked.py Checked.join].
  destruct (zero_div _ Hn Hz) as [-> | ->]; vm_compute; reflexivity.
Qed.

(** An overflow of [n**2] is an exception of [Sf]. *)
Lemma Sf_raises_with_n
  (libm_pow : PrimFloat.float -> PrimFloat.float -> PrimFloat.float)
  (v Q b n : Checked.num) (e : Checked.exn) :
  Checked.pow libm_pow n (Checked.lit 2) = Checked.Raise e ->
  Checked.Sf libm_pow v Q b n = Checked.Raise e.
Proof. intros Hn. unfold Checked.Sf. rewrite Hn. reflexivity. Qed.

(** [compute_critical_depth(Q, 0.0)] divides by zero. *)
Lemma critical_depth_of_no_width
  (libm_pow : PrimFloat.float -> PrimFloat.float -> PrimFloat.float)
  (Q : PrimFloat.float) (q2 : Checked.num) :
  Checked.pow libm_pow (Checked.py Q) (Checked.lit 2) = Checked.Ok q2 ->
  Checked.compute_critical_depth libm_pow (Checked.py Q)
    (Checked.py (float_lit 0))
  = Checked.Raise Checked.ZeroDivisionError.
Proof.
  intros HQ. unfold Checked.compute_critical_depth. rewrite HQ.
  cbn [Checked.bind].
  pose proof (pow_py libm_pow (Checked.py Q) (Checked.lit 2) q2 eq_refl
                eq_refl HQ) as KQ.
  unfold Checked.pow at 1.
  cbn [Checked.kind_of Checked.val Checked.py Checked.lit Checked.join].
  rewrite float_pow_zero_sqr by (left; vm_compute; reflexivity).
  cbn [Checked.bind]. unfold Checked.div at 1. rewrite KQ.
  cbn [Checked.mul Checked.g Checked.lit Checked.kind_of Checked.py
       Checked.join Checked.val].
  replace (PrimFloat.eqb
             (PrimFloat.mul (float_lit (981 # 100)) (float_lit 0))
             (float_lit 0)) with true by (vm_compute; reflexivity).
  reflexivity.
Qed.

(** ** The loop of [compute_gvf_profile] *)

Section TrapezoidalExceptions.
Variable libm_pow : PrimFloat.float -> PrimFloat.float -> PrimFloat.float.

Import Checked.

(** With a positive finite exponent [float_pow] raises nothing but
    [OverflowError]. *)
Lemma float_pow_raises (a w : PrimFloat.float) (e : exn) :
  PrimFloat.eqb w (float_lit 0) = false -> PrimFloat.is_nan w = false ->
  PrimFloat.is_infinity w = false ->
  PrimFloat.ltb w (float_lit 0) = false ->
  float_pow libm_pow a w = Raise e -> e = OverflowError.
Proof.
  intros H1 H2 H3 H4. unfold float_pow, libm_pow_checked.
  rewrite H1, H2, H3, H4.
  repeat match goal with
         | |- context [if ?c then _ else _] => destruct c
         end;
    intros H; inversion H; reflexivity.
Qed.

Lemma pow_raises (a w : num) (e : exn) :
  PrimFloat.eqb (val w) (float_lit 0) = false ->
  PrimFloat.is_nan (val w) = false ->
  PrimFloat.is_infinity (val w) = false ->
  PrimFloat.ltb (val w) (float_lit 0) = false ->
  Checked.pow libm_pow a w = Raise e -> e = OverflowError.
Proof.
  intros H1 H2 H3 H4. unfold Checked.pow.
  destruct (join (kind_of a) (kind_of w)); [|discriminate].
  destruct (float_pow libm_pow (val a) (val w)) as [f|e'|] eqn:Ef;
    cbn [bind]; try discriminate.
  intros H. inversion H; subst e'.
  exact (float_pow_raises _ _ _ H1 H2 H3 H4 Ef).
Qed.

Lemma pow_sqr_raises (a : num) (e : exn) :
  Checked.pow libm_pow a (lit 2) = Raise e -> e = OverflowError.
Proof. apply pow_raises; vm_compute; reflexivity. Qed.

Lemma pow_half_raises (a : num) (e : exn) :
  Checked.pow libm_pow a (lit (5 # 10)) = Raise e -> e = OverflowError.
Proof. apply pow_raises; vm_compute; reflexivity. Qed.

Lemma area_np (b z v : num) :
  kind_of v = NpFloat64 ->
  exists f, area libm_pow b z v = Ok (np f).
Proof.
  intros Hv. unfold area. rewrite (pow_np libm_pow v) by exact Hv.
  cbn [bind]. unfold add, mul, np. cbn [kind_of val]. rewrite Hv.
  rewrite !join_np_r. eexists. reflexivity.
Qed.

Lemma perimeter_np (b z v z2 r : num) :
  kind_of v = NpFloat64 ->
  Checked.pow libm_pow z (lit 2) = Ok z2 ->
  Checked.pow libm_pow (add (lit 1) z2) (lit (5 # 10)) = Ok r ->
  exists f, perimeter libm_pow b z v = Ok (np f).
Proof.
  intros Hv Hz Hr. unfold perimeter. rewrite Hz. cbn [bind].
  rewrite Hr. cbn [bind]. unfold add, mul, np. cbn [kind_of val].
  rewrite Hv. cbn [join]. rewrite !join_np_r. eexists. reflexivity.
Qed.

Lemma trapezoidal_Sf_np (Q b z v n : num) :
  kind_of v = NpFloat64 -> powers_return libm_pow Q z n ->
  exists f, trapezoidal_Sf libm_pow Q b z v n = Ok (np f).
Proof.
  intros Hv (z2 & r & n2 & q2 & Hz & Hr & Hn & HQ).
  destruct (area_np b z v Hv) as [a Ha].
  destruct (perimeter_np b z v z2 r Hv Hz Hr) as [p Hp].
  unfold trapezoidal_Sf, hydraulic_radius. rewrite Ha. cbn [bind].
  rewrite Hp. cbn [bind]. rewrite div_np by reflexivity. cbn [bind].
  rewrite Hn, HQ. cbn [bind].
  rewrite (pow_np libm_pow (np a)) by reflexivity. cbn [bind].
  rewrite four_thirds_ok. cbn [bind].
  rewrite (pow_np libm_pow (np _)) by reflexivity. cbn [bind].
  rewrite div_np by reflexivity. eexists. reflexivity.
Qed.

(** On a [float64] depth [Sf] raises nothing but [OverflowError], and
    when it returns the powers of the parameters did. *)
Lemma trapezoidal_Sf_cases (Q b z v n : num) :
  kind_of v = NpFloat64 ->
  match trapezoidal_Sf libm_pow Q b z v n with
  | Ok _ => powers_return libm_pow Q z n
  | Raise e => e = OverflowError
  | ComplexValue => True
  end.
Proof.
  intros Hv. destruct (area_np b z v Hv) as [a Ha].
  unfold trapezoidal_Sf, hydraulic_radius, perimeter.
  rewrite Ha. cbn [bind].
  destruct (Checked.pow libm_pow z (lit 2)) as [z2|e|] eqn:Hz;
    cbn [bind]; [|exact (pow_sqr_raises _ _ Hz)|exact I].
  destruct (Checked.pow libm_pow (add (lit 1) z2) (lit (5 # 10)))
    as [r|e|] eqn:Hr; cbn [bind]; [|exact (pow_half_raises _ _ Hr)|exact I].
  rewrite div_np
    by (unfold add, mul, np; cbn [kind_of]; rewrite Hv; cbn [join];
        apply join_np_r).
  cbn [bind].
  destruct (Checked.pow libm_pow n (lit 2)) as [n2|e|] eqn:Hn;
    cbn [bind]; [|exact (pow_sqr_raises _ _ Hn)|exact I].
  destruct (Checked.pow libm_pow Q (lit 2)) as [q2|e|] eqn:HQ;
    cbn [bind]; [|exact (pow_sqr_raises _ _ HQ)|exact I].
  rewrite (pow_np libm_pow (np a)) by reflexivity. cbn [bind].
  rewrite four_thirds_ok. cbn [bind].
  rewrite (pow_np libm_pow (np _)) by reflexivity. cbn [bind].
  rewrite div_np by reflexivity.
  exists z2, r, n2, q2. repeat split; assumption.
Qed.

Lemma trapezoidal_Fr_np (Q b z v : num) :
  kind_of v = NpFloat64 ->
  exists f, trapezoidal_Fr libm_pow Q b z v = Ok (np f).
Proof.
  intros Hv. destruct (area_np b z v Hv) as [a Ha].
  unfold trapezoidal_Fr. rewrite Ha. cbn [bind].
  rewrite div_np
    by (unfold top_width, add, mul; cbn [kind_of]; rewrite Hv;
        rewrite !join_np_r; reflexivity).
  cbn [bind]. rewrite div_np by reflexivity. eexists. reflexivity.
Qed.

(** A step from a [float64] depth: an exception is one of [Sf], and the
    depth stays a [float64]. *)
Lemma trapezoidal_body_cases (Q b z n S0 dx : num) (s : vars num) :
  kind_of (y s) = NpFloat64 ->
  match trapezoidal_body libm_pow Q b z n S0 dx s with
  | Raise e => trapezoidal_Sf libm_pow Q b z (y s) n = Raise e
  | ComplexValue => trapezoidal_Sf libm_pow Q b z (y s) n = ComplexValue
  | Ok f =>
      kind_of (y (flow_state f)) = NpFloat64
      /\ (f = Break 1 s \/ powers_return libm_pow Q z n)
  end.
Proof.
  intros Hy. destruct (trapezoidal_Fr_np Q b z (y s) Hy) as [fr Hfr].
  pose proof (trapezoidal_Sf_cases Q b z (y s) n Hy) as HSf.
  unfold trapezoidal_body. rewrite Hfr. cbn [bind].
  rewrite pow_np by reflexivity. cbn [bind].
  destruct (ltb _ _).
  { split; [exact Hy|left; reflexivity]. }
  destruct (trapezoidal_Sf libm_pow Q b z (y s) n) as [sf| |];
    cbn [bind]; try reflexivity.
  rewrite div_np by (unfold sub; cbn [kind_of]; apply join_np_r).
  cbn [bind].
  assert (Hk : kind_of (add (y s) (mul (np (PrimFloat.div
                 (val (sub S0 sf))
                 (val (sub (lit 1)
                         (np (libm_pow (val (np fr)) (val (lit 2))))))))
                 dx)) = NpFloat64).
  { unfold add. cbn [kind_of]. rewrite Hy. reflexivity. }
  destruct (_ || _)%bool; cbn [flow_state y];
    (split; [exact Hk|right; exact HSf]).
Qed.

Lemma trapezoidal_loop_np (Q b z n S0 dx L : num) :
  powers_return libm_pow Q z n ->
  forall (fuel : nat) (s : vars num),
    kind_of (y s) = NpFloat64 ->
    exists r,
      Checked.while fuel (fun s => ltb (x s) L)
        (trapezoidal_body libm_pow Q b z n S0 dx) s = Ok r.
Proof.
  intros Hp fuel.
  induction fuel as [|fuel IH]; intros s Hy; [eexists; reflexivity|].
  cbn [Checked.while]. destruct (ltb (x s) L); [|eexists; reflexivity].
  pose proof (trapezoidal_body_cases Q b z n S0 dx s Hy) as Hb.
  destruct (trapezoidal_Sf_np Q b z (y s) n Hy Hp) as [sf HSf].
  destruct (trapezoidal_body libm_pow Q b z n S0 dx s) as [f|e|];
    cbn [bind].
  - destruct Hb as [Hk _]. destruct f as [s'|k s'].
    + apply IH. exact Hk.
    + eexists. reflexivity.
  - rewrite HSf in Hb. discriminate.
  - rewrite HSf in Hb. discriminate.
Qed.

(** An exception that leaves the loop of [compute_gvf_profile] is an
    [OverflowError] of the first evaluation of [Sf], if it is not the
    solver's. *)
Lemma compute_gvf_profile_loop_raises
  (critical_depth : result PrimFloat.float) (fuel : nat)
  (Q b z n S0 dx L : num) (e : exn) :
  compute_gvf_profile_loop libm_pow critical_depth fuel Q b z n S0 dx L
  = Raise e ->
  critical_depth = Raise e
  \/ (e = OverflowError
      /\ exists yc,
           critical_depth = Ok yc
           /\ trapezoidal_Sf libm_pow Q b z
                (mul (np yc) (lit (101 # 100))) n = Raise e).
Proof.
  unfold compute_gvf_profile_loop.
  destruct critical_depth as [yc| |]; cbn [bind];
    [|intros H; left; inversion H; reflexivity|discriminate].
  destruct fuel as [|fuel]; [discriminate|].
  cbn [Checked.while x]. destruct (ltb _ _); [|discriminate].
  set (s0 := mk_vars (lit 0) (mul (np yc) (lit (101 # 100))) [lit 0]
               [mul (np yc) (lit (101 # 100))]).
  assert (Hy : kind_of (y s0) = NpFloat64) by reflexivity.
  pose proof (trapezoidal_body_cases Q b z n S0 dx s0 Hy) as Hb.
  pose proof (trapezoidal_Sf_cases Q b z (y s0) n Hy) as HSf.
  destruct (trapezoidal_body libm_pow Q b z n S0 dx s0) as [f|e'|];
    cbn [bind].
  - destruct Hb as [Hk [Hbr|Hp]].
    + subst f. discriminate.
    + destruct f as [s1|k s1]; [|discriminate].
      destruct (trapezoidal_loop_np Q b z n S0 dx L Hp fuel s1 Hk)
        as [r Hr].
      rewrite Hr. discriminate.
  - intros H. inversion H; subst e'. right.
    rewrite Hb in HSf. split; [exact HSf|].
    exists yc. split; [reflexivity|exact Hb].
  - discriminate.
Qed.
End TrapezoidalExceptions.

(** ** C5: what the integrators do with their parameters *)

(** C5 (as the code behaves).  The integrators validate no parameter and
    catch no exception; evaluated in binary64 with Python's exceptions:

    - the sign of [n] is not looked at: [compute_backwater_from_weir] and
      the loop of [plot_profile] do for [-n] what they do for [n], profile
      or exception;
    - an exception that leaves the loop of [plot_profile] comes from
      [compute_critical_depth], from [compute_normal_depth] or from the
      first evaluation of [Sf]: no later step raises;
    - an exception that leaves [compute_backwater_from_weir] comes from
      [compute_critical_depth] or from the first evaluation of [Sf], unless
      the first denominator was replaced by [1e-6];
    - when the critical depth evaluates to zero, with a finite [b], [n**2]
      not overflowing and [L > 0], both raise [ZeroDivisionError] inside
      the first step, from the division of [Sf] ([plot_profile] for a C
      library whose [pow] gives a NaN for a NaN and an infinity for an
      infinity);
    - for [Q = 0.0] the critical depth does evaluate to zero, when
      [g * b**2] is neither zero nor a NaN;
    - when [n**2] overflows, [compute_backwater_from_weir] raises
      [OverflowError] inside the first step;
    - for [b = 0.0] both raise [ZeroDivisionError] in
      [compute_critical_depth], before the loop;
    - an exception that leaves the loop of [compute_gvf_profile], whose
      depths are NumPy's from the start, is the solver's or an
      [OverflowError] of the first evaluation of [Sf] (a power of [z],
      [n] or [Q]): that loop divides by zero without raising. *)
Theorem integrators_validate_nothing
  (libm_pow : PrimFloat.float -> PrimFloat.float -> PrimFloat.float)
  (normal_depth : Checked.result Checked.num)
  (critical_depth : Checked.result PrimFloat.float)
  (Q b z n S0 dx L : PrimFloat.float) (fuel : nat) :
  let crit :=
    Checked.compute_critical_depth libm_pow (Checked.py Q) (Checked.py b) in
  let backwater (k : nat) (m : PrimFloat.float) :=
    Checked.compute_backwater_from_weir libm_pow k (Checked.py Q)
      (Checked.py b) (Checked.py m) (Checked.py S0) (Checked.py dx)
      (Checked.py L) in
  let profile (k : nat) (m : PrimFloat.float) :=
    Checked.plot_profile_loop libm_pow normal_depth k (Checked.py Q)
      (Checked.py b) (Checked.py m) (Checked.py S0) (Checked.py L)
      (Checked.py dx) in
  let Sf_at (v : Checked.num) :=
    Checked.Sf libm_pow v (Checked.py Q) (Checked.py b) (Checked.py n) in
  (backwater fuel (PrimFloat.opp n) = backwater fuel n
   /\ profile fuel (PrimFloat.opp n) = profile fuel n)
  /\ (forall e,
        profile fuel n = Checked.Raise e ->
        crit = Checked.Raise e \/ normal_depth = Checked.Raise e
        \/ exists yc,
             crit = Checked.Ok yc
             /\ Sf_at (Checked.mul yc (Checked.lit (105 # 100)))
                = Checked.Raise e)
  /\ (forall e,
        backwater fuel n = Checked.Raise e ->
        crit = Checked.Raise e
        \/ exists yc,
             crit = Checked.Ok yc
             /\ (Sf_at (Checked.mul yc (Checked.lit (101 # 100)))
                 = Checked.Raise e
                 \/ exists fr,
                      Checked.Fr (Checked.py Q) (Checked.py b)
                        (Checked.mul yc (Checked.lit (101 # 100)))
                      = Checked.Ok fr
                      /\ Checked.ltb
                           (Checked.abs
                              (Checked.sub (Checked.lit 1)
                                 (Checked.np
                                    (libm_pow (Checked.val fr)
                                       (float_lit 2)))))
                           (Checked.lit (1 # 1000000)) = true))
  /\ (forall yc n2,
        crit = Checked.Ok yc ->
        PrimFloat.eqb (Checked.val yc) (float_lit 0) = true ->
        PrimFloat.is_finite b = true ->
        Checked.pow libm_pow (Checked.py n) (Checked.lit 2)
        = Checked.Ok n2 ->
        PrimFloat.ltb (float_lit 0) L = true ->
        backwater (S fuel) n = Checked.Raise Checked.ZeroDivisionError
        /\ ((exists yn, normal_depth = Checked.Ok yn) ->
            libm_pow PrimFloat.nan (float_lit 2) = PrimFloat.nan ->
            libm_pow PrimFloat.infinity (float_lit 2)
            = PrimFloat.infinity ->
            libm_pow PrimFloat.neg_infinity (float_lit 2)
            = PrimFloat.infinity ->
            profile (S fuel) n
            = Checked.Raise Checked.ZeroDivisionError))
  /\ (Q = float_lit 0 ->
      forall b2,
        Checked.pow libm_pow (Checked.py b) (Checked.lit 2)
        = Checked.Ok b2 ->
        PrimFloat.is_nan (Checked.val (Checked.mul Checked.g b2)) = false ->
        PrimFloat.eqb (Checked.val (Checked.mul Checked.g b2)) (float_lit 0)
        = false ->
        crit = Checked.Ok (Checked.py (float_lit 0)))
  /\ (forall yc e,
        crit = Checked.Ok yc ->
        Checked.pow libm_pow (Checked.py n) (Checked.lit 2)
        = Checked.Raise e ->
        PrimFloat.ltb (float_lit 0) L = true ->
        backwater (S fuel) n = Checked.Raise e)
  /\ (b = float_lit 0 ->
      forall q2,
        Checked.pow libm_pow (Checked.py Q) (Checked.lit 2)
        = Checked.Ok q2 ->
        backwater fuel n = Checked.Raise Checked.ZeroDivisionError
        /\ profile fuel n = Checked.Raise Checked.ZeroDivisionError)
  /\ (forall e,
        Checked.compute_gvf_profile_loop libm_pow critical_depth fuel
          (Checked.py Q) (Checked.py b) (Checked.py z) (Checked.py n)
          (Checked.py S0) (Checked.py dx) (Checked.py L)
        = Checked.Raise e ->
        critical_depth = Checked.Raise e
        \/ (e = Checked.OverflowError
            /\ exists yc,
                 critical_depth = Checked.Ok yc
                 /\ Checked.trapezoidal_Sf libm_pow (Checked.py Q)
                      (Checked.py b) (Checked.py z)
                      (Checked.mul (Checked.np yc)
                         (Checked.lit (101 # 100)))
                      (Checked.py n) = Checked.Raise e)).
Proof.
  intros crit backwater profile Sf_at.
  split; [|split; [|split; [|split; [|split; [|split; [|split]]]]]].
  - split.
    + unfold backwater, Checked.compute_backwater_from_weir.
      destruct (Checked.compute_critical_depth _ _ _) as [yc| |];
        cbn [Checked.bind]; try reflexivity.
      rewrite (checked_while_ext _ _ _
                 (corrected_body_opp libm_pow _ _ _ _ n)).
      reflexivity.
    + unfold profile, Checked.plot_profile_loop.
      destruct (Checked.compute_critical_depth _ _ _) as [yc| |];
        cbn [Checked.bind]; try reflexivity.
      destruct normal_depth as [yn| |]; cbn [Checked.bind];
        try reflexivity.
      apply checked_while_ext. intros s. apply interactive_body_opp.
  - intros e. unfold profile, Checked.plot_profile_loop. fold crit.
    destruct crit as [yc| |] eqn:Ec; cbn [Checked.bind];
      [|intros H; left; inversion H; reflexivity|discriminate].
    destruct normal_depth as [yn| |]; cbn [Checked.bind];
      [|intros H; right; left; inversion H; reflexivity|discriminate].
    destruct fuel as [|fuel']; [discriminate|].
    cbn [Checked.while]. destruct (Checked.ltb _ _); [|discriminate].
    match goal with
    | |- context [Checked.interactive_body ?p ?q ?w ?m ?s0 ?d ?s] =>
        pose proof (interactive_body_first p q w m s0 d s) as Hf;
          destruct (Checked.interactive_body p q w m s0 d s)
            as [[s1|k s1]| |]
    end; cbn [Checked.bind].
    + destruct Hf as (Hk & n2 & q2 & Hn & HQ).
      destruct (interactive_loop_np libm_pow _ (Checked.py b) _
                  (Checked.py S0) (Checked.py dx) (Checked.py L) n2 q2
                  Hn HQ fuel' s1 Hk) as [r Hr].
      rewrite Hr. discriminate.
    + discriminate.
    + intros H. inversion H; subst e0. right. right. exists yc.
      split; [reflexivity|exact Hf].
    + discriminate.
  - intros e. unfold backwater, Checked.compute_backwater_from_weir.
    fold crit.
    destruct crit as [yc| |] eqn:Ec; cbn [Checked.bind];
      [|intros H; left; inversion H; reflexivity|discriminate].
    destruct fuel as [|fuel']; [discriminate|].
    cbn [Checked.while fst x]. destruct (Checked.ltb _ _);
      [|discriminate].
    match goal with
    | |- context [Checked.corrected_body ?p ?q ?w ?m ?s0 ?d ?s] =>
        pose proof (corrected_body_first p q w m s0 d s) as Hf;
          destruct (Checked.corrected_body p q w m s0 d s)
            as [f| |]
    end; cbn [Checked.bind].
    + destruct Hf as ((n2 & q2 & Hn & HQ) & [Hk|Hg]).
      * destruct f as [s1|k s1]; [|discriminate].
        cbn [flow_state] in Hk.
        destruct (corrected_loop_np libm_pow _ (Checked.py b) _
                    (Checked.py S0) (Checked.py dx) (Checked.py L) n2 q2
                    Hn HQ fuel' s1 Hk) as [r Hr].
        rewrite Hr. discriminate.
      * intros _. right. exists yc. split; [reflexivity|].
        right. exact Hg.
    + intros H. inversion H; subst e0. right. exists yc.
      split; [reflexivity|]. left. exact Hf.
    + discriminate.
  - intros yc n2 Hc Hz Hb Hn HL.
    destruct (compute_critical_depth_inv libm_pow Q b yc Hc)
      as (Hk & q2 & HQ).
    destruct yc as [k v]. cbn [Checked.kind_of] in Hk. subst k.
    cbn [Checked.val] in Hz.
    destruct (start_depth_zero v Hz) as [Hz1 Hz5].
    split.
    + unfold backwater, Checked.compute_backwater_from_weir.
      fold crit. rewrite Hc. cbn [Checked.bind Checked.while fst x].
      unfold Checked.ltb at 1. cbn [Checked.val Checked.lit Checked.py].
      rewrite HL.
      rewrite (corrected_body_raises libm_pow _ _ _ _ _ _ _
                 Checked.ZeroDivisionError); [reflexivity|].
      cbn [y]. unfold Checked.mul.
      cbn [Checked.kind_of Checked.val Checked.lit Checked.py
           Checked.join].
      apply (Sf_zero_depth libm_pow _ Q b n n2 q2); assumption.
    + intros [yn Hyn] Hnan Hinf Hninf.
      unfold profile, Checked.plot_profile_loop.
      fold crit. rewrite Hc, Hyn. cbn [Checked.bind Checked.while x].
      unfold Checked.ltb at 1. cbn [Checked.val Checked.lit Checked.py].
      rewrite HL.
      rewrite (interactive_body_raises libm_pow _ _ _ _ _ _
                 Checked.ZeroDivisionError); [reflexivity| |].
      * cbn [y]. unfold Checked.mul.
        cbn [Checked.kind_of Checked.val Checked.lit Checked.py
             Checked.join].
        intros fr Hfr.
        destruct (Fr_zero_depth _ Q b Hz5 Hb) as (f & Hf & Hcases).
        change (Checked.mk_num Checked.PyFloat
                  (PrimFloat.mul v (float_lit (105 # 100))))
          with (Checked.py (PrimFloat.mul v (float_lit (105 # 100))))
          in Hfr.
        rewrite Hf in Hfr. inversion Hfr; subst fr.
        cbn [Checked.val Checked.np Checked.lit Checked.py].
        destruct Hcases as [-> |[-> | ->]];
          rewrite ?Hnan, ?Hinf, ?Hninf; vm_compute; reflexivity.
      * cbn [y]. unfold Checked.mul.
        cbn [Checked.kind_of Checked.val Checked.lit Checked.py
             Checked.join].
        apply (Sf_zero_depth libm_pow _ Q b n n2 q2); assumption.
  - intros HQ0 b2 Hb2 Hnan Hzero. unfold crit. rewrite HQ0.
    apply (critical_depth_of_no_discharge libm_pow b b2); assumption.
  - intros yc e Hc Hn HL.
    unfold backwater, Checked.compute_backwater_from_weir.
    fold crit. rewrite Hc. cbn [Checked.bind Checked.while fst x].
    unfold Checked.ltb at 1. cbn [Checked.val Checked.lit Checked.py].
    rewrite HL.
    rewrite (corrected_body_raises libm_pow _ _ _ _ _ _ _ e);
      [reflexivity|].
    apply Sf_raises_with_n. exact Hn.
  - intros Hb0 q2 HQ.
    assert (Hc : crit = Checked.Raise Checked.ZeroDivisionError).
    { unfold crit. rewrite Hb0.
      apply (critical_depth_of_no_width libm_pow Q q2). exact HQ. }
    split.
    + unfold backwater, Checked.compute_backwater_from_weir.
      fold crit. rewrite Hc. reflexivity.
    + unfold profile, Checked.plot_profile_loop.
      fold crit. rewrite Hc. reflexivity.
  - intros e. apply compute_gvf_profile_loop_raises.
Qed.

Lemma integrators_validate_nothing_witness :
  Checked.compute_critical_depth (fun v _ => PrimFloat.mul v v)
    (Checked.py (float_lit 0)) (Checked.py (float_lit 3))
  = Checked.Ok (Checked.py (float_lit 0))
  /\ PrimFloat.is_finite (float_lit 3) = true
  /\ PrimFloat.ltb (float_lit 0) (float_lit 60) = true
  /\ Checked.compute_backwater_from_weir (fun v _ => PrimFloat.mul v v) 1
       (Checked.py (float_lit 0)) (Checked.py (float_lit 3))
       (Checked.py (float_lit (3 # 100))) (Checked.py (float_lit (1 # 1000)))
       (Checked.py (float_lit (25 # 100))) (Checked.py (float_lit 60))
     = Checked.Raise Checked.ZeroDivisionError.
Proof.
  assert (Hc : Checked.compute_critical_depth (fun v _ => PrimFloat.mul v v)
                 (Checked.py (float_lit 0)) (Checked.py (float_lit 3))
               = Checked.Ok (Checked.py (float_lit 0)))
    by (vm_compute; reflexivity).
  assert (Hb : PrimFloat.is_finite (float_lit 3) = true)
    by (vm_compute; reflexivity).
  assert (HL : PrimFloat.ltb (float_lit 0) (float_lit 60) = true)
    by (vm_compute; reflexivity).
  split; [exact Hc|]. split; [exact Hb|]. split; [exact HL|].
  refine (proj1 (proj1 (proj2 (proj2 (proj2
    (integrators_validate_nothing (fun v _ => PrimFloat.mul v v)
       (Checked.Ok (Checked.py (float_lit 1))) (Checked.Ok (float_lit 1))
       (float_lit 0) (float_lit 3) (float_lit 0)
       (float_lit (3 # 100)) (float_lit (1 # 1000)) (float_lit (25 # 100))
       (float_lit 60) 0)))) (Checked.py (float_lit 0))
    (Checked.py (PrimFloat.mul (float_lit (3 # 100)) (float_lit (3 # 100))))
    Hc _ Hb _ HL)).
  - vm_compute. reflexivity.
  - vm_compute. reflexivity.
Defined.
